(** * biliparser: feed resolution pipeline

    A shallow embedding of [biliparser.py]: the text helpers and the
    [feed] class with its memoised fields, the [safe_parser] wrapper, the
    cache-aside resolvers and the batch entry point, followed by the
    properties of the specification that are stated about them. *)

From Stdlib Require Import ZArith NArith Lia Bool String Ascii DecimalString.
From stdpp Require Import base option list gmap.

Set Default Proof Using "Type".
Local Open Scope N_scope.

(** ** Strings

    A Python [str] is a sequence of Unicode code points. *)

Definition char := N.
Definition pystr := list char.

(** ASCII literals of the source, written as Rocq strings. *)
Definition lit (s : string) : pystr :=
  List.map N_of_ascii (list_ascii_of_string s).

Definition LF : char := 10.   (* "\n" *)
Definition CR : char := 13.   (* "\r" *)

Definition ch (a : ascii) : char := N_of_ascii a.
Definition just (a : ascii) : char -> bool := N.eqb (ch a).
Definition one_of (s : string) : char -> bool :=
  fun c => existsb (N.eqb c) (lit s).
Definition none_of (s : string) : char -> bool := fun c => negb (one_of s c).
Definition between (lo hi : char) : char -> bool :=
  fun c => (lo <=? c) && (c <=? hi).
Definition any_char : char -> bool := fun c => negb (c =? LF). (* "." *)

(** [str.isspace], the characters removed by [str.strip()]. *)
Definition is_space (c : char) : bool :=
  between 9 13 c || between 28 32 c || (c =? 133) || (c =? 160)
  || (c =? 5760) || between 8192 8202 c || (c =? 8232) || (c =? 8233)
  || (c =? 8239) || (c =? 8287) || (c =? 12288).

Fixpoint lstrip (s : pystr) : pystr :=
  match s with
  | c :: s' => if is_space c then lstrip s' else s
  | [] => []
  end.

Definition rstrip (s : pystr) : pystr := rev (lstrip (rev s)).
Definition strip (s : pystr) : pystr := rstrip (lstrip s).

Fixpoint startswith (p s : pystr) : bool :=
  match p, s with
  | [], _ => true
  | a :: p', b :: s' => (a =? b) && startswith p' s'
  | _ :: _, [] => false
  end.

Definition endswith (p s : pystr) : bool := startswith (rev p) (rev s).

(** [p in s] on strings. *)
Fixpoint contains (p s : pystr) : bool :=
  startswith p s || match s with [] => false | _ :: s' => contains p s' end.

(** [str(n)] for an integer.  The integers of the program come from
    [json.loads] and [int], which give none with more digits than [str]
    accepts. *)
Definition str_of_Z (z : Z) : pystr :=
  lit (NilZero.string_of_int (Z.to_int z)).

(** ** Regular expressions

    The fragment of [re] the source uses.  Every repetition in the source
    is a greedy repetition of a one-character class. *)

Inductive regex :=
| Eps
| Chr (p : char -> bool)
| Rep (p : char -> bool) (lo : nat) (hi : option nat)
| Cat (r1 r2 : regex)
| Alt (r1 r2 : regex)
| Grp (n : nat) (r : regex)
| Eos.

Definition caps := list (nat * pystr).

Definition group (n : nat) (cs : caps) : option pystr :=
  snd <$> List.find (fun e => Nat.eqb (fst e) n) cs.

(** Greedy [p{lo,hi}]: the longest run first, then shorter ones. *)
Fixpoint rep_greedy {A} (p : char -> bool) (lo : nat) (hi : option nat)
    (s : pystr) (k : pystr -> option A) : option A :=
  let stop := match lo with O => k s | S _ => None end in
  match s with
  | c :: s' =>
      if p c && negb (bool_decide (hi = Some O)) then
        match rep_greedy p (pred lo) (pred <$> hi) s' k with
        | Some a => Some a
        | None => stop
        end
      else stop
  | [] => stop
  end.

(** The backtracking matcher, in continuation-passing style: [k] is what
    remains to be matched on the rest of the input. *)
Fixpoint rmatch {A} (r : regex) (s : pystr) (cs : caps)
    (k : pystr -> caps -> option A) : option A :=
  match r with
  | Eps => k s cs
  | Chr p => match s with
             | c :: s' => if p c then k s' cs else None
             | [] => None
             end
  | Rep p lo hi => rep_greedy p lo hi s (fun s' => k s' cs)
  | Cat r1 r2 => rmatch r1 s cs (fun s1 cs1 => rmatch r2 s1 cs1 k)
  | Alt r1 r2 => match rmatch r1 s cs k with
                 | Some a => Some a
                 | None => rmatch r2 s cs k
                 end
  | Grp n r1 =>
      rmatch r1 s cs
        (fun s1 cs1 => k s1 ((n, take (length s - length s1) s) :: cs1))
  | Eos => match s with
           | [] => k s cs
           | [c] => if c =? LF then k s cs else None
           | _ => None
           end
  end.

Record rmatched := { m_text : pystr; m_groups : caps; m_rest : pystr }.

Definition match_at (r : regex) (s : pystr) : option rmatched :=
  rmatch r s []
    (fun s' cs => Some {| m_text := take (length s - length s') s;
                          m_groups := cs; m_rest := s' |}).

(** [re.search]: the leftmost position where the pattern matches. *)
Fixpoint search (r : regex) (s : pystr) : option rmatched :=
  match match_at r s with
  | Some m => Some m
  | None => match s with
            | [] => None
            | _ :: s' => search r s'
            end
  end.

(** [re.sub] with a replacement function.  [skip] counts the characters of
    the current position that belong to the previous match. *)
Fixpoint sub_from (r : regex) (f : rmatched -> pystr) (skip : nat)
    (s : pystr) : pystr :=
  match s with
  | [] => match skip, match_at r [] with
          | O, Some m => f m
          | _, _ => []
          end
  | c :: s' =>
      match skip with
      | S n => sub_from r f n s'
      | O => match match_at r s with
             | Some m =>
                 match m_text m with
                 | [] => f m ++ c :: sub_from r f O s'
                 | _ :: t => f m ++ sub_from r f (length t) s'
                 end
             | None => c :: sub_from r f O s'
             end
      end
  end.

Definition re_sub (r : regex) (f : rmatched -> pystr) (s : pystr) : pystr :=
  sub_from r f O s.

Definition group_or_empty (n : nat) (m : rmatched) : pystr :=
  default [] (group n (m_groups m)).

Definition Str (s : string) : regex :=
  fold_right (fun c r => Cat (Chr (N.eqb c)) r) Eps (lit s).

Declare Scope re_scope.
Delimit Scope re_scope with re.
Bind Scope re_scope with regex.
Infix "·" := Cat (at level 40, left associativity) : re_scope.
Infix "|||" := Alt (at level 50, left associativity) : re_scope.

(** ** Values and exceptions

    The payloads that flow through the resolvers are parsed JSON; an
    exception instance is a value too, since [safe_parser] returns one. *)

(** The message of a [ParserException], in source order. *)
Inductive parser_msg :=
| ReplyError          (* 评论解析错误 *)
| DynamicLinkError    (* 动态链接错误 *)
| DynamicError        (* 动态解析错误 *)
| UnknownTemplate     (* 未知动态模板 *)
| AudioLinkError      (* 音频链接错误 *)
| AudioError          (* 音频解析错误 *)
| LiveLinkError       (* 直播链接错误 *)
| LiveError           (* 直播解析错误 *)
| LiveContentError    (* 直播内容获取错误 *)
| VideoLinkError      (* 视频链接错误 *)
| BangumiError        (* 番剧解析错误 *)
| VideoError          (* 视频解析错误 *)
| VideoContentError   (* 视频内容获取错误 *)
| ReadLinkError       (* 文章链接错误 *)
| ReadUidError        (* 文章uid解析错误 *)
| ReadUserError       (* 文章user解析错误 *)
| ReadContentError    (* 文章content解析错误 *)
| ReadMediaError      (* 文章mediaurls解析错误 *)
| ReadTitleError      (* 文章title解析错误 *)
| ReadArticleError    (* 文章article解析错误 *)
| UrlError.           (* URL错误 *)

(** Instances of [Exception]; [Upstream] stands for what a collaborator
    (transport, parser, publisher) raises. *)
Inductive exn :=
| ParserException (msg : parser_msg) (url : pystr)
| IntegrityError
| MultipleObjectsReturned
| AttributeError
| KeyError
| TypeError
| ValueError
| IndexError
| Upstream (tag : N).

#[warnings="-register-all"] Inductive pyval :=
| VNone
| VBool (b : bool)
| VInt (z : Z)
| VStr (s : pystr)
| VList (l : list pyval)
| VDict (d : list (pystr * pyval))
| VExc (e : exn).

Inductive result (A : Type) :=
| Ok (a : A)
| Raise (e : exn).
Arguments Ok {A} a.
Arguments Raise {A} e.

#[export] Instance result_fmap : FMap result := fun A B f m =>
  match m with
  | Ok a => Ok (f a)
  | Raise e => Raise e
  end.
#[export] Instance result_ret : MRet result := @Ok.
#[export] Instance result_bind : MBind result := fun A B f m =>
  match m with
  | Ok a => f a
  | Raise e => Raise e
  end.

(** [re.sub] with a callable replacement: the matches are replaced from
    left to right, and an exception of the callable ends the substitution. *)
Fixpoint sub_from_call (r : regex) (f : rmatched -> result pystr) (skip : nat)
    (s : pystr) : result pystr :=
  match s with
  | [] => match skip, match_at r [] with
          | O, Some m => f m
          | _, _ => Ok []
          end
  | c :: s' =>
      match skip with
      | S n => sub_from_call r f n s'
      | O => match match_at r s with
             | Some m =>
                 x ← f m;
                 match m_text m with
                 | [] => t ← sub_from_call r f O s'; mret (x ++ c :: t)
                 | _ :: t => u ← sub_from_call r f (length t) s'; mret (x ++ u)
                 end
             | None => t ← sub_from_call r f O s'; mret (c :: t)
             end
      end
  end.

Definition re_sub_call (r : regex) (f : rmatched -> result pystr) (s : pystr)
    : result pystr :=
  sub_from_call r f O s.

(** [sys.int_max_str_digits] at its default: [int] refuses a longer run of
    digits in a base that is no power of two. *)
Definition int_max_str_digits : N := 4300.

(** [bool(v)]. *)
Definition truthy (v : pyval) : bool :=
  match v with
  | VNone => false
  | VBool b => b
  | VInt z => negb (z =? 0)%Z
  | VStr s => negb (bool_decide (s = []))
  | VList l => negb (bool_decide (length l = O))
  | VDict d => negb (bool_decide (length d = O))
  | VExc _ => true
  end.

Fixpoint assoc (k : pystr) (d : list (pystr * pyval)) : option pyval :=
  match d with
  | [] => None
  | (k', v) :: d' => if bool_decide (k' = k) then Some v else assoc k d'
  end.

(** [v.get(k)]: only a dict has the method. *)
Definition py_get (v : pyval) (k : string) : result pyval :=
  match v with
  | VDict d => Ok (default VNone (assoc (lit k) d))
  | _ => Raise AttributeError
  end.

(** [v.get(k, dflt)]. *)
Definition py_get_or (v : pyval) (k : string) (dflt : pyval) : result pyval :=
  match v with
  | VDict d => Ok (default dflt (assoc (lit k) d))
  | _ => Raise AttributeError
  end.

(** [v[k]] with a string key. *)
Definition py_item (v : pyval) (k : string) : result pyval :=
  match v with
  | VDict d => match assoc (lit k) d with
               | Some x => Ok x
               | None => Raise KeyError
               end
  | VStr _ | VList _ => Raise TypeError   (* indices must be integers *)
  | _ => Raise TypeError                  (* not subscriptable *)
  end.

(** The tables of the Python runtime that the source reaches through its
    libraries: the Unicode classes behind [\w] and [\d], the classes of
    characters that [(?i)] identifies, the named character references
    [html.entities.html5], and [repr] of a container. *)
Class Runtime := {
  uni_alnum : char -> bool;
  uni_decimal : char -> option Z;
  uni_fold : char -> char;
  html5 : pystr -> option pystr;
  py_repr : pyval -> pystr;
  json_loads : pystr -> result pyval;
}.

Section Text.
Context {RT : Runtime}.

Definition word : char -> bool := fun c => uni_alnum c || (c =? 95).
Definition digit : char -> bool :=
  fun c => bool_decide (is_Some (uni_decimal c)).
Definition nocase (a : ascii) : char -> bool :=
  fun c => uni_fold c =? uni_fold (ch a).

(** [str(v)], as an f-string formats a value. *)
Definition py_str (v : pyval) : pystr :=
  match v with
  | VNone => lit "None"
  | VBool true => lit "True"
  | VBool false => lit "False"
  | VInt z => str_of_Z z
  | VStr s => s
  | _ => py_repr v
  end.

(** ** [html.unescape] *)

Definition _invalid_charrefs : list (N * pystr) :=
  [ (0x00, [0xfffd]); (0x0d, [CR]); (0x80, [0x20ac]); (0x81, [0x81]);
    (0x82, [0x201a]); (0x83, [0x0192]); (0x84, [0x201e]); (0x85, [0x2026]);
    (0x86, [0x2020]); (0x87, [0x2021]); (0x88, [0x02c6]); (0x89, [0x2030]);
    (0x8a, [0x0160]); (0x8b, [0x2039]); (0x8c, [0x0152]); (0x8d, [0x8d]);
    (0x8e, [0x017d]); (0x8f, [0x8f]); (0x90, [0x90]); (0x91, [0x2018]);
    (0x92, [0x2019]); (0x93, [0x201c]); (0x94, [0x201d]); (0x95, [0x2022]);
    (0x96, [0x2013]); (0x97, [0x2014]); (0x98, [0x02dc]); (0x99, [0x2122]);
    (0x9a, [0x0161]); (0x9b, [0x203a]); (0x9c, [0x0153]); (0x9d, [0x9d]);
    (0x9e, [0x017e]); (0x9f, [0x0178]) ].

Definition _invalid_codepoints (n : N) : bool :=
  between 0x1 0x8 n || between 0xe 0x1f n || between 0x7f 0x9f n
  || between 0xfdd0 0xfdef n || (n =? 0xb)
  || ((n <=? 0x10ffff) && (0xfffe <=? N.land n 0xffff)).

Definition hex_value (c : char) : N :=
  if between 48 57 c then c - 48
  else if between 97 102 c then c - 87
  else c - 55.

(** [int(ds, base)] on digits the pattern has already checked: a
    [ValueError] beyond the limit on their number, which the bases that are
    a power of two are exempt from. *)
Definition int_of (base : N) (ds : pystr) : result N :=
  if negb (N.land base (base - 1) =? 0)
     && (int_max_str_digits <? N.of_nat (length ds))
  then Raise ValueError
  else Ok (fold_left (fun acc c => acc * base + hex_value c) ds 0).

Fixpoint rstrip_char (c : char) (s : pystr) : pystr :=
  match s with
  | [] => []
  | x :: s' => match rstrip_char c s' with
               | [] => if x =? c then [] else [x]
               | t => x :: t
               end
  end.

(** [for x in range(len(s)-1, 1, -1)]: the longest known proper prefix. *)
Fixpoint named_prefix (s : pystr) (x : nat) : option pystr :=
  match x with
  | O | 1%nat => None
  | S x' => match html5 (take x s) with
            | Some v => Some (v ++ drop x s)
            | None => named_prefix s x'
            end
  end.

(** The two ends of [_replace_charref]: the text for the number of a
    reference, and the text for its name. *)
Definition numeric_charref (num : N) : pystr :=
  match List.find (fun e => fst e =? num) _invalid_charrefs with
  | Some e => snd e
  | None =>
      if between 0xD800 0xDFFF num || (0x10FFFF <? num) then [0xFFFD]
      else if _invalid_codepoints num then []
      else [num]
  end.

Definition named_charref (s : pystr) : pystr :=
  match html5 s with
  | Some v => v
  | None => match named_prefix s (length s - 1) with
            | Some v => v
            | None => ch "&" :: s
            end
  end.

Definition _replace_charref (m : rmatched) : result pystr :=
  let s := group_or_empty 1 m in
  match s with
  | [] => Raise IndexError                 (* s[0] *)
  | c :: s1 =>
      if c =? ch "#" then
        num ← match s1 with
              | [] => Raise IndexError     (* s[1] *)
              | x :: s2 =>
                  if one_of "xX" x then int_of 16 (rstrip_char (ch ";") s2)
                  else int_of 10 (rstrip_char (ch ";") s1)
              end;
        mret (numeric_charref num)
      else mret (named_charref s)
  end.

Definition _charref : regex :=
  (Chr (just "&") ·
   Grp 1 (Chr (just "#") · Rep (between 48 57) 1 None · Rep (just ";") 0 (Some 1%nat)
          ||| Chr (just "#") · Chr (one_of "xX")
              · Rep (fun c => between 48 57 c || between 97 102 c || between 65 70 c) 1 None
              · Rep (just ";") 0 (Some 1%nat)
          ||| Rep (fun c => negb (existsb (N.eqb c) [9; 10; 12; 32; 60; 38; 35; 59]))
                  1 (Some 32%nat)
              · Rep (just ";") 0 (Some 1%nat)))%re.

Definition unescape (s : pystr) : result pystr :=
  if negb (existsb (N.eqb (ch "&")) s) then Ok s
  else re_sub_call _charref _replace_charref s.

(** ** [escape_markdown] *)

Definition reserved : char -> bool := one_of "_*[]()~`>#+-=|{}.!\".

(** [re.sub(r"([_*\[\]()~`>\#\+\-=|{}\.!\\])", r"\\\1", s)]. *)
Definition escape_text (s : pystr) : pystr :=
  re_sub (Grp 1 (Chr reserved)) (fun m => ch "\" :: group_or_empty 1 m) s.

Definition escape_markdown (text : pyval) : result pystr :=
  if truthy text then
    match text with
    | VStr s => t ← unescape s; mret (escape_text t)
    | _ => Raise TypeError
    end
  else Ok [].

End Text.

(** A runtime for evaluating examples: the tables cut down to Basic Latin
    and to the predefined entities of [html.entities.html5]. *)
Definition predefined_entities : list (string * pystr) :=
  [ ("amp;", [38]); ("amp", [38]); ("lt;", [60]); ("lt", [60]);
    ("gt;", [62]); ("gt", [62]); ("quot;", [34]); ("quot", [34]);
    ("apos;", [39]); ("nbsp;", [160]); ("nbsp", [160]) ]%string.

Definition basic_latin : Runtime := {|
  uni_alnum c := between 48 57 c || between 65 90 c || between 97 122 c;
  uni_decimal c := if between 48 57 c then Some (Z.of_N (c - 48)) else None;
  uni_fold c := if between 65 90 c then c + 32 else c;
  html5 s := snd <$> List.find (fun e => bool_decide (lit (fst e) = s))
                               predefined_entities;
  py_repr v := match v with
               | VList _ => lit "[...]"
               | VDict _ => lit "{...}"
               | _ => lit "<exception>"
               end;
  json_loads s := Raise ValueError;
|}.

(** ** The [feed] class: static helpers and derived fields *)

Section Feed.
Context {RT : Runtime}.

Definition make_user_markdown (user uid : pyval) : result pystr :=
  if truthy user && truthy uid then
    u ← escape_markdown user;
    mret (lit "[@" ++ u ++ lit "](https://space.bilibili.com/"
          ++ py_str uid ++ lit ")")
  else mret [].

Definition crlf : regex := (Chr (N.eqb CR) · Chr (N.eqb LF))%re.
Definition newlines : regex := (Rep (N.eqb LF) 0 None · Chr (N.eqb LF))%re.

(** [re.sub(r"\n*\n", r"\n", re.sub(r"\r\n", r"\n", s.strip()))]. *)
Definition shrink_text (s : pystr) : pystr :=
  re_sub newlines (fun _ => [LF]) (re_sub crlf (fun _ => [LF]) (strip s)).

Definition shrink_line (text : pyval) : result pystr :=
  if truthy text then
    match text with
    | VStr s => Ok (shrink_text s)
    | _ => Raise AttributeError
    end
  else Ok [].

(** The attributes of a [feed] instance that the source assigns;
    [_content] and [_mediaurls] are the private [__content] and
    [__mediaurls]. *)
Record feed := {
  rawurl : pystr;
  user : pyval;
  uid : pyval;
  _content : pyval;
  _mediaurls : list pyval;
  mediaraws : bool;
  mediatype : pystr;
  mediathumb : pyval;
  mediaduration : pyval;
  mediatitle : pyval;
  extra_markdown : pyval;
  replycontent : option pyval;
}.

(** [feed(rawurl)] with the class-level defaults. *)
Definition new_feed (url : pystr) : feed := {|
  rawurl := url; user := VStr []; uid := VStr []; _content := VStr [];
  _mediaurls := []; mediaraws := false; mediatype := [];
  mediathumb := VStr []; mediaduration := VInt 0; mediatitle := VStr [];
  extra_markdown := VStr []; replycontent := None |}.

Definition set_user (v : pyval) (f : feed) : feed :=
  {| rawurl := rawurl f; user := v; uid := uid f; _content := _content f;
     _mediaurls := _mediaurls f; mediaraws := mediaraws f;
     mediatype := mediatype f; mediathumb := mediathumb f;
     mediaduration := mediaduration f; mediatitle := mediatitle f;
     extra_markdown := extra_markdown f; replycontent := replycontent f |}.
Definition set_uid (v : pyval) (f : feed) : feed :=
  {| rawurl := rawurl f; user := user f; uid := v; _content := _content f;
     _mediaurls := _mediaurls f; mediaraws := mediaraws f;
     mediatype := mediatype f; mediathumb := mediathumb f;
     mediaduration := mediaduration f; mediatitle := mediatitle f;
     extra_markdown := extra_markdown f; replycontent := replycontent f |}.
(** The [content] setter. *)
Definition set_content (v : pyval) (f : feed) : feed :=
  {| rawurl := rawurl f; user := user f; uid := uid f; _content := v;
     _mediaurls := _mediaurls f; mediaraws := mediaraws f;
     mediatype := mediatype f; mediathumb := mediathumb f;
     mediaduration := mediaduration f; mediatitle := mediatitle f;
     extra_markdown := extra_markdown f; replycontent := replycontent f |}.
(** The [mediaurls] setter: a value that is not a list is wrapped. *)
Definition set_mediaurls (v : pyval) (f : feed) : feed :=
  {| rawurl := rawurl f; user := user f; uid := uid f; _content := _content f;
     _mediaurls := match v with VList l => l | _ => [v] end;
     mediaraws := mediaraws f;
     mediatype := mediatype f; mediathumb := mediathumb f;
     mediaduration := mediaduration f; mediatitle := mediatitle f;
     extra_markdown := extra_markdown f; replycontent := replycontent f |}.
Definition set_mediaraws (v : bool) (f : feed) : feed :=
  {| rawurl := rawurl f; user := user f; uid := uid f; _content := _content f;
     _mediaurls := _mediaurls f; mediaraws := v;
     mediatype := mediatype f; mediathumb := mediathumb f;
     mediaduration := mediaduration f; mediatitle := mediatitle f;
     extra_markdown := extra_markdown f; replycontent := replycontent f |}.
Definition set_mediatype (v : pystr) (f : feed) : feed :=
  {| rawurl := rawurl f; user := user f; uid := uid f; _content := _content f;
     _mediaurls := _mediaurls f; mediaraws := mediaraws f;
     mediatype := v; mediathumb := mediathumb f;
     mediaduration := mediaduration f; mediatitle := mediatitle f;
     extra_markdown := extra_markdown f; replycontent := replycontent f |}.
Definition set_mediathumb (v : pyval) (f : feed) : feed :=
  {| rawurl := rawurl f; user := user f; uid := uid f; _content := _content f;
     _mediaurls := _mediaurls f; mediaraws := mediaraws f;
     mediatype := mediatype f; mediathumb := v;
     mediaduration := mediaduration f; mediatitle := mediatitle f;
     extra_markdown := extra_markdown f; replycontent := replycontent f |}.
Definition set_mediaduration (v : pyval) (f : feed) : feed :=
  {| rawurl := rawurl f; user := user f; uid := uid f; _content := _content f;
     _mediaurls := _mediaurls f; mediaraws := mediaraws f;
     mediatype := mediatype f; mediathumb := mediathumb f;
     mediaduration := v; mediatitle := mediatitle f;
     extra_markdown := extra_markdown f; replycontent := replycontent f |}.
Definition set_mediatitle (v : pyval) (f : feed) : feed :=
  {| rawurl := rawurl f; user := user f; uid := uid f; _content := _content f;
     _mediaurls := _mediaurls f; mediaraws := mediaraws f;
     mediatype := mediatype f; mediathumb := mediathumb f;
     mediaduration := mediaduration f; mediatitle := v;
     extra_markdown := extra_markdown f; replycontent := replycontent f |}.
Definition set_extra_markdown (v : pyval) (f : feed) : feed :=
  {| rawurl := rawurl f; user := user f; uid := uid f; _content := _content f;
     _mediaurls := _mediaurls f; mediaraws := mediaraws f;
     mediatype := mediatype f; mediathumb := mediathumb f;
     mediaduration := mediaduration f; mediatitle := mediatitle f;
     extra_markdown := v; replycontent := replycontent f |}.
Definition set_replycontent (v : pyval) (f : feed) : feed :=
  {| rawurl := rawurl f; user := user f; uid := uid f; _content := _content f;
     _mediaurls := _mediaurls f; mediaraws := mediaraws f;
     mediatype := mediatype f; mediathumb := mediathumb f;
     mediaduration := mediaduration f; mediatitle := mediatitle f;
     extra_markdown := extra_markdown f; replycontent := Some v |}.

(** What the getters compute when they are not served from a cache. *)

Definition user_markdown (f : feed) : result pystr :=
  make_user_markdown (user f) (uid f).

Definition content (f : feed) : result pystr := shrink_line (_content f).

Definition ensure_newline (s : pystr) : pystr :=
  if endswith [LF] s then s else s ++ [LF].

(** [content_markdown], from the value that [self.content] returned. *)
Definition content_markdown_of (c : pyval) : result pystr :=
  md ← escape_markdown c;
  shrink_line (VStr (ensure_newline md)).

Definition content_markdown (f : feed) : result pystr :=
  c ← content f; content_markdown_of (VStr c).

Definition has_comment (f : feed) : result bool :=
  match replycontent f with
  | None => Ok false
  | Some r => d ← py_get r "data"; mret (truthy d)
  end.

(** [top.values()]. *)
Definition py_values (v : pyval) : result (list pyval) :=
  match v with
  | VDict d => Ok (snd <$> d)
  | _ => Raise AttributeError
  end.

Definition pin : pystr := [128285].   (* U+1F51D *)

(** The loop over the pinned comments, shared by [comment] and
    [comment_markdown] up to the line it renders; [has] is the value that
    [self.has_comment] returned. *)
Definition top_comments (render : pyval -> result pystr) (has : bool)
    (f : feed) : result pystr :=
  if has then
    data ← py_item (default VNone (replycontent f)) "data";
    top ← py_get data "top";
    if truthy top then
      items ← py_values top;
      lines ← mapM (fun item => if truthy item then render item else mret [])
                   items;
      mret (concat lines)
    else mret []
  else mret [].

Definition comment_of (has : bool) (f : feed) : result pystr :=
  c ← top_comments (fun item =>
         member ← py_item item "member"; uname ← py_item member "uname";
         cont ← py_item item "content"; message ← py_item cont "message";
         mret (pin ++ lit "> @" ++ py_str uname ++ lit ":" ++ [LF]
               ++ py_str message ++ [LF])) has f;
  shrink_line (VStr c).

Definition comment (f : feed) : result pystr :=
  has ← has_comment f; comment_of has f.

Definition comment_markdown_of (has : bool) (f : feed) : result pystr :=
  c ← top_comments (fun item =>
         member ← py_item item "member"; uname ← py_item member "uname";
         member' ← py_item item "member"; mid ← py_item member' "mid";
         um ← make_user_markdown uname mid;
         cont ← py_item item "content"; message ← py_item cont "message";
         em ← escape_markdown message;
         mret (pin ++ lit "\> " ++ um ++ lit ":" ++ [LF] ++ em ++ [LF])) has f;
  shrink_line (VStr c).

Definition comment_markdown (f : feed) : result pystr :=
  has ← has_comment f; comment_markdown_of has f.

(** [re.search(r"\/([^\/]*\.\w{3,4})(?:$|\?)", url)]. *)
Definition filename_re : regex :=
  (Chr (just "/")
   · Grp 1 (Rep (fun c => negb (just "/" c)) 0 None · Chr (just ".")
            · Rep word 3 (Some 4%nat))
   · (Eos ||| Chr (just "?")))%re.

Definition get_filename (url : pyval) : result pystr :=
  match url with
  | VStr s => Ok (match search filename_re s with
                  | Some m => group_or_empty 1 m
                  | None => []
                  end)
  | _ => Raise TypeError
  end.

Definition mediafilename (f : feed) : result (list pystr) :=
  if bool_decide (_mediaurls f = []) then Ok []
  else mapM get_filename (_mediaurls f).

End Feed.

(** ** State and exceptions

    Code with effects runs on a state and ends with a value or with an
    exception; the state survives the exception. *)

Definition SE (S A : Type) : Type := S -> result A * S.

#[export] Instance se_ret {S} : MRet (SE S) := fun A a s => (Ok a, s).
#[export] Instance se_bind {S} : MBind (SE S) := fun A B f m s =>
  match m s with
  | (Ok a, s') => f a s'
  | (Raise e, s') => (Raise e, s')
  end.

Definition lift {S A} (r : result A) : SE S A := fun s => (r, s).
Definition raise {S A} (e : exn) : SE S A := fun s => (Raise e, s).
Definition state {S} : SE S S := fun s => (Ok s, s).
Definition update {S} (f : S -> S) : SE S unit := fun s => (Ok tt, f s).

(** What a wrapped resolver returns: its value, or the exception as a
    value. *)
Inductive returned (A : Type) :=
| Value (a : A)
| Error (err : exn).
Arguments Value {A} a.
Arguments Error {A} err.

(** [try: body / except <handled>: handler]. *)
Definition try_except {S A} (body : SE S A) (handled : exn -> bool)
    (handler : exn -> SE S A) : SE S A := fun s =>
  match body s with
  | (Raise e, s') => if handled e then handler e s' else (Raise e, s')
  | done => done
  end.

Definition is_IntegrityError (e : exn) : bool :=
  match e with IntegrityError => true | _ => false end.

(** ** [safe_parser] *)

Definition safe_parser {S A} (func : SE S A) : SE S (returned A) :=
  try_except
    (a ← try_except func is_IntegrityError (fun _ => func); mret (Value a))
    (fun _ => true)
    (fun err => mret (Error err)).

(** ** Instances of [feed] and their memoised getters

    [functools.cached_property] keeps the computed value in the instance;
    [property] over [functools.lru_cache(maxsize=1)] keeps, per getter, one
    entry for the whole class, keyed by the instance. *)

Inductive cached :=
| c_user_markdown | c_content_markdown | c_has_comment | c_comment
| c_comment_markdown | c_mediafilename | c_url.

Inductive lru_getter := lru_content | lru_mediaurls.

#[export] Instance cached_eq_dec : EqDecision cached.
Proof. solve_decision. Defined.
#[export] Instance lru_getter_eq_dec : EqDecision lru_getter.
Proof. solve_decision. Defined.

Record instance := {
  attrs : feed;
  cache : cached -> option pyval;
}.

Record store := {
  heap : gmap nat instance;
  lru : lru_getter -> option (nat * pyval);
}.

Definition empty_store : store := {| heap := ∅; lru := fun _ => None |}.

Section Objects.
Context {RT : Runtime}.

(** [feed(rawurl)]. *)
Definition alloc (url : pystr) : SE store nat := fun σ =>
  let self := fresh (dom (heap σ)) in
  (Ok self,
   {| heap := <[self := {| attrs := new_feed url; cache := fun _ => None |}]>
                (heap σ);
      lru := lru σ |}).

(** Every reference comes from [alloc]; one that is not in the store has
    no attributes. *)
Definition instance_of (self : nat) : SE store instance := fun σ =>
  match heap σ !! self with
  | Some i => (Ok i, σ)
  | None => (Raise AttributeError, σ)
  end.

(** An attribute assignment [self.x = v], through the setter if any. *)
Definition assign (self : nat) (upd : feed -> feed) : SE store unit :=
  i ← instance_of self;
  update (fun σ =>
    {| heap := <[self := {| attrs := upd (attrs i); cache := cache i |}]> (heap σ);
       lru := lru σ |}).

Definition remember (self : nat) (name : cached) (v : pyval) : SE store unit :=
  i ← instance_of self;
  update (fun σ =>
    {| heap := <[self := {| attrs := attrs i;
                            cache := fun n => if decide (n = name) then Some v
                                              else cache i n |}]> (heap σ);
       lru := lru σ |}).

Definition cached_property (name : cached) (func : nat -> SE store pyval)
    (self : nat) : SE store pyval :=
  i ← instance_of self;
  match cache i name with
  | Some v => mret v
  | None => v ← func self; _ ← remember self name v; mret v
  end.

Definition lru_cache (name : lru_getter) (func : nat -> SE store pyval)
    (self : nat) : SE store pyval :=
  let miss : SE store pyval :=
    v ← func self;
    _ ← update (fun σ =>
          {| heap := heap σ;
             lru := fun n => if decide (n = name) then Some (self, v)
                             else lru σ n |});
    mret v in
  σ ← state;
  match lru σ name with
  | Some (key, v) => if Nat.eqb key self then mret v else miss
  | None => miss
  end.

Definition get_user_markdown : nat -> SE store pyval :=
  cached_property c_user_markdown (fun self =>
    i ← instance_of self; lift (VStr <$> user_markdown (attrs i))).

Definition get_content : nat -> SE store pyval :=
  lru_cache lru_content (fun self =>
    i ← instance_of self; lift (VStr <$> content (attrs i))).

Definition get_content_markdown : nat -> SE store pyval :=
  cached_property c_content_markdown (fun self =>
    c ← get_content self; lift (VStr <$> content_markdown_of c)).

Definition get_has_comment : nat -> SE store pyval :=
  cached_property c_has_comment (fun self =>
    i ← instance_of self; lift (VBool <$> has_comment (attrs i))).

Definition get_comment : nat -> SE store pyval :=
  cached_property c_comment (fun self =>
    has ← get_has_comment self; i ← instance_of self;
    lift (VStr <$> comment_of (truthy has) (attrs i))).

Definition get_comment_markdown : nat -> SE store pyval :=
  cached_property c_comment_markdown (fun self =>
    has ← get_has_comment self; i ← instance_of self;
    lift (VStr <$> comment_markdown_of (truthy has) (attrs i))).

Definition get_mediaurls : nat -> SE store pyval :=
  lru_cache lru_mediaurls (fun self =>
    i ← instance_of self; mret (VList (_mediaurls (attrs i)))).

Definition get_mediafilename : nat -> SE store pyval :=
  cached_property c_mediafilename (fun self =>
    i ← instance_of self;
    lift ((fun names => VList (VStr <$> names)) <$> mediafilename (attrs i))).

Definition get_url : nat -> SE store pyval :=
  cached_property c_url (fun self =>
    i ← instance_of self; mret (VStr (rawurl (attrs i)))).

(** What a client of the class can do with the instances. *)
Inductive getter :=
| Cached (name : cached)
| Lru (name : lru_getter).

Definition read (g : getter) : nat -> SE store pyval :=
  match g with
  | Cached c_user_markdown => get_user_markdown
  | Cached c_content_markdown => get_content_markdown
  | Cached c_has_comment => get_has_comment
  | Cached c_comment => get_comment
  | Cached c_comment_markdown => get_comment_markdown
  | Cached c_mediafilename => get_mediafilename
  | Cached c_url => get_url
  | Lru lru_content => get_content
  | Lru lru_mediaurls => get_mediaurls
  end.

Inductive op :=
| New (url : pystr)
| Assign (self : nat) (upd : feed -> feed)
| Read (g : getter) (self : nat).

Definition exec (o : op) (σ : store) : store :=
  match o with
  | New url => snd (alloc url σ)
  | Assign self upd => snd (assign self upd σ)
  | Read g self => snd (read g self σ)
  end.

Definition run (ops : list op) (σ : store) : store := foldl (fun s o => exec o s) σ ops.

End Objects.

(** ** More of the Python object model *)

(** [v == n] for an integer literal [n]; [True == 1] and [False == 0]. *)
Definition py_eq_int (v : pyval) (n : Z) : bool :=
  match v with
  | VInt z => (z =? n)%Z
  | VBool b => ((if b then 1 else 0) =? n)%Z
  | _ => false
  end.

(** [v in [n1, n2, ...]]. *)
Definition py_in (v : pyval) (l : list Z) : bool := existsb (py_eq_int v) l.

(** [range(lo, hi)]. *)
Definition range (lo hi : Z) : list Z :=
  List.map (fun i => (lo + Z.of_nat i)%Z) (seq 0 (Z.to_nat (hi - lo))).

(** [len(v)]. *)
Definition py_len (v : pyval) : result nat :=
  match v with
  | VStr s => Ok (length s)
  | VList l => Ok (length l)
  | VDict d => Ok (length d)
  | _ => Raise TypeError
  end.

(** [v[0]] and [v[-1]]. *)
Definition py_first (v : pyval) : result pyval :=
  match v with
  | VList l => match l with x :: _ => Ok x | [] => Raise IndexError end
  | VStr s => match s with c :: _ => Ok (VStr [c]) | [] => Raise IndexError end
  | VDict _ => Raise KeyError
  | _ => Raise TypeError
  end.

Definition py_last (v : pyval) : result pyval :=
  match v with
  | VList l => match last l with Some x => Ok x | None => Raise IndexError end
  | VStr s => match last s with Some c => Ok (VStr [c]) | None => Raise IndexError end
  | VDict _ => Raise KeyError
  | _ => Raise TypeError
  end.

(** [for x in v]. *)
Definition py_iter (v : pyval) : result (list pyval) :=
  match v with
  | VList l => Ok l
  | VDict d => Ok ((fun e => VStr (fst e)) <$> d)
  | VStr s => Ok ((fun c => VStr [c]) <$> s)
  | _ => Raise TypeError
  end.

(** [k in v] for a string literal [k]. *)
Definition py_has (k : string) (v : pyval) : result bool :=
  match v with
  | VDict d => Ok (bool_decide (is_Some (assoc (lit k) d)))
  | VList l => Ok (existsb (fun x => match x with
                                     | VStr s => bool_decide (s = lit k)
                                     | _ => false
                                     end) l)
  | VStr s => Ok (contains (lit k) s)
  | _ => Raise TypeError
  end.

(** [a += b] with a string [a]. *)
Definition py_concat (a : pystr) (b : pyval) : result pystr :=
  match b with
  | VStr s => Ok (a ++ s)
  | _ => Raise TypeError
  end.

(** [a += b] in general: strings and lists are appended, numbers added. *)
Definition py_add (a b : pyval) : result pyval :=
  let number v := match v with
                  | VInt z => Some z
                  | VBool true => Some 1%Z
                  | VBool false => Some 0%Z
                  | _ => None
                  end in
  match a, b with
  | VStr s, VStr t => Ok (VStr (s ++ t))
  | VList l, VList k => Ok (VList (l ++ k))
  | _, _ => match number a, number b with
            | Some x, Some y => Ok (VInt (x + y))
            | _, _ => Raise TypeError
            end
  end.

Section Values.
Context {RT : Runtime}.

(** [json.loads(v)]. *)
Definition py_json_loads (v : pyval) : result pyval :=
  match v with
  | VStr s => json_loads s
  | _ => Raise TypeError
  end.

(** [int(s)] on the digits that [\d+] matched: a [ValueError] beyond the
    limit on their number. *)
Definition py_int (s : pystr) : result Z :=
  if (int_max_str_digits <? N.of_nat (length s))%N then Raise ValueError
  else Ok (fold_left (fun acc c => (acc * 10 + default 0 (uni_decimal c))%Z)
                     s 0%Z).

(** [s.split("/")[-1]]. *)
Fixpoint last_segment (acc s : pystr) : pystr :=
  match s with
  | [] => acc
  | c :: s' => if c =? ch "/" then last_segment [] s'
               else last_segment (acc ++ [c]) s'
  end.

Definition py_split_last (v : pyval) : result pyval :=
  match v with
  | VStr s => Ok (VStr (last_segment [] s))
  | _ => Raise AttributeError
  end.

(** A literal of the pattern under [(?i)]. *)
Definition StrI (s : string) : regex :=
  fold_right (fun c r => Cat (Chr (fun x => uni_fold x =? uni_fold c)) r)
             Eps (lit s).

End Values.

(** ** The cache store and the outside

    [database.py] and [utils.py] are not part of the sources: the cache
    models enter through their [timeout], the comparison of a stored key
    with a queried value, and the unique constraints; [utils.BILI_API] is a
    constant.  The HTTP client, the HTML parser and the publishing service
    are collaborators. *)

Inductive table :=
| audio_cache | bangumi_cache | dynamic_cache | live_cache
| read_cache | reply_cache | video_cache.

#[export] Instance table_eq_dec : EqDecision table.
Proof. solve_decision. Defined.

Record row := {
  cols : list (string * pyval);
  created : Z;
}.

Record response := {
  r_url : pystr;
  r_json : result pyval;    (* r.json() *)
  r_text : pystr;           (* r.text *)
}.

(** The elements that [read_parser] looks up in the page. *)
Inductive soup_query :=
| up_name            (* soup.find("a", class_="up-name") *)
| meta_author        (* soup.find("meta", attrs={"name": "author"}) *)
| meta_description   (* soup.find("meta", attrs={"name": "description"}) *)
| og_image           (* soup.find("meta", property="og:image") *)
| og_title           (* soup.find("meta", property="og:title") *)
| article_holder.    (* soup.find("div", class_="read-article-holder") *)

Class Outside := {
  net : Type;
  BILI_API : pystr;
  timeout : table -> Z;
  db_eq : pyval -> pyval -> bool;
  db_conflict : table -> row -> list row -> bool;
  (* client.get(url, params=...) *)
  client_get : pystr -> list (string * pyval) -> net -> result response * net;
  (* the [attrs] of the element found, [None] when there is none *)
  soup_find : pystr -> soup_query -> option pyval;
  (* lines 787-807 of read_parser: the images are re-hosted and the cleaned
     article is published; the result is the URL of the page *)
  publish : pystr -> pyval -> pyval -> pyval -> net -> result pyval * net;
}.

Inductive resolver := reply | dynamic_r | audio_r | live_r | video_r | read_r | feed_r.

(** A resolver was invoked with these arguments, the client apart. *)
Inductive call := Invoked (name : resolver) (args : list pyval).

Section World.
Context {RT : Runtime} {OUT : Outside}.

Record world := {
  db : table -> list row;
  clock : Z;                (* timezone.now() *)
  outside : net;
  calls : list call;        (* most recent first *)
}.

Definition set_db (t : table) (rows : list row) (w : world) : world :=
  {| db := fun t' => if decide (t' = t) then rows else db w t';
     clock := clock w; outside := outside w; calls := calls w |}.

Definition note (c : call) : SE world unit :=
  update (fun w => {| db := db w; clock := clock w; outside := outside w;
                      calls := c :: calls w |}).

Definition now : SE world Z := w ← state; mret (clock w).

Definition get (url : pystr) (params : list (string * pyval))
    : SE world response := fun w =>
  let (r, n) := client_get url params (outside w) in
  (r, {| db := db w; clock := clock w; outside := n; calls := calls w |}).

(** [Q(col=v)], [Q(a, b, join_type="OR")] and [Q(created__gte=t)]. *)
Definition Q := row -> bool.

Fixpoint column (col : string) (cs : list (string * pyval)) : option pyval :=
  match cs with
  | [] => None
  | (c, v) :: cs' => if String.eqb c col then Some v else column col cs'
  end.

Definition Q_eq (col : string) (v : pyval) : Q := fun r =>
  match column col (cols r) with
  | Some x => db_eq x v
  | None => false
  end.
Definition Q_or (a b : Q) : Q := fun r => a r || b r.
Definition Q_and (a b : Q) : Q := fun r => a r && b r.
Definition created_gte (t : Z) : Q := fun r => (t <=? created r)%Z.

(** [Model.get_or_none] on the queries [qs]: the row that satisfies all of
    them, with its
    position in the table. *)
Definition get_or_none (t : table) (qs : list Q)
    : SE world (option (nat * row)) :=
  w ← state;
  match List.filter (fun ir => forallb (fun q : Q => q (snd ir)) qs)
                    (imap pair (db w t)) with
  | [] => mret None
  | [ir] => mret (Some ir)
  | _ => raise MultipleObjectsReturned
  end.

Fixpoint set_column (col : string) (v : pyval) (cs : list (string * pyval))
    : list (string * pyval) :=
  match cs with
  | [] => [(col, v)]
  | (c, x) :: cs' => if String.eqb c col then (c, v) :: cs'
                     else (c, x) :: set_column col v cs'
  end.

(** Modelled from the spec: the cache models of [database.py] are missing;
    an update sets the payload and bumps [created] to now. *)
Definition save_existing (t : table) (i : nat) (col : string) (v : pyval)
    : SE world unit :=
  update (fun w =>
    set_db t (alter (fun r => {| cols := set_column col v (cols r);
                                 created := clock w |}) i (db w t)) w).

(** [save()] of a new model instance with the columns [cs]: an insert,
    refused when it breaks a unique constraint. *)
Definition create (t : table) (cs : list (string * pyval)) : SE world unit :=
  w ← state;
  let r := {| cols := cs; created := clock w |} in
  if db_conflict t r (db w t) then raise IntegrityError
  else update (set_db t (db w t ++ [r])).

End World.

(** ** The subclasses of [feed] *)

Section Classes.
Context {RT : Runtime}.

(** [dynamic]; [_user] and [_dcontent] are its private [__user] and
    [__content], which its [user] and [content] setters assign. *)
Record dynamic := {
  d_feed : feed;
  detailcontent : pyval;
  dynamic_id : pyval;
  rid : pyval;
  _user : pyval;
  _dcontent : pyval;
  forward_user : pyval;
  forward_uid : pyval;
  forward_content : pyval;
}.

Definition new_dynamic (url : pystr) : dynamic := {|
  d_feed := new_feed url; detailcontent := VDict []; dynamic_id := VInt 0;
  rid := VInt 0; _user := VStr []; _dcontent := VStr [];
  forward_user := VStr []; forward_uid := VInt 0; forward_content := VStr [] |}.

Definition on_dfeed (g : feed -> feed) (d : dynamic) : dynamic :=
  {| d_feed := g (d_feed d); detailcontent := detailcontent d;
     dynamic_id := dynamic_id d; rid := rid d; _user := _user d;
     _dcontent := _dcontent d; forward_user := forward_user d;
     forward_uid := forward_uid d; forward_content := forward_content d |}.
Definition set_detailcontent (v : pyval) (d : dynamic) : dynamic :=
  {| d_feed := d_feed d; detailcontent := v;
     dynamic_id := dynamic_id d; rid := rid d; _user := _user d;
     _dcontent := _dcontent d; forward_user := forward_user d;
     forward_uid := forward_uid d; forward_content := forward_content d |}.
Definition set_dynamic_id (v : pyval) (d : dynamic) : dynamic :=
  {| d_feed := d_feed d; detailcontent := detailcontent d;
     dynamic_id := v; rid := rid d; _user := _user d;
     _dcontent := _dcontent d; forward_user := forward_user d;
     forward_uid := forward_uid d; forward_content := forward_content d |}.
Definition set_rid (v : pyval) (d : dynamic) : dynamic :=
  {| d_feed := d_feed d; detailcontent := detailcontent d;
     dynamic_id := dynamic_id d; rid := v; _user := _user d;
     _dcontent := _dcontent d; forward_user := forward_user d;
     forward_uid := forward_uid d; forward_content := forward_content d |}.
(** The [user] and [content] setters of [dynamic]. *)
Definition set_duser (v : pyval) (d : dynamic) : dynamic :=
  {| d_feed := d_feed d; detailcontent := detailcontent d;
     dynamic_id := dynamic_id d; rid := rid d; _user := v;
     _dcontent := _dcontent d; forward_user := forward_user d;
     forward_uid := forward_uid d; forward_content := forward_content d |}.
Definition set_dcontent (v : pyval) (d : dynamic) : dynamic :=
  {| d_feed := d_feed d; detailcontent := detailcontent d;
     dynamic_id := dynamic_id d; rid := rid d; _user := _user d;
     _dcontent := v; forward_user := forward_user d;
     forward_uid := forward_uid d; forward_content := forward_content d |}.
Definition set_forward (user uid content : pyval) (d : dynamic) : dynamic :=
  {| d_feed := d_feed d; detailcontent := detailcontent d;
     dynamic_id := dynamic_id d; rid := rid d; _user := _user d;
     _dcontent := _dcontent d; forward_user := user;
     forward_uid := uid; forward_content := content |}.

(** [self.detailcontent["data"]["card"]]. *)
Definition detail_card (d : dynamic) : result pyval :=
  data ← py_item (detailcontent d) "data"; py_item data "card".

Definition forward_card (d : dynamic) : result pyval :=
  c ← detail_card d; s ← py_item c "card"; py_json_loads s.

Definition has_forward (d : dynamic) : result bool :=
  c ← detail_card d; ds ← py_item c "desc"; t ← py_item ds "orig_type";
  mret (truthy t).

Definition forward_type (d : dynamic) : result pyval :=
  c ← detail_card d; ds ← py_item c "desc"; py_item ds "type".

Definition origin_type (d : dynamic) : result pyval :=
  hf ← has_forward d;
  if (hf : bool) then
    c ← detail_card d; ds ← py_item c "desc"; py_item ds "orig_type"
  else forward_type d.

(** The chain of [if self.forward_type ...: return ...] of [reply_type];
    falling through returns [None]. *)
Definition reply_type_of (ft : pyval) : pyval :=
  if py_eq_int ft 2 then VInt 11
  else if py_eq_int ft 16 then VInt 5
  else if py_eq_int ft 64 then VInt 12
  else if py_eq_int ft 256 then VInt 14
  else if py_in ft (8 :: 512 :: range 4000 4200)%Z then VInt 1
  else if py_in ft (1 :: 4 :: range 4200 4300 ++ range 2048 2100)%Z then VInt 17
  else VNone.

Definition reply_type (d : dynamic) : result pyval :=
  ft ← forward_type d; mret (reply_type_of ft).

Definition oid (d : dynamic) : result pyval :=
  ft ← forward_type d;
  mret (if py_in ft (1 :: 4 :: range 4200 4300 ++ range 2048 2100)%Z
        then dynamic_id d else rid d).

Definition card (d : dynamic) : result pyval :=
  hf ← has_forward d;
  origin ← (if (hf : bool) then fc ← forward_card d; py_get fc "origin"
            else mret VNone);
  if hf && truthy origin then
    fc ← forward_card d; o ← py_get fc "origin"; py_json_loads o
  else forward_card d.

Definition add_on_card (d : dynamic) : result pyval :=
  c ← detail_card d; display ← py_item c "display";
  has ← py_has "add_on_card_info" display;
  if (has : bool) then py_item display "add_on_card_info" else mret (VList []).

(** The getters of [dynamic] that override those of [feed]. *)

Definition dynamic_user (d : dynamic) : result pyval :=
  hf ← has_forward d; mret (if (hf : bool) then forward_user d else _user d).

Definition dynamic_user_markdown (d : dynamic) : result pystr :=
  hf ← has_forward d;
  if (hf : bool) then make_user_markdown (forward_user d) (forward_uid d)
  else make_user_markdown (_user d) (uid (d_feed d)).

Definition dynamic_content (d : dynamic) : result pystr :=
  hf ← has_forward d;
  c ← (if (hf : bool) then
         if truthy (_user d)
         then py_add (forward_content d)
                (VStr (lit "//@" ++ py_str (_user d) ++ lit ":" ++ [LF]))
         else mret (forward_content d)
       else mret (VStr []));
  c ← py_add c (_dcontent d);
  shrink_line c.

Definition dynamic_content_markdown (d : dynamic) : result pystr :=
  hf ← has_forward d;
  md ← (if (hf : bool) then
          fc ← escape_markdown (forward_content d);
          if truthy (uid (d_feed d)) then
            um ← make_user_markdown (_user d) (uid (d_feed d));
            mret (fc ++ lit "//" ++ um ++ lit ":" ++ [LF])
          else if truthy (_user d) then
            u ← escape_markdown (_user d);
            mret (fc ++ lit "//@" ++ u ++ lit ":" ++ [LF])
          else mret fc
        else mret []);
  c ← escape_markdown (_dcontent d);
  let md := ensure_newline (md ++ c) in
  md ← (if truthy (extra_markdown (d_feed d))
        then py_concat md (extra_markdown (d_feed d)) else mret md);
  shrink_line (VStr md).

Definition dynamic_url (d : dynamic) : pystr :=
  lit "https://t.bilibili.com/" ++ py_str (dynamic_id d).

(** [audio], [live], [video] and [read]. *)

Record audio := {
  a_feed : feed;
  a_infocontent : pyval;
  a_mediacontent : pyval;
  audio_id : pyval;
}.

Definition new_audio (url : pystr) : audio :=
  {| a_feed := new_feed url; a_infocontent := VDict [];
     a_mediacontent := VStr []; audio_id := VInt 0 |}.
Definition on_afeed (g : feed -> feed) (a : audio) : audio :=
  {| a_feed := g (a_feed a); a_infocontent := a_infocontent a;
     a_mediacontent := a_mediacontent a; audio_id := audio_id a |}.
Definition set_a_infocontent (v : pyval) (a : audio) : audio :=
  {| a_feed := a_feed a; a_infocontent := v;
     a_mediacontent := a_mediacontent a; audio_id := audio_id a |}.
Definition set_a_mediacontent (v : pyval) (a : audio) : audio :=
  {| a_feed := a_feed a; a_infocontent := a_infocontent a;
     a_mediacontent := v; audio_id := audio_id a |}.
Definition set_audio_id (v : pyval) (a : audio) : audio :=
  {| a_feed := a_feed a; a_infocontent := a_infocontent a;
     a_mediacontent := a_mediacontent a; audio_id := v |}.
Definition audio_url (a : audio) : pystr :=
  lit "https://www.bilibili.com/audio/au" ++ py_str (audio_id a).

Record live := {
  l_feed : feed;
  l_rawcontent : pyval;
  room_id : pyval;
}.

Definition new_live (url : pystr) : live :=
  {| l_feed := new_feed url; l_rawcontent := VDict []; room_id := VInt 0 |}.
Definition on_lfeed (g : feed -> feed) (l : live) : live :=
  {| l_feed := g (l_feed l); l_rawcontent := l_rawcontent l;
     room_id := room_id l |}.
Definition set_l_rawcontent (v : pyval) (l : live) : live :=
  {| l_feed := l_feed l; l_rawcontent := v; room_id := room_id l |}.
Definition set_room_id (v : pyval) (l : live) : live :=
  {| l_feed := l_feed l; l_rawcontent := l_rawcontent l; room_id := v |}.
Definition live_url (l : live) : pystr :=
  lit "https://live.bilibili.com/" ++ py_str (room_id l).

Record video := {
  v_feed : feed;
  aid : pyval;
  cid : pyval;
  sid : pyval;
  v_infocontent : pyval;
}.

Definition new_video (url : pystr) : video :=
  {| v_feed := new_feed url; aid := VInt 0; cid := VInt 0; sid := VInt 0;
     v_infocontent := VDict [] |}.
Definition on_vfeed (g : feed -> feed) (v : video) : video :=
  {| v_feed := g (v_feed v); aid := aid v; cid := cid v; sid := sid v;
     v_infocontent := v_infocontent v |}.
Definition set_aid (x : pyval) (v : video) : video :=
  {| v_feed := v_feed v; aid := x; cid := cid v; sid := sid v;
     v_infocontent := v_infocontent v |}.
Definition set_cid (x : pyval) (v : video) : video :=
  {| v_feed := v_feed v; aid := aid v; cid := x; sid := sid v;
     v_infocontent := v_infocontent v |}.
Definition set_sid (x : pyval) (v : video) : video :=
  {| v_feed := v_feed v; aid := aid v; cid := cid v; sid := x;
     v_infocontent := v_infocontent v |}.
Definition set_v_infocontent (x : pyval) (v : video) : video :=
  {| v_feed := v_feed v; aid := aid v; cid := cid v; sid := sid v;
     v_infocontent := x |}.
Definition video_url (v : video) : pystr :=
  lit "https://www.bilibili.com/video/av" ++ py_str (aid v).

Record read_ := {
  r_feed : feed;
  read_id : pyval;
}.

Definition new_read (url : pystr) : read_ :=
  {| r_feed := new_feed url; read_id := VInt 0 |}.
Definition on_rfeed (g : feed -> feed) (r : read_) : read_ :=
  {| r_feed := g (r_feed r); read_id := read_id r |}.
Definition set_read_id (v : pyval) (r : read_) : read_ :=
  {| r_feed := r_feed r; read_id := v |}.
Definition read_url (r : read_) : pystr :=
  lit "https://www.bilibili.com/read/cv" ++ py_str (read_id r).

(** A populated feed of any class. *)
Inductive feed_obj :=
| Dynamic (d : dynamic)
| Audio (a : audio)
| Live (l : live)
| Video (v : video)
| Read_ (r : read_).

Definition base (f : feed_obj) : feed :=
  match f with
  | Dynamic d => d_feed d
  | Audio a => a_feed a
  | Live l => l_feed l
  | Video v => v_feed v
  | Read_ r => r_feed r
  end.

(** The attributes that [dynamic_parser] reads from a resolved sub-feed
    [fu]; an exception instance has none of them. *)
Definition fu_content (fu : returned feed_obj) : result pyval :=
  match fu with
  | Value (Dynamic d) => VStr <$> dynamic_content d
  | Value f => VStr <$> content (base f)
  | Error _ => Raise AttributeError
  end.

Definition fu_user (fu : returned feed_obj) : result pyval :=
  match fu with
  | Value (Dynamic d) => dynamic_user d
  | Value f => Ok (user (base f))
  | Error _ => Raise AttributeError
  end.

Definition fu_base (fu : returned feed_obj) : result feed :=
  match fu with
  | Value f => Ok (base f)
  | Error _ => Raise AttributeError
  end.

(** The derived fields that [biliparser] formats into its debug line, in
    the order of the f-string. *)
Definition url_of (f : feed_obj) : pystr :=
  match f with
  | Dynamic d => dynamic_url d
  | Audio a => audio_url a
  | Live l => live_url l
  | Video v => video_url v
  | Read_ r => read_url r
  end.

Definition debug_line (f : feed_obj) : result unit :=
  let _ := url_of f in
  _ ← match f with
      | Dynamic d => dynamic_user_markdown d
      | _ => user_markdown (base f)
      end;
  _ ← match f with
      | Dynamic d => dynamic_content_markdown d
      | _ => content_markdown (base f)
      end;
  _ ← comment_markdown (base f);
  _ ← mediafilename (base f);
  mret tt.

End Classes.

(** ** The resolvers *)

Section Resolvers.
Context {RT : Runtime} {OUT : Outside}.

(** [Q(created__gte=timezone.now() - t.timeout)]. *)
Definition fresh_since (t : table) : SE world Q :=
  n ← now; mret (created_gte (n - timeout t)%Z).

(** [await t.get_or_none(query, Q(created__gte=timezone.now() - ttl.timeout))]:
    the lookup of table [t] with the window of [ttl]. *)
Definition lookup (t : table) (query : Q) (ttl : table)
    : SE world (option (nat * row)) :=
  f ← fresh_since ttl; get_or_none t [query; f].

(** [cache.col]. *)
Definition attr (col : string) (c : row) : SE world pyval :=
  match column col (cols c) with
  | Some v => mret v
  | None => raise AttributeError
  end.

(** The block under [if not cache:]: the row of the key is overwritten, or
    a new one is inserted. *)
Definition write_back (t : table) (cache : option (nat * row)) (query : Q)
    (col : string) (v : pyval) (fresh : list (string * pyval))
    : SE world unit :=
  match cache with
  | Some _ => mret tt
  | None =>
      found ← get_or_none t [query];
      match found with
      | Some (i, _) => save_existing t i col v
      | None => create t fresh
      end
  end.

Definition get2 (v : pyval) (k1 k2 : string) : result pyval :=
  x ← py_get v k1; py_get x k2.

(** *** [reply_parser] *)

Definition reply_body (oid reply_type : pyval) : SE world pyval :=
  let query := Q_and (Q_eq "oid" oid) (Q_eq "reply_type" reply_type) in
  cache ← lookup reply_cache query reply_cache;
  r ← match cache with
      | Some (_, c) => attr "content" c
      | None =>
          resp ← get (BILI_API ++ lit "/x/v2/reply/main")
                     [("oid", oid); ("type", reply_type)]%string;
          r ← lift (r_json resp);
          data ← lift (py_get r "data");
          (* the arguments of the ParserException are evaluated first, and
             [r], the parsed body, has no attribute [url] *)
          if truthy data then mret r else raise AttributeError
      end;
  _ ← write_back reply_cache cache query "content" r
        [("oid", oid); ("reply_type", reply_type); ("content", r)]%string;
  mret r.

Definition as_value (r : returned pyval) : pyval :=
  match r with
  | Value v => v
  | Error e => VExc e
  end.

Definition reply_parser (oid reply_type : pyval) : SE world pyval :=
  _ ← note (Invoked reply [oid; reply_type]);
  r ← safe_parser (reply_body oid reply_type);
  mret (as_value r).

(** *** [audio_parser] *)

Definition audio_re : regex :=
  (Str "bilibili.com/audio/au" · Grp 1 (Rep digit 1 None))%re.

Definition audio_body (url : pystr) : SE world feed_obj :=
  match search audio_re url with
  | None => raise (ParserException AudioLinkError url)
  | Some m =>
      n ← lift (py_int (group_or_empty 1 m));
      let id := VInt n in
      let f := set_audio_id id (new_audio url) in
      let query := Q_eq "audio_id" id in
      cache ← lookup audio_cache query audio_cache;
      '(f, detail) ←
        match cache with
        | Some (_, c) =>
            content ← attr "content" c;
            detail ← lift (py_item content "data");
            mret (set_a_infocontent content f, detail)
        | None =>
            r ← get (BILI_API ++ lit "/audio/music-service-c/songs/playing")
                    [("song_id", id)]%string;
            content ← lift (r_json r);
            detail ← lift (py_get content "data");
            if truthy detail then mret (set_a_infocontent content f, detail)
            else raise (ParserException AudioError (r_url r))
        end;
      _ ← write_back audio_cache cache query "content" (a_infocontent f)
            [("audio_id", id); ("content", a_infocontent f)]%string;
      uid ← lift (py_get detail "mid");
      let f := on_afeed (set_uid uid) f in
      r ← get (BILI_API ++ lit "/audio/music-service-c/url")
              [("songid", id); ("mid", uid); ("privilege", VInt 2);
               ("quality", VInt 3); ("platform", VStr [])]%string;
      mediacontent ← lift (r_json r);
      let f := set_a_mediacontent mediacontent f in
      author ← lift (py_get detail "author");
      let f := on_afeed (set_user author) f in
      intro ← lift (py_get detail "intro");
      let f := on_afeed (set_content intro) f in
      title ← lift (py_get detail "title");
      et ← lift (escape_markdown title);
      let f := on_afeed (set_extra_markdown
                 (VStr (lit "[" ++ et ++ lit "](" ++ audio_url f ++ lit ")"))) f in
      cover ← lift (py_get detail "cover_url");
      let f := on_afeed (set_mediathumb cover) f in
      title ← lift (py_get detail "title");
      let f := on_afeed (set_mediatitle title) f in
      duration ← lift (py_get detail "duration");
      let f := on_afeed (set_mediaduration duration) f in
      cdns ← lift (get2 mediacontent "data" "cdns");
      let f := on_afeed (set_mediaurls cdns) f in
      let f := on_afeed (set_mediatype (lit "audio")) f in
      let f := on_afeed (set_mediaraws true) f in
      rc ← reply_parser (audio_id f) (VInt 14);
      mret (Audio (on_afeed (set_replycontent rc) f))
  end.

Definition audio_parser (url : pystr) : SE world (returned feed_obj) :=
  _ ← note (Invoked audio_r [VStr url]);
  safe_parser (audio_body url).

(** *** [live_parser] *)

Definition live_re : regex :=
  (Str "live.bilibili.com" · Rep (fun c => just "/" c || word c) 0 None
   · Chr (just "/") · Grp 1 (Rep digit 1 None))%re.

(** "的直播间" *)
Definition live_room_suffix : pystr := [30340; 30452; 25773; 38388].

Definition live_body (url : pystr) : SE world feed_obj :=
  match search live_re url with
  | None => raise (ParserException LiveLinkError url)
  | Some m =>
      n ← lift (py_int (group_or_empty 1 m));
      let id := VInt n in
      let f := set_room_id id (new_live url) in
      let query := Q_eq "room_id" id in
      cache ← lookup live_cache query live_cache;
      '(f, detail) ←
        match cache with
        | Some (_, c) =>
            content ← attr "content" c;
            detail ← lift (py_get content "data");
            mret (set_l_rawcontent content f, detail)
        | None =>
            r ← get (lit "https://api.live.bilibili.com/xlive/web-room/v1/index/getInfoByRoom")
                    [("room_id", id)]%string;
            content ← lift (r_json r);
            detail ← lift (py_get content "data");
            if truthy detail then mret (set_l_rawcontent content f, detail)
            else raise (ParserException LiveError (r_url r))
        end;
      _ ← write_back live_cache cache query "content" (l_rawcontent f)
            [("room_id", id); ("content", l_rawcontent f)]%string;
      if negb (truthy detail)
      then raise (ParserException LiveContentError (live_url f))
      else
        anchor ← lift (py_item detail "anchor_info");
        base_info ← lift (py_item anchor "base_info");
        uname ← lift (py_item base_info "uname");
        let f := on_lfeed (set_user uname) f in
        roominfo ← lift (py_get detail "room_info");
        uid ← lift (py_get roominfo "uid");
        let f := on_lfeed (set_uid uid) f in
        title ← lift (py_get roominfo "title");
        area ← lift (py_get roominfo "area_name");
        parent ← lift (py_get roominfo "parent_area_name");
        let f := on_lfeed (set_content
                   (VStr (py_str title ++ lit " - " ++ py_str area
                          ++ lit " - " ++ py_str parent))) f in
        eu ← lift (escape_markdown (user (l_feed f)));
        let f := on_lfeed (set_extra_markdown
                   (VStr (lit "[" ++ eu ++ live_room_suffix ++ lit "]("
                          ++ live_url f ++ lit ")"))) f in
        keyframe ← lift (py_get roominfo "keyframe");
        let f := on_lfeed (set_mediaurls keyframe) f in
        let f := on_lfeed (set_mediatype (lit "image")) f in
        mret (Live f)
  end.

Definition live_parser (url : pystr) : SE world (returned feed_obj) :=
  _ ← note (Invoked live_r [VStr url]);
  safe_parser (live_body url).

(** *** [video_parser] *)

Definition video_re : regex :=
  ((StrI "bilibili.com/" · (StrI "video" ||| StrI "bangumi/play")
    ||| StrI "b23.tv" ||| StrI "acg.tv")
   · StrI "/"
   · (Grp 1 (StrI "bv" · Rep word 1 None)          (* bvid *)
      ||| StrI "av" · Grp 2 (Rep digit 1 None)      (* aid *)
      ||| StrI "ep" · Grp 3 (Rep digit 1 None)      (* epid *)
      ||| StrI "ss" · Grp 4 (Rep digit 1 None)))%re. (* ssid *)

(** [match.group(n)]: [None] for a group that took no part. *)
Definition group_val (n : nat) (m : rmatched) : pyval :=
  match group n (m_groups m) with
  | Some s => VStr s
  | None => VNone
  end.

(** [params.get(k)]. *)
Definition param (k : string) (params : list (string * pyval)) : pyval :=
  default VNone (column k params).

(** [for x in l: f = step(f, x)]. *)
Fixpoint for_each {A B} (step : A -> B -> result A) (l : list B) (a : A)
    : result A :=
  match l with
  | [] => Ok a
  | x :: l' => a' ← step a x; for_each step l' a'
  end.

(** The block under [if "ep_id" in params or "season_id" in params:]. *)
Definition bangumi_stage (url : pystr) (f : video) (epid : pyval)
    (params : list (string * pyval))
    : SE world (video * list (string * pyval)) :=
  let query := Q_or (Q_eq "epid" (param "ep_id" params))
                    (Q_eq "ssid" (param "season_id" params)) in
  cache ← lookup bangumi_cache query video_cache;
  f ← match cache with
      | Some (_, c) =>
          content ← attr "content" c; mret (set_v_infocontent content f)
      | None =>
          r ← get (BILI_API ++ lit "/pgc/view/web/season") params;
          content ← lift (r_json r); mret (set_v_infocontent content f)
      end;
  detail ← lift (py_get (v_infocontent f) "result");
  if negb (truthy detail) then raise (ParserException BangumiError url)
  else
    season ← lift (py_get detail "season_id");
    let f := set_sid season f in
    f ← (if truthy epid then
           episodes ← lift (py_get detail "episodes");
           l ← lift (py_iter episodes);
           lift (for_each (fun f episode =>
                   id ← py_get episode "id";
                   if match epid with
                      | VStr s => bool_decide (py_str id = s)
                      | _ => false
                      end
                   then a ← py_get episode "aid"; mret (set_aid a f)
                   else mret f) l f)
         else mret f);
    '(f, epid) ←
      (if negb (truthy (aid f)) then
         episodes ← lift (py_get detail "episodes");
         ep ← lift (py_last episodes);
         a ← lift (py_get ep "aid");
         episodes' ← lift (py_get detail "episodes");
         ep' ← lift (py_last episodes');
         id ← lift (py_get ep' "id");
         mret (set_aid a f, id)
       else mret (f, epid));
    _ ← write_back bangumi_cache cache query "content" (v_infocontent f)
          [("epid", epid); ("ssid", sid f); ("content", v_infocontent f)]%string;
    mret (f, [("aid", aid f)]%string).

Definition video_body (url : pystr) : SE world feed_obj :=
  match search video_re url with
  | None => raise (ParserException VideoLinkError url)
  | Some m =>
      let f := new_video url in
      let epid := group_val 3 m in
      let params :=
        if truthy epid then [("ep_id", epid)]%string
        else if truthy (group_val 1 m) then [("bvid", group_val 1 m)]%string
        else if truthy (group_val 2 m) then [("aid", group_val 2 m)]%string
        else if truthy (group_val 4 m) then [("season_id", group_val 4 m)]%string
        else [] in
      '(f, params) ←
        (if bool_decide (is_Some (column "ep_id" params))
            || bool_decide (is_Some (column "season_id" params))
         then bangumi_stage url f epid params
         else mret (f, params));
      let query := Q_or (Q_eq "aid" (param "aid" params))
                        (Q_eq "bvid" (param "bvid" params)) in
      cache ← lookup video_cache query video_cache;
      '(f, detail) ←
        match cache with
        | Some (_, c) =>
            content ← attr "content" c;
            detail ← lift (py_get content "data");
            mret (set_v_infocontent content f, detail)
        | None =>
            r ← get (BILI_API ++ lit "/x/web-interface/view") params;
            content ← lift (r_json r);
            detail ← lift (py_get content "data");
            if truthy detail then mret (set_v_infocontent content f, detail)
            else raise (ParserException VideoError (r_url r))
        end;
      if negb (truthy detail)
      then raise (ParserException VideoContentError (video_url f))
      else
        bvid ← lift (py_get detail "bvid");
        a ← lift (py_get detail "aid");
        let f := set_aid a f in
        c ← lift (py_get detail "cid");
        let f := set_cid c f in
        _ ← write_back video_cache cache query "content" (v_infocontent f)
              [("aid", aid f); ("bvid", bvid); ("content", v_infocontent f)]%string;
        name ← lift (get2 detail "owner" "name");
        let f := on_vfeed (set_user name) f in
        mid ← lift (get2 detail "owner" "mid");
        let f := on_vfeed (set_uid mid) f in
        dyn ← lift (py_get detail "dynamic");
        let f := on_vfeed (set_content dyn) f in
        title ← lift (py_get detail "title");
        et ← lift (escape_markdown title);
        let f := on_vfeed (set_extra_markdown
                   (VStr (lit "[" ++ et ++ lit "](" ++ video_url f ++ lit ")"))) f in
        title ← lift (py_get detail "title");
        let f := on_vfeed (set_mediatitle title) f in
        pic ← lift (py_get detail "pic");
        let f := on_vfeed (set_mediaurls pic) f in
        let f := on_vfeed (set_mediatype (lit "image")) f in
        rc ← reply_parser (aid f) (VInt 1);
        mret (Video (on_vfeed (set_replycontent rc) f))
  end.

Definition video_parser (url : pystr) : SE world (returned feed_obj) :=
  _ ← note (Invoked video_r [VStr url]);
  safe_parser (video_body url).

(** *** [read_parser] *)

Definition read_re : regex :=
  (Str "bilibili.com/read/" · (Str "cv" ||| Str "mobile/")
   · Grp 1 (Rep digit 1 None))%re.

(** [x = soup.find(...)] followed by
    [if not isinstance(x, Tag) or not x.attrs.get(key): raise ...]. *)
Definition required_attr (page : pystr) (q : soup_query) (key : string)
    (err : exn) : SE world pyval :=
  match soup_find page q with
  | None => raise err
  | Some attrs =>
      v ← lift (py_get attrs key);
      if truthy v then mret attrs else raise err
  end.

Definition publish_page (page : pystr) (title user uid : pyval)
    : SE world pyval := fun w =>
  let (r, n) := publish page title user uid (outside w) in
  (r, {| db := db w; clock := clock w; outside := n; calls := calls w |}).

Definition read_body (url : pystr) : SE world feed_obj :=
  match search read_re url with
  | None => raise (ParserException ReadLinkError url)
  | Some m =>
      n ← lift (py_int (group_or_empty 1 m));
      let id := VInt n in
      let f := set_read_id id (new_read url) in
      r ← get (lit "https://www.bilibili.com/read/cv" ++ py_str id) [];
      let page := r_text r in
      uid_content ← required_attr page up_name "href"
                      (ParserException ReadUidError url);
      href ← lift (py_item uid_content "href");
      author_id ← lift (py_split_last href);
      let f := on_rfeed (set_uid author_id) f in
      user_content ← required_attr page meta_author "content"
                       (ParserException ReadUserError url);
      author ← lift (py_item user_content "content");
      let f := on_rfeed (set_user author) f in
      content_content ← required_attr page meta_description "content"
                          (ParserException ReadContentError url);
      description ← lift (py_get content_content "content");
      let f := on_rfeed (set_content description) f in
      f ← match soup_find page og_image with
          | None => raise (ParserException ReadMediaError url)
          | Some attrs =>
              mediaurls ← lift (py_get attrs "content");
              if truthy mediaurls
              then mret (on_rfeed (set_mediatype (lit "image"))
                           (on_rfeed (set_mediaurls mediaurls) f))
              else mret f
          end;
      title_content ← required_attr page og_title "content"
                        (ParserException ReadTitleError url);
      title ← lift (py_get title_content "content");
      let query := Q_eq "read_id" id in
      cache ← lookup read_cache query audio_cache;
      graphurl ←
        match cache with
        | Some (_, c) => attr "graphurl" c
        | None =>
            match soup_find page article_holder with
            | None => raise (ParserException ReadArticleError url)
            | Some _ =>
                graphurl ← publish_page page title (user (r_feed f))
                             (uid (r_feed f));
                _ ← write_back read_cache None query "graphurl" graphurl
                      [("read_id", id); ("graphurl", graphurl)]%string;
                mret graphurl
            end
        end;
      et ← lift (escape_markdown title);
      let f := on_rfeed (set_extra_markdown
                 (VStr (lit "[" ++ et ++ lit "](" ++ py_str graphurl ++ lit ")"))) f in
      rc ← reply_parser (read_id f) (VInt 12);
      mret (Read_ (on_rfeed (set_replycontent rc) f))
  end.

Definition read_parser (url : pystr) : SE world (returned feed_obj) :=
  _ ← note (Invoked read_r [VStr url]);
  safe_parser (read_body url).

(** *** [dynamic_parser] *)

Definition dynamic_re : regex :=
  (Chr (one_of "th") · Str ".bilibili.com"
   · Rep (fun c => just "/" c || word c) 0 None
   · Chr (just "/") · Grp 1 (Rep digit 1 None))%re.

(** [detail_types_list]. *)
Definition WORD : list Z := [1; 4]%Z.
Definition PIC : list Z := [2]%Z.
Definition VIDEO : list Z := (8 :: 512 :: range 4000 4200)%Z.
Definition CLIP : list Z := [16]%Z.
Definition ARTICLE : list Z := [64]%Z.
Definition MUSIC : list Z := [256]%Z.
Definition LIVE : list Z := range 4200 4300.
Definition SHARE : list Z := range 2048 2100.

(** Lines 384-419: the identifier, the cached or fetched detail, and its
    write-back. *)
Definition dynamic_fetch (url : pystr) : SE world dynamic :=
  match search dynamic_re url with
  | None => raise (ParserException DynamicLinkError url)
  | Some m =>
      let f := new_dynamic url in
      let id := VStr (group_or_empty 1 m) in
      let by_rid := contains (lit "type=2") (m_text m) in
      let query := if by_rid then Q_eq "rid" id else Q_eq "dynamic_id" id in
      cache ← lookup dynamic_cache query dynamic_cache;
      f ← match cache with
          | Some (_, c) =>
              content ← attr "content" c; mret (set_detailcontent content f)
          | None =>
              r ← get (lit "https://api.vc.bilibili.com/dynamic_svr/v1/dynamic_svr/get_dynamic_detail")
                      (if by_rid || contains (lit "h.bilibili.com") (m_text m)
                       then [("rid", id); ("type", VInt 2)]%string
                       else [("dynamic_id", id)]%string);
              content ← lift (r_json r);
              let f := set_detailcontent content f in
              c ← lift (get2 content "data" "card");
              if truthy c then mret f
              else raise (ParserException DynamicError (r_url r))
          end;
      c ← lift (detail_card f);
      ds ← lift (py_item c "desc");
      did ← lift (py_item ds "dynamic_id");
      let f := set_dynamic_id did f in
      c ← lift (detail_card f);
      ds ← lift (py_item c "desc");
      r ← lift (py_item ds "rid");
      let f := set_rid r f in
      _ ← write_back dynamic_cache cache query "content" (detailcontent f)
            [("dynamic_id", dynamic_id f); ("rid", rid f);
             ("content", detailcontent f)]%string;
      mret f
  end.

(** [if fu:] and the copies under it; every instance is true. *)
Definition copy_from (fu : returned feed_obj) (f : dynamic) : result dynamic :=
  u ← fu_user fu;
  let f := set_duser u f in
  b ← fu_base fu;
  let f := on_dfeed (set_uid (uid b)) f in
  let f := on_dfeed (set_extra_markdown (extra_markdown b)) f in
  let f := on_dfeed (set_mediathumb (mediathumb b)) f in
  let f := on_dfeed (set_mediatitle (mediatitle b)) f in
  let f := on_dfeed (set_mediaduration (mediaduration b)) f in
  let f := on_dfeed (set_mediaurls (VList (_mediaurls b))) f in
  let f := on_dfeed (set_mediatype (mediatype b)) f in
  mret (on_dfeed (set_mediaraws (mediaraws b)) f).

(** Lines 440-506: the dispatch on [origin_type]. *)
Definition dynamic_extra (f : dynamic) : SE world dynamic :=
  ot ← lift (origin_type f);
  if py_in ot (MUSIC ++ VIDEO ++ LIVE ++ ARTICLE) then
    '(fu, f) ←
      (if py_in ot MUSIC then
         c ← lift (card f); id ← lift (py_get c "id");
         fu ← audio_parser (lit "bilibili.com/audio/au" ++ py_str id);
         content ← lift (fu_content fu);
         mret (fu, set_dcontent content f)
       else if py_in ot LIVE then
         c ← lift (card f); id ← lift (py_get c "roomid");
         fu ← live_parser (lit "live.bilibili.com/" ++ py_str id);
         content ← lift (fu_content fu);
         mret (fu, set_dcontent content f)
       else if py_in ot VIDEO then
         c ← lift (card f); id ← lift (py_get c "aid");
         fu ← video_parser (lit "b23.tv/av" ++ py_str id);
         new_desc ← lift (py_get c "new_desc");
         content ← (if truthy new_desc then lift (py_get c "new_desc")
                    else lift (fu_content fu));
         mret (fu, set_dcontent content f)
       else
         (* ARTICLE: the only kind left of the four *)
         c ← lift (card f); id ← lift (py_get c "id");
         fu ← read_parser (lit "bilibili.com/read/cv" ++ py_str id);
         content ← lift (fu_content fu);
         mret (fu, set_dcontent content f));
    lift (copy_from fu f)
  else if py_in ot (PIC ++ CLIP) then
    c ← lift (card f);
    name ← lift (get2 c "user" "name");
    let f := set_duser name f in
    u ← lift (get2 c "user" "uid");
    let f := on_dfeed (set_uid u) f in
    item ← lift (py_get c "item");
    title ← lift (py_get_or item "title" (VStr []));
    item ← lift (py_get c "item");
    description ← lift (py_get_or item "description" (VStr []));
    let f := set_dcontent
               (VStr (py_str title ++ [LF] ++ py_str description)) f in
    aoc ← lift (add_on_card f);
    n ← lift (py_len aoc);
    f ← (if negb (Nat.eqb n 0) then
           x ← lift (py_first aoc);
           t ← lift (get2 x "reserve_attach_card" "title");
           mret (on_dfeed (set_extra_markdown t) f)
         else mret f);
    if py_in ot PIC then
      pictures ← lift (get2 c "item" "pictures");
      l ← lift (py_iter pictures);
      srcs ← lift (mapM (fun t => py_get t "img_src") l);
      let f := on_dfeed (set_mediaurls (VList srcs)) f in
      mret (on_dfeed (set_mediatype (lit "image")) f)
    else if py_in ot CLIP then
      playurl ← lift (get2 c "item" "video_playurl");
      let f := on_dfeed (set_mediaurls playurl) f in
      item ← lift (py_get c "item");
      cover ← lift (get2 item "cover" "unclipped");
      let f := on_dfeed (set_mediathumb cover) f in
      mret (on_dfeed (set_mediatype (lit "video")) f)
    else mret f
  else if py_in ot WORD then
    c ← lift (card f);
    uname ← lift (get2 c "user" "uname");
    let f := set_duser uname f in
    u ← lift (get2 c "user" "uid");
    let f := on_dfeed (set_uid u) f in
    content ← lift (get2 c "item" "content");
    mret (set_dcontent content f)
  else if py_in ot SHARE then
    c ← lift (card f);
    uname ← lift (get2 c "user" "uname");
    let f := set_duser uname f in
    u ← lift (get2 c "user" "uid");
    let f := on_dfeed (set_uid u) f in
    content ← lift (get2 c "vest" "content");
    let f := set_dcontent content f in
    title ← lift (get2 c "sketch" "title");
    et ← lift (escape_markdown title);
    desc ← lift (get2 c "sketch" "desc_text");
    ed ← lift (escape_markdown desc);
    target ← lift (get2 c "sketch" "target_url");
    let f := on_dfeed (set_extra_markdown
               (VStr (lit "[" ++ et ++ [LF] ++ ed ++ lit "](" ++ py_str target
                      ++ lit ")"))) f in
    cover ← lift (get2 c "sketch" "cover_url");
    let f := on_dfeed (set_mediaurls cover) f in
    mret (on_dfeed (set_mediatype (lit "image")) f)
  else
    (* logger.warning(ParserException(..., f.url, f.card)) *)
    _ ← lift (card f);
    mret f.

(** Lines 508-511. *)
Definition dynamic_forward (f : dynamic) : result dynamic :=
  hf ← has_forward f;
  if (hf : bool) then
    fc ← forward_card f; uname ← get2 fc "user" "uname";
    fc ← forward_card f; u ← get2 fc "user" "uid";
    fc ← forward_card f; content ← get2 fc "item" "content";
    mret (set_forward uname u content f)
  else mret f.

Definition dynamic_body (url : pystr) : SE world feed_obj :=
  f ← dynamic_fetch url;
  f ← dynamic_extra f;
  f ← lift (dynamic_forward f);
  o ← lift (oid f);
  rt ← lift (reply_type f);
  rc ← reply_parser o rt;
  mret (Dynamic (on_dfeed (set_replycontent rc) f)).

Definition dynamic_parser (url : pystr) : SE world (returned feed_obj) :=
  _ ← note (Invoked dynamic_r [VStr url]);
  safe_parser (dynamic_body url).

(** *** [feed_parser] *)

Definition matches (r : regex) (s : pystr) : bool :=
  bool_decide (is_Some (search r s)).

Definition feed_body (url : pystr) : SE world (returned feed_obj) :=
  r ← get url [];
  let url := r_url r in
  if matches (Str "api." · Rep any_char 0 None · Str ".bilibili")%re url then
    raise (ParserException UrlError url)
  else if matches (Chr (one_of "th") · Str ".bilibili.com")%re url then
    dynamic_parser url
  else if matches (Str "live.bilibili.com") url then live_parser url
  else if matches (Str "bilibili.com/audio") url then audio_parser url
  else if matches (Str "bilibili.com/read") url then read_parser url
  else if matches (Str "bilibili.com/" · (Str "video" ||| Str "bangumi/play"))%re url
  then video_parser url
  else raise (ParserException UrlError url).

(** What the nested resolver returned is returned as it is: a feed, or
    the exception instance. *)
Definition flatten {A} (r : returned (returned A)) : returned A :=
  match r with
  | Value v => v
  | Error e => Error e
  end.

Definition feed_parser (url : pystr) : SE world (returned feed_obj) :=
  _ ← note (Invoked feed_r [VStr url]);
  r ← safe_parser (feed_body url);
  mret (flatten r).

(** *** [biliparser] *)

(** The argument: one URL, or a list or tuple of URLs. *)
Inductive urls_arg :=
| One (url : pystr)
| Many (urls : list pystr).

Definition as_list (urls : urls_arg) : list pystr :=
  match urls with
  | One url => [url]
  | Many l => l
  end.

(** [f"http://{url}" if not url.startswith(("http:", "https:")) else url]. *)
Definition with_scheme (url : pystr) : pystr :=
  if startswith (lit "http:") url || startswith (lit "https:") url then url
  else lit "http://" ++ url.

(** [asyncio.gather] returns the results in the order of the tasks; the
    tasks are run here one after the other. *)
Definition gather {A} (tasks : list (SE world A)) : SE world (list A) :=
  mapM (fun t => t) tasks.

Definition biliparser (urls : urls_arg)
    : SE world (list (returned feed_obj)) :=
  callbacks ← gather ((fun url => feed_parser (with_scheme url))
                      <$> as_list urls);
  _ ← lift (mapM (fun f => match f with
                           | Error _ => mret tt
                           | Value f => debug_line f
                           end) callbacks);
  mret callbacks.

End Resolvers.

(** ** Scripted collaborators, for evaluating the resolvers on examples *)

(** A stored key against a queried value: integers and strings, a string
    of digits standing for its number. *)
Definition scalar_eq (a b : pyval) : bool :=
  match a, b with
  | VNone, VNone => true
  | VInt x, VInt y => (x =? y)%Z
  | VStr s, VStr t => bool_decide (s = t)
  | VInt x, VStr s | VStr s, VInt x => bool_decide (str_of_Z x = s)
  | _, _ => false
  end.

(** [json.loads] on the documents listed in [docs]. *)
Definition scripted_runtime (docs : list (pystr * pyval)) : Runtime := {|
  uni_alnum := @uni_alnum basic_latin;
  uni_decimal := @uni_decimal basic_latin;
  uni_fold := @uni_fold basic_latin;
  html5 := @html5 basic_latin;
  py_repr := @py_repr basic_latin;
  json_loads s := match List.find (fun e => bool_decide (fst e = s)) docs with
                  | Some e => Ok (snd e)
                  | None => Raise ValueError
                  end;
|}.

(** The outside is a list of the pages that exist, by URL; a page has its
    response and the elements a parser finds in its text.  Nothing can be
    published, and the tables have no unique constraint. *)
Definition scripted_outside (ttl : table -> Z)
    (elements : pystr -> soup_query -> option pyval) : Outside := {|
  net := list (pystr * response);
  BILI_API := lit "https://api.bilibili.com";
  timeout := ttl;
  db_eq := scalar_eq;
  db_conflict := fun _ _ _ => false;
  client_get url params n :=
    (match List.find (fun e => bool_decide (fst e = url)) n with
     | Some e => Ok (snd e)
     | None => Raise (Upstream 404)
     end, n);
  soup_find := elements;
  publish page title user uid n := (Ok (VStr (lit "https://telegra.ph/new")), n);
|}.

Definition json_response (url : pystr) (body : pyval) : response :=
  {| r_url := url; r_json := Ok body; r_text := [] |}.

Definition page_response (url : pystr) (text : pystr) : response :=
  {| r_url := url; r_json := Raise ValueError; r_text := text |}.

Definition obj (fields : list (string * pyval)) : pyval :=
  VDict ((fun e => (lit (fst e), snd e)) <$> fields).

Definition str (s : string) : pyval := VStr (lit s).

(** ** Example worlds *)

Section Examples.
Local Open Scope string_scope.

(** The cards of three status updates, as [json.loads] reads them. *)
Definition example_docs : list (pystr * pyval) :=
  [ (lit "WORD",
     obj [("user", obj [("uname", str "bob"); ("uid", VInt 7)]);
          ("item", obj [("content", str "hello")])]);
    (lit "VIDEO", obj [("aid", VInt 170001); ("new_desc", str "")]);
    (lit "MUSIC", obj [("id", VInt 12345)]);
    (lit "PIC",
     obj [("user", obj [("name", str "bob"); ("uid", VInt 7)]);
          ("item", obj [("title", str "t"); ("description", str "d");
                        ("pictures",
                         VList [obj [("img_src", str "http://i0.hdslb.com/p.png")]])])]) ].

Definition example_runtime : Runtime := scripted_runtime example_docs.

(** The article cache keeps its rows longer than the others. *)
Definition example_ttl (t : table) : Z :=
  match t with
  | read_cache => 20%Z
  | _ => 10%Z
  end.

(** The elements of the one article page, whose text is ["PAGE"]. *)
Definition example_elements (page : pystr) (q : soup_query) : option pyval :=
  if bool_decide (page = lit "PAGE") then
    Some (match q with
          | up_name => obj [("href", str "//space.bilibili.com/42")]
          | meta_author => obj [("content", str "writer")]
          | meta_description => obj [("content", str "about")]
          | og_image => obj [("content", str "http://i0.hdslb.com/c.jpg")]
          | og_title => obj [("content", str "Title")]
          | article_holder => obj []
          end)
  else None.

Definition example_outside : Outside :=
  scripted_outside example_ttl example_elements.

(** The detail of the status update 123, with the type codes and the card
    given. *)
Definition detail (type orig_type : Z) (card : string) : pyval :=
  obj [("data",
        obj [("card",
              obj [("desc", obj [("type", VInt type); ("orig_type", VInt orig_type);
                                 ("dynamic_id", VInt 123); ("rid", VInt 456)]);
                   ("card", str card);
                   ("display", obj [])])])].

(** What is out there: the status update 123, the video av170001, the
    track au12345, the room 1, the article cv55, and the comment endpoint,
    which answers [replies] to every request. *)
Definition example_net (type orig_type : Z) (card : string) (replies : pyval)
    : list (pystr * response) :=
  [ (lit "http://t.bilibili.com/123",
     json_response (lit "https://t.bilibili.com/123") VNone);
    (lit "https://api.vc.bilibili.com/dynamic_svr/v1/dynamic_svr/get_dynamic_detail",
     json_response (lit "https://api.vc.bilibili.com/dynamic_svr/v1/dynamic_svr/get_dynamic_detail")
       (detail type orig_type card));
    (lit "http://b23.tv/av170001",
     json_response (lit "https://www.bilibili.com/video/av170001") VNone);
    (lit "https://api.bilibili.com/x/web-interface/view",
     json_response (lit "https://api.bilibili.com/x/web-interface/view")
       (obj [("code", VInt 0);
             ("data",
              obj [("bvid", str "BV17x411w7KC"); ("aid", VInt 170001);
                   ("cid", VInt 279786);
                   ("owner", obj [("name", str "up"); ("mid", VInt 1)]);
                   ("dynamic", str "about the video"); ("title", str "Title");
                   ("pic", str "http://i0.hdslb.com/a.jpg")])]));
    (lit "https://api.bilibili.com/audio/music-service-c/songs/playing",
     json_response (lit "https://api.bilibili.com/audio/music-service-c/songs/playing")
       (obj [("code", VInt 0);
             ("data",
              obj [("mid", VInt 2); ("author", str "singer");
                   ("intro", str "about the track"); ("title", str "Song");
                   ("cover_url", str "http://i0.hdslb.com/s.jpg");
                   ("duration", VInt 200)])]));
    (lit "https://api.bilibili.com/audio/music-service-c/url",
     json_response (lit "https://api.bilibili.com/audio/music-service-c/url")
       (obj [("data", obj [("cdns", VList [str "http://upos.example/a.m4a"])])]));
    (lit "http://live.bilibili.com/1",
     json_response (lit "https://live.bilibili.com/1") VNone);
    (lit "https://api.live.bilibili.com/xlive/web-room/v1/index/getInfoByRoom",
     json_response (lit "https://api.live.bilibili.com/xlive/web-room/v1/index/getInfoByRoom")
       (obj [("data",
              obj [("anchor_info", obj [("base_info", obj [("uname", str "host")])]);
                   ("room_info",
                    obj [("uid", VInt 3); ("title", str "room");
                         ("area_name", str "area"); ("parent_area_name", str "parent");
                         ("keyframe", str "http://i0.hdslb.com/k.jpg")])])]));
    (lit "https://www.bilibili.com/read/cv55",
     page_response (lit "https://www.bilibili.com/read/cv55") (lit "PAGE"));
    (lit "https://api.bilibili.com/x/v2/reply/main",
     json_response (lit "https://api.bilibili.com/x/v2/reply/main") replies) ].

(** The comment endpoint with a comment section, and with none. *)
Definition with_comments : pyval :=
  obj [("code", VInt 0); ("data", obj [("top", VNone)])].
Definition comments_closed : pyval :=
  obj [("code", VInt 12002); ("data", VNone)].

Definition example_world (rows : table -> list row)
    (pages : list (pystr * response)) : @world example_outside :=
  @Build_world example_outside rows 100%Z pages [].

Definition no_rows (t : table) : list row := [].

(** The article cv55 was mirrored 15 units ago. *)
Definition mirrored_rows (t : table) : list row :=
  match t with
  | read_cache =>
      [ {| cols := [("read_id", VInt 55);
                    ("graphurl", str "https://telegra.ph/old")];
           created := 85%Z |} ]
  | _ => []
  end.

End Examples.

(** ** Cache maintenance

    [db_status] and [db_clear]; the [db_init] wrapper, which opens the
    store before the call and closes it after, is left out, as it is for
    [biliparser]. *)

Section Maintenance.
Context {OUT : Outside}.

(** [CACHES], in the order of the dictionary. *)
Definition CACHES : list (string * table) :=
  [ ("audio", audio_cache); ("bangumi", bangumi_cache);
    ("dynamic", dynamic_cache); ("live", live_cache); ("read", read_cache);
    ("reply", reply_cache); ("video", video_cache) ]%string.

(** [CACHES.get(target)]: a key that cannot be hashed is refused. *)
Definition caches_get (target : pyval) : result (option table) :=
  match target with
  | VStr s => Ok (snd <$> List.find (fun e => bool_decide (lit (fst e) = s)) CACHES)
  | VList _ | VDict _ => Raise TypeError
  | _ => Ok None
  end.

(** [await item.all().count()]. *)
Definition count (t : table) : SE world Z :=
  w ← state; mret (Z.of_nat (length (db w t))).

(** "总计" *)
Definition total_label : pystr := [24635; 35745].

(** The counts are taken twice, once for the total and once for the
    lines. *)
Definition __db_status : SE world pystr :=
  let tasks := (fun e : string * table => count (snd e)) <$> CACHES in
  result ← gather tasks;
  items ← gather tasks;
  let ans := foldl (fun ans ki => ans ++ lit (fst ki) ++ lit ": "
                                  ++ str_of_Z (snd ki) ++ [LF])
                   [] (zip (fst <$> CACHES) items) in
  mret (ans ++ total_label ++ lit ": " ++ str_of_Z (foldl Z.add 0%Z result)).

Definition db_status : SE world pystr := __db_status.

(** [await CACHES[target].filter(created__lt=datetime.today()).delete()];
    [today] is what [datetime.today()] reads, on the scale of [created]. *)
Definition delete_older (t : table) (today : Z) : SE world unit :=
  update (fun w =>
    set_db t (List.filter (fun r => negb (created r <? today)%Z) (db w t)) w).

Definition db_clear (today : Z) (target : pyval) : SE world pystr :=
  found ← lift (caches_get target);
  _ ← match found with
      | Some t => delete_older t today
      | None => mret tt
      end;
  __db_status.

End Maintenance.

(** ** Further example worlds *)

(** The comments of the video 170001, fetched 5 units ago. *)
Definition cached_replies (t : table) : list row :=
  match t with
  | reply_cache =>
      [ {| cols := [("oid", VInt 170001); ("reply_type", VInt 1);
                    ("content", with_comments)]%string;
           created := 95%Z |} ]
  | _ => []
  end.

(** Nothing but the detail of the status update 123 can be fetched. *)
Definition detail_only (type : Z) (card : string) : list (pystr * response) :=
  [ (lit "https://api.vc.bilibili.com/dynamic_svr/v1/dynamic_svr/get_dynamic_detail",
     json_response (lit "https://api.vc.bilibili.com/dynamic_svr/v1/dynamic_svr/get_dynamic_detail")
       (detail type 0 card)) ].

(** The cards of two more status updates: a repost of the video update,
    and a video update with a description of its own. *)
Definition update_docs : list (pystr * pyval) :=
  example_docs ++
  ([ (lit "REPOST",
      obj [("user", obj [("uname", str "carol"); ("uid", VInt 9)]);
           ("item", obj [("content", str "look")]);
           ("origin", str "VIDEO")]);
     (lit "DESCRIBED",
      obj [("aid", VInt 170001); ("new_desc", str " my video ")]) ])%string.

Definition update_runtime : Runtime := scripted_runtime update_docs.

(** * Vocabulary of the properties *)

(** ** The matcher against a declarative reading of the patterns *)

(** [Matches r w rest cs cs']: [r] matches exactly [w] when [rest]
    follows, turning the groups [cs] into [cs']. *)
Inductive Matches : regex -> pystr -> pystr -> caps -> caps -> Prop :=
| M_Eps rest cs : Matches Eps [] rest cs cs
| M_Chr p c rest cs : p c = true -> Matches (Chr p) [c] rest cs cs
| M_Rep p lo hi w rest cs :
    Forall (fun c => p c = true) w -> (lo <= length w)%nat ->
    (forall h, hi = Some h -> (length w <= h)%nat) ->
    Matches (Rep p lo hi) w rest cs cs
| M_Cat r1 r2 w1 w2 rest cs cs1 cs2 :
    Matches r1 w1 (w2 ++ rest) cs cs1 -> Matches r2 w2 rest cs1 cs2 ->
    Matches (Cat r1 r2) (w1 ++ w2) rest cs cs2
| M_AltL r1 r2 w rest cs cs1 :
    Matches r1 w rest cs cs1 -> Matches (Alt r1 r2) w rest cs cs1
| M_AltR r1 r2 w rest cs cs1 :
    Matches r2 w rest cs cs1 -> Matches (Alt r1 r2) w rest cs cs1
| M_Grp n r w rest cs cs1 :
    Matches r w rest cs cs1 -> Matches (Grp n r) w rest cs ((n, w) :: cs1)
| M_Eos rest cs : rest = [] \/ rest = [LF] -> Matches Eos [] rest cs cs.


(** Every reserved character is prefixed with one backslash. *)
Definition backslashed (s : pystr) : pystr :=
  flat_map (fun c => if reserved c then [ch "\"; c] else [c]) s.

(** [re.sub(r"\r\n", r"\n", s)] and [re.sub(r"\n*\n", r"\n", s)] as plain
    recursions on the text. *)
Fixpoint crlf_to_lf (s : pystr) : pystr :=
  match s with
  | [] => []
  | c :: s' => match s' with
               | c' :: s'' => if (c =? CR) && (c' =? LF) then LF :: crlf_to_lf s''
                              else c :: crlf_to_lf s'
               | [] => [c]
               end
  end.

Fixpoint squeeze (s : pystr) : pystr :=
  match s with
  | [] => []
  | c :: s' => match s' with
               | c' :: _ => if (c =? LF) && (c' =? LF) then squeeze s'
                            else c :: squeeze s'
               | [] => [c]
               end
  end.

(** A run of two or more consecutive newline characters. *)
Definition newline_run (s : pystr) : bool := contains [LF; LF] s.

(** [name] is a file name of [url]: it follows a slash, consists of a
    slash-free stem, a dot and an extension of 3 or 4 word characters, and
    ends the URL (or its last line) or is followed by a question mark. *)
Definition filename_of `{Runtime} (url name : pystr) : Prop :=
  exists pre stem ext rest,
    url = pre ++ ch "/" :: name ++ rest /\
    name = stem ++ ch "." :: ext /\
    Forall (fun c => c <> ch "/") stem /\
    Forall (fun c => word c = true) ext /\
    (3 <= length ext <= 4)%nat /\
    (rest = [] \/ rest = [LF] \/ exists t, rest = ch "?" :: t).

(** What [get_filename] returns on a string. *)
Definition filename_text `{Runtime} (url : pystr) : pystr :=
  match search filename_re url with
  | Some m => group_or_empty 1 m
  | None => []
  end.

Definition no_leading_newline (t : pystr) : Prop :=
  match t with c :: _ => c <> LF | [] => True end.

(** The instance [self] holds the value [v] of the cached property
    [name]. *)
Definition holds (self : nat) (name : cached) (v : pyval) (σ : store) : Prop :=
  exists i, heap σ !! self = Some i /\ cache i name = Some v.

(** A computation keeps a property of the store, however it ends. *)
Definition keeps {A} (P : store -> Prop) (m : SE store A) : Prop :=
  forall σ r σ', m σ = (r, σ') -> P σ -> P σ'.

(** [func] with a counter of the times it is run. *)
Definition counted {St A} (func : SE St A) : SE (nat * St) A := fun ns =>
  let (r, s') := func (snd ns) in (r, (S (fst ns), s')).

Definition raises_IntegrityError {A St} (x : result A * St) : bool :=
  match x with
  | (Raise IntegrityError, _) => true
  | _ => false
  end.

(** The calls recorded in [w'] are those of [w] and later ones. *)
Definition extends `{Outside} (w w' : world) : Prop :=
  exists l, calls w' = l ++ calls w.

(** A computation only adds to the recorded calls, or leaves them as
    they are. *)
Definition grows `{Outside} {A} (m : SE world A) : Prop :=
  forall w r w', m w = (r, w') -> extends w w'.

Definition silent `{Outside} {A} (m : SE world A) : Prop :=
  forall w r w', m w = (r, w') -> calls w' = calls w.

(** Every value that the computation returns satisfies [Q]. *)
Definition returns {S A} (m : SE S A) (Q : A -> Prop) : Prop :=
  forall s a s', m s = (Ok a, s') -> Q a.

(** The reply-type table as the specification words it: the code follows
    from [origin_type], video-like types map to 1, audio-like to 11,
    article-like to 12, live-like to 14 and text/share-like to 17. *)
Definition claimed_reply_type (origin_type : pyval) : pyval :=
  if py_in origin_type VIDEO then VInt 1
  else if py_in origin_type MUSIC then VInt 11
  else if py_in origin_type ARTICLE then VInt 12
  else if py_in origin_type LIVE then VInt 14
  else if py_in origin_type (WORD ++ SHARE) then VInt 17
  else VNone.

(** ** Vocabulary of the further properties *)

(** The shape of a text that [shrink_line] returns: no whitespace at
    either end, no run of newlines. *)
Definition shrunk (t : pystr) : Prop :=
  (forall c, head t = Some c -> is_space c = false) /\
  (forall c, last t = Some c -> is_space c = false) /\
  newline_run t = false.

(** The one slot of the getter [g] holds the value [v] of the instance
    [self]. *)
Definition slot (g : lru_getter) (self : nat) (v : pyval) (σ : store) : Prop :=
  lru σ g = Some (self, v).

(** An operation that makes the getter [g] run for an instance other than
    [self]: a read of [g], or of [content_markdown], which reads
    [content]. *)
Definition displaces (g : lru_getter) (self : nat) (o : op) : bool :=
  match o with
  | Read (Lru g') i => bool_decide (g' = g) && negb (Nat.eqb i self)
  | Read (Cached c_content_markdown) i =>
      bool_decide (g = lru_content) && negb (Nat.eqb i self)
  | _ => false
  end.

(** The world after a call has been recorded. *)
Definition noted `{Outside} (c : call) (w : world) : world :=
  {| db := db w; clock := clock w; outside := outside w;
     calls := c :: calls w |}.

(** The rows of [t] that satisfy [q] and were created inside the window
    of [ttl]. *)
Definition fresh_rows `{Outside} (t : table) (q : Q) (ttl : table)
    (w : world) : list row :=
  List.filter (fun r => q r && (clock w - timeout ttl <=? created r)%Z)
              (db w t).

(** The patterns of [feed_parser], in the order in which it tries them. *)
Definition api_link : regex :=
  (Str "api." · Rep any_char 0 None · Str ".bilibili")%re.

Definition known_links : list regex :=
  [ (Chr (one_of "th") · Str ".bilibili.com")%re;
    Str "live.bilibili.com";
    Str "bilibili.com/audio";
    Str "bilibili.com/read";
    (Str "bilibili.com/" · (Str "video" ||| Str "bangumi/play"))%re ].

(** What every feed that a resolver returns has, by its class. *)
Definition resolved_shape (name : resolver) (fo : feed_obj) : Prop :=
  match name, fo with
  | audio_r, Audio a =>
      mediatype (a_feed a) = lit "audio" /\ mediaraws (a_feed a) = true /\
      is_Some (replycontent (a_feed a))
  | video_r, Video v =>
      mediatype (v_feed v) = lit "image" /\ is_Some (replycontent (v_feed v))
  | live_r, Live l =>
      mediatype (l_feed l) = lit "image" /\ mediaraws (l_feed l) = false /\
      replycontent (l_feed l) = None
  | read_r, Read_ r =>
      mediaraws (r_feed r) = false /\ is_Some (replycontent (r_feed r)) /\
      ((mediatype (r_feed r) = lit "image" /\ _mediaurls (r_feed r) <> []) \/
       (mediatype (r_feed r) = [] /\ _mediaurls (r_feed r) = []))
  | dynamic_r, Dynamic d => is_Some (replycontent (d_feed d))
  | _, _ => False
  end.

(** The kinds of status update that are resolved through another
    resolver, by [origin_type]. *)
Inductive nested_kind := is_music | is_live | is_video | is_article.

(** The lists [MUSIC], [LIVE], [VIDEO] and [ARTICLE], in the order in which
    [dynamic_parser] tests them. *)
Definition kind_of (z : Z) : option nested_kind :=
  if (z =? 256)%Z then Some is_music
  else if ((4200 <=? z) && (z <? 4300))%Z then Some is_live
  else if ((z =? 8) || (z =? 512) || ((4000 <=? z) && (z <? 4200)))%Z
       then Some is_video
  else if (z =? 64)%Z then Some is_article
  else None.

(** The key of the card that identifies the nested content, and the
    nested resolver with the URL made from it. *)
Definition nested_key (k : nested_kind) : string :=
  match k with
  | is_music => "id" | is_live => "roomid" | is_video => "aid"
  | is_article => "id"
  end.

(** Lines 448, 452, 456 and 460 of [dynamic_parser]. *)
Definition nested_parser `{Runtime} `{Outside} (k : nested_kind) (id : pyval)
    : SE world (returned feed_obj) :=
  match k with
  | is_music => audio_parser (lit "bilibili.com/audio/au" ++ py_str id)
  | is_live => live_parser (lit "live.bilibili.com/" ++ py_str id)
  | is_video => video_parser (lit "b23.tv/av" ++ py_str id)
  | is_article => read_parser (lit "bilibili.com/read/cv" ++ py_str id)
  end.

(** The debug line of a result can be formatted: always for an error,
    and for a feed when its derived fields can be computed. *)
Definition loggable `{Runtime} (r : returned feed_obj) : Prop :=
  match r with
  | Value f => debug_line f = Ok tt
  | Error _ => True
  end.

(** What [db_status] reports of a world: a line for each cache, and the
    number of rows in all of them. *)
Definition status_lines `{Outside} (w : world) : pystr :=
  concat ((fun e : string * table =>
             lit (fst e) ++ lit ": "
             ++ str_of_Z (Z.of_nat (length (db w (snd e)))) ++ [LF])
          <$> CACHES).

(** The number of rows in all the caches. *)
Definition rows_in_all `{Outside} (w : world) : nat :=
  length (concat ((fun e : string * table => db w (snd e)) <$> CACHES)).

(** The text that [__db_status] makes of them. *)
Definition status_text `{Outside} (w : world) : pystr :=
  status_lines w ++ total_label ++ lit ": "
  ++ str_of_Z (Z.of_nat (rows_in_all w)).

(** The kinds of status update that are resolved from the card alone. *)
Inductive plain_kind := is_word | is_pic | is_clip | is_share | is_unknown.

(** The lists [PIC], [CLIP], [WORD] and [SHARE], in the order in which
    [dynamic_parser] tests them; a type in none of its lists is unknown. *)
Definition plain_kind_of (z : Z) : option plain_kind :=
  match kind_of z with
  | Some _ => None
  | None =>
      if (z =? 2)%Z then Some is_pic
      else if (z =? 16)%Z then Some is_clip
      else if ((z =? 1) || (z =? 4))%Z then Some is_word
      else if ((2048 <=? z) && (z <? 2100))%Z then Some is_share
      else Some is_unknown
  end.

(** What the dispatch on [origin_type] makes of the feed [f] of a status
    update of a plain kind. *)
Definition plain_shape `{Runtime} (k : plain_kind) (f f' : dynamic) : Prop :=
  match k with
  | is_word =>
      mediatype (d_feed f') = mediatype (d_feed f) /\
      _mediaurls (d_feed f') = _mediaurls (d_feed f) /\
      extra_markdown (d_feed f') = extra_markdown (d_feed f)
  | is_pic =>
      mediatype (d_feed f') = lit "image" /\
      exists c pictures l,
        card f = Ok c /\ get2 c "item" "pictures" = Ok pictures /\
        py_iter pictures = Ok l /\
        mapM (fun t => py_get t "img_src") l = Ok (_mediaurls (d_feed f'))
  | is_clip => mediatype (d_feed f') = lit "video"
  | is_share => mediatype (d_feed f') = lit "image"
  | is_unknown => f' = f
  end.

(** The world in which the run of the body that gave the result of a
    wrapped resolver started: the world in which the call [c] has just been
    recorded, or the world that a first run left when it raised
    [IntegrityError]. *)
Definition attempt `{Outside} {A} (body : SE world A) (c : call)
    (w w0 : world) : Prop :=
  w0 = noted c w \/ body (noted c w) = (Raise IntegrityError, w0).

(** The resolver of a nested kind, and the URL that [dynamic_parser] makes
    for it from the identifier of the card. *)
Definition nested_resolver (k : nested_kind) : resolver :=
  match k with
  | is_music => audio_r | is_live => live_r | is_video => video_r
  | is_article => read_r
  end.

Definition nested_url `{Runtime} (k : nested_kind) (id : pyval) : pystr :=
  match k with
  | is_music => lit "bilibili.com/audio/au" ++ py_str id
  | is_live => lit "live.bilibili.com/" ++ py_str id
  | is_video => lit "b23.tv/av" ++ py_str id
  | is_article => lit "bilibili.com/read/cv" ++ py_str id
  end.

(** What the [content] getter of a repost puts before the assigned
    content: the text of the repost, and the name of the original author
    when one is assigned. *)
Definition repost_prefix `{Runtime} (d : dynamic) : result pyval :=
  if truthy (_user d)
  then py_add (forward_content d)
              (VStr (lit "//@" ++ py_str (_user d) ++ lit ":" ++ [LF]))
  else Ok (forward_content d).

(** * Properties *)

(** ** The matcher is sound and complete *)

Create HintDb re.
#[local] Hint Constructors Matches : re.

Lemma take_consumed (w rest : pystr) :
  take (length (w ++ rest) - length rest) (w ++ rest) = w.
Proof.
  rewrite length_app, Nat.add_sub. apply take_app_length.
Qed.

Lemma rep_greedy_sound {A} p (k : pystr -> option A) s :
  forall lo hi a, rep_greedy p lo hi s k = Some a ->
  exists w rest, s = w ++ rest /\ Forall (fun c => p c = true) w /\
    (lo <= length w)%nat /\ (forall h, hi = Some h -> (length w <= h)%nat) /\
    k rest = Some a.
Proof.
  induction s as [|c s IH]; intros lo hi a H; simpl in H.
  - destruct lo; [|discriminate]. exists [], []. simpl.
    repeat split; auto; intros; lia.
  - assert (Hstop : match lo with O => k (c :: s) | S _ => None end = Some a ->
      exists w rest, c :: s = w ++ rest /\ Forall (fun c => p c = true) w /\
        (lo <= length w)%nat /\
        (forall h, hi = Some h -> (length w <= h)%nat) /\ k rest = Some a).
    { destruct lo; [|discriminate]. intros Hk. exists [], (c :: s). simpl.
      repeat split; auto; intros; lia. }
    destruct (p c) eqn:Hp; simpl in H; [|auto].
    destruct (bool_decide (hi = Some O)) eqn:Hhi; simpl in H; [auto|].
    apply bool_decide_eq_false in Hhi.
    destruct (rep_greedy p (pred lo) (pred <$> hi) s k) eqn:Hrec; [|auto].
    injection H as ->. apply IH in Hrec as (w & rest & -> & Hw & Hlo & Hh & Hk).
    exists (c :: w), rest. simpl. repeat split; auto; [lia|].
    intros h ->. destruct h as [|h]; [congruence|].
    specialize (Hh h eq_refl). lia.
Qed.

Lemma rep_greedy_complete {A} p (k : pystr -> option A) w :
  forall lo hi rest, Forall (fun c => p c = true) w -> (lo <= length w)%nat ->
  (forall h, hi = Some h -> (length w <= h)%nat) ->
  is_Some (k rest) -> is_Some (rep_greedy p lo hi (w ++ rest) k).
Proof.
  induction w as [|c w IH]; intros lo hi rest Hw Hlo Hhi Hk; simpl in *.
  - assert (lo = O) as -> by lia.
    destruct rest as [|c rest]; simpl; [done|].
    destruct (p c && negb (bool_decide (hi = Some O))); [|done].
    destruct (rep_greedy p _ _ rest k); done.
  - inversion Hw as [|? ? Hc Hw']; subst. rewrite Hc. simpl.
    rewrite bool_decide_eq_false_2.
    2:{ intros ->. specialize (Hhi O eq_refl). lia. }
    simpl. destruct (IH (pred lo) (pred <$> hi) rest) as [a Ha]; auto; [lia| |].
    + intros h Hh. destruct hi as [h'|]; [|discriminate]. injection Hh as <-.
      specialize (Hhi h' eq_refl). lia.
    + rewrite Ha. done.
Qed.

Lemma rmatch_sound {A} r :
  forall s cs (k : pystr -> caps -> option A) a,
  rmatch r s cs k = Some a ->
  exists w rest cs', s = w ++ rest /\ Matches r w rest cs cs' /\
    k rest cs' = Some a.
Proof.
  induction r as [|p|p lo hi|r1 IH1 r2 IH2|r1 IH1 r2 IH2|n r IH|];
    intros s cs k a H; simpl in H.
  - exists [], s, cs. repeat split; auto with re.
  - destruct s as [|c s]; [discriminate|]. destruct (p c) eqn:Hp; [|discriminate].
    exists [c], s, cs. repeat split; auto with re.
  - apply rep_greedy_sound in H as (w & rest & -> & Hw & Hlo & Hhi & Hk).
    exists w, rest, cs. repeat split; auto with re.
  - apply IH1 in H as (w1 & rest1 & cs1 & -> & H1 & H).
    apply IH2 in H as (w2 & rest & cs2 & -> & H2 & H).
    exists (w1 ++ w2), rest, cs2. rewrite <- app_assoc.
    repeat split; eauto with re.
  - destruct (rmatch r1 s cs k) eqn:H1.
    + injection H as ->. apply IH1 in H1 as (w & rest & cs' & -> & H1 & H).
      exists w, rest, cs'. repeat split; auto with re.
    + apply IH2 in H as (w & rest & cs' & -> & H2 & H).
      exists w, rest, cs'. repeat split; auto with re.
  - apply IH in H as (w & rest & cs' & -> & H1 & H).
    rewrite take_consumed in H.
    exists w, rest, ((n, w) :: cs'). repeat split; auto with re.
  - destruct s as [|c [|c' s]]; try discriminate.
    + exists [], [], cs. repeat split; auto with re.
    + destruct (c =? LF) eqn:Hc; [|discriminate]. apply N.eqb_eq in Hc as ->.
      exists [], [LF], cs. repeat split; auto with re.
Qed.

Lemma rmatch_complete {A} r w rest cs cs' :
  Matches r w rest cs cs' ->
  forall (k : pystr -> caps -> option A),
  is_Some (k rest cs') -> is_Some (rmatch r (w ++ rest) cs k).
Proof.
  induction 1 as [rest cs|p c rest cs Hp|p lo hi w rest cs Hw Hlo Hhi
                  |r1 r2 w1 w2 rest cs cs1 cs2 _ IH1 _ IH2
                  |r1 r2 w rest cs cs1 _ IH|r1 r2 w rest cs cs1 _ IH
                  |n r w rest cs cs1 _ IH|rest cs Hrest]; intros k Hk; simpl.
  - done.
  - rewrite Hp. done.
  - apply rep_greedy_complete; auto.
  - rewrite <- app_assoc. apply IH1, IH2, Hk.
  - destruct (IH k Hk) as [a ->]. done.
  - destruct (rmatch r1 (w ++ rest) cs k); [done|]. apply IH, Hk.
  - apply IH. rewrite take_consumed. done.
  - destruct Hrest as [-> | ->]; simpl; done.
Qed.

Lemma match_at_sound r s m :
  match_at r s = Some m ->
  s = m_text m ++ m_rest m /\ Matches r (m_text m) (m_rest m) [] (m_groups m).
Proof.
  unfold match_at. intros H.
  apply rmatch_sound in H as (w & rest & cs' & -> & HM & H).
  rewrite take_consumed in H. injection H as <-. simpl. auto.
Qed.

Lemma match_at_complete r w rest cs :
  Matches r w rest [] cs -> is_Some (match_at r (w ++ rest)).
Proof.
  intros H. unfold match_at. eapply rmatch_complete; eauto.
Qed.

Lemma search_sound r s m :
  search r s = Some m ->
  exists pre, s = pre ++ m_text m ++ m_rest m /\
    Matches r (m_text m) (m_rest m) [] (m_groups m).
Proof.
  induction s as [|c s IH]; simpl.
  - destruct (match_at r []) eqn:H; [|discriminate]. intros [= ->].
    apply match_at_sound in H as [H1 H2]. exists []. auto.
  - destruct (match_at r (c :: s)) eqn:H.
    + intros [= ->]. apply match_at_sound in H as [H1 H2]. exists []. auto.
    + intros Hs. apply IH in Hs as (pre & -> & HM). exists (c :: pre). auto.
Qed.

Lemma search_complete r pre w rest cs :
  Matches r w rest [] cs -> is_Some (search r (pre ++ w ++ rest)).
Proof.
  intros HM. induction pre as [|c pre IH]; simpl.
  - destruct (match_at_complete _ _ _ _ HM) as [m Hm].
    destruct (w ++ rest); simpl; rewrite Hm; done.
  - destruct (match_at r (c :: pre ++ w ++ rest)); [done|]. apply IH.
Qed.

(** ** [escape_markdown] *)

Lemma succ_sub_self n : (S n - n = 1)%nat.
Proof. lia. Qed.

Lemma escape_text_backslashed (s : pystr) : escape_text s = backslashed s.
Proof.
  unfold escape_text, re_sub.
  induction s as [|c s IH]; [reflexivity|].
  cbn [sub_from backslashed flat_map]. unfold match_at. cbn [rmatch].
  destruct (reserved c); [|simpl; f_equal; apply IH].
  cbn [length]. rewrite succ_sub_self. cbn. f_equal. f_equal. apply IH.
Qed.

Lemma backslashed_plain (s : pystr) :
  Forall (fun c => reserved c = false) s -> backslashed s = s.
Proof.
  induction 1 as [|c s Hc _ IH]; [reflexivity|].
  change (backslashed (c :: s))
    with ((if reserved c then [ch "\"; c] else [c]) ++ backslashed s).
  rewrite Hc, IH. reflexivity.
Qed.

Lemma existsb_not_elem (c : char) (s : pystr) :
  c ∉ s -> existsb (N.eqb c) s = false.
Proof.
  induction s as [|x s IH]; [reflexivity|]. intros Hc. simpl.
  rewrite not_elem_of_cons in Hc. destruct Hc as [Hx Hs].
  rewrite IH by assumption. apply N.eqb_neq in Hx. rewrite Hx. reflexivity.
Qed.

Lemma unescape_plain `{Runtime} (s : pystr) : ch "&" ∉ s -> unescape s = Ok s.
Proof. intros Hs. unfold unescape. rewrite existsb_not_elem; auto. Qed.

Lemma escape_markdown_unescape `{Runtime} (s : pystr) :
  escape_markdown (VStr s) = backslashed <$> unescape s.
Proof.
  unfold escape_markdown. destruct s as [|c s]; [reflexivity|].
  cbn [truthy]. rewrite bool_decide_eq_false_2 by discriminate. cbn [negb].
  destruct (unescape (c :: s)) as [t|e]; [|reflexivity].
  cbn [mbind result_bind mret result_ret fmap result_fmap].
  rewrite escape_text_backslashed. reflexivity.
Qed.

Lemma backslashed_length (s : pystr) :
  length (backslashed s) = (length s + length (List.filter reserved s))%nat.
Proof.
  induction s as [|c s IH]; [reflexivity|].
  change (backslashed (c :: s))
    with ((if reserved c then [ch "\"; c] else [c]) ++ backslashed s).
  rewrite length_app, IH. cbn [List.filter].
  destruct (reserved c); simpl; lia.
Qed.

(** ** [shrink_line] *)

Lemma match_at_crlf (s : pystr) :
  match_at crlf s =
  match s with
  | c :: c' :: s'' =>
      if (c =? CR) && (c' =? LF)
      then Some {| m_text := [c; c']; m_groups := []; m_rest := s'' |}
      else None
  | _ => None
  end.
Proof.
  unfold match_at, crlf. destruct s as [|c [|c' s'']]; cbn [rmatch].
  - reflexivity.
  - destruct (CR =? c); reflexivity.
  - rewrite (N.eqb_sym CR c), (N.eqb_sym LF c').
    destruct (c =? CR); [|reflexivity]. destruct (c' =? LF); [|reflexivity].
    cbn [andb length]. replace (S (S (length s'')) - length s'')%nat with 2%nat by lia.
    reflexivity.
Qed.

Lemma sub_from_cons r f (c : char) (s : pystr) :
  sub_from r f O (c :: s) =
  match match_at r (c :: s) with
  | Some m => match m_text m with
              | [] => f m ++ c :: sub_from r f O s
              | _ :: t => f m ++ sub_from r f (length t) s
              end
  | None => c :: sub_from r f O s
  end.
Proof. reflexivity. Qed.

Lemma crlf_to_lf_cons (c c' : char) (s : pystr) :
  crlf_to_lf (c :: c' :: s) =
  if (c =? CR) && (c' =? LF) then LF :: crlf_to_lf s
  else c :: crlf_to_lf (c' :: s).
Proof. reflexivity. Qed.

Lemma sub_crlf (s : pystr) : re_sub crlf (fun _ => [LF]) s = crlf_to_lf s.
Proof.
  unfold re_sub. remember (length s) as n eqn:Hn.
  assert (Hle : (length s <= n)%nat) by lia. clear Hn. revert s Hle.
  induction n as [|n IH]; intros s Hle.
  - destruct s; [reflexivity|simpl in Hle; lia].
  - destruct s as [|c [|c' s'']]; [reflexivity| |].
    { rewrite sub_from_cons, match_at_crlf. reflexivity. }
    simpl in Hle. rewrite sub_from_cons, match_at_crlf, crlf_to_lf_cons.
    destruct ((c =? CR) && (c' =? LF)).
    + cbn [m_text length app]. f_equal.
      change (sub_from crlf (fun _ => [LF]) 1 (c' :: s''))
        with (sub_from crlf (fun _ => [LF]) 0 s'').
      apply IH. lia.
    + f_equal. apply IH. simpl. lia.
Qed.

Lemma sub_from_skip r f (w t : pystr) :
  sub_from r f (length w) (w ++ t) = sub_from r f O t.
Proof. induction w as [|c w IH]; [reflexivity|apply IH]. Qed.

Lemma rep_newlines_none {A} (K : pystr -> option A) (t : pystr) :
  no_leading_newline t ->
  rep_greedy (N.eqb LF) 0 None t
    (fun s1 => match s1 with
               | c :: s2 => if LF =? c then K s2 else None
               | [] => None
               end) = None.
Proof.
  intros Ht. destruct t as [|c t]; [reflexivity|]. simpl in Ht.
  apply N.eqb_neq in Ht. rewrite N.eqb_sym in Ht. cbn [rep_greedy].
  rewrite Ht. reflexivity.
Qed.

Lemma rep_newlines_run {A} (K : pystr -> option A) (t : pystr) (n : nat) :
  no_leading_newline t -> is_Some (K t) ->
  rep_greedy (N.eqb LF) 0 None (repeat LF (S n) ++ t)
    (fun s1 => match s1 with
               | c :: s2 => if LF =? c then K s2 else None
               | [] => None
               end) = K t.
Proof.
  intros Ht [a HK]. induction n as [|n IH].
  - cbn [repeat app rep_greedy]. rewrite N.eqb_refl.
    rewrite bool_decide_eq_false_2 by discriminate. cbn [andb negb].
    change (pred <$> None) with (@None nat). cbn [pred].
    rewrite rep_newlines_none by assumption. reflexivity.
  - change (repeat LF (S (S n)) ++ t) with (LF :: (repeat LF (S n) ++ t)).
    cbn [rep_greedy]. rewrite N.eqb_refl.
    rewrite bool_decide_eq_false_2 by discriminate. cbn [andb negb].
    change (pred <$> None) with (@None nat). cbn [pred].
    rewrite IH, HK. reflexivity.
Qed.

Lemma match_at_newlines_run (n : nat) (t : pystr) :
  no_leading_newline t ->
  match_at newlines (repeat LF (S n) ++ t)
  = Some {| m_text := repeat LF (S n); m_groups := []; m_rest := t |}.
Proof.
  intros Ht. unfold match_at, newlines. cbn [rmatch].
  rewrite (rep_newlines_run _ t n Ht) by done.
  rewrite take_consumed. reflexivity.
Qed.

Lemma match_at_newlines_none (s : pystr) :
  no_leading_newline s -> match_at newlines s = None.
Proof.
  intros Hs. unfold match_at, newlines. cbn [rmatch].
  apply rep_newlines_none, Hs.
Qed.

(** Every text is a run of newlines followed by a text that does not
    start with one. *)
Lemma newline_run_split (s : pystr) :
  exists n t, s = repeat LF n ++ t /\ no_leading_newline t.
Proof.
  induction s as [|c s (n & t & -> & Ht)].
  - exists O, []. done.
  - destruct (N.eq_dec c LF) as [->|Hc].
    + exists (S n), t. done.
    + exists O, (c :: repeat LF n ++ t). done.
Qed.

Lemma squeeze_run (n : nat) (t : pystr) :
  no_leading_newline t -> squeeze (repeat LF (S n) ++ t) = LF :: squeeze t.
Proof.
  intros Ht. induction n as [|n IH].
  - destruct t as [|c t]; [reflexivity|]. simpl in Ht.
    apply N.eqb_neq in Ht. cbn [repeat app squeeze].
    rewrite N.eqb_refl, Ht. reflexivity.
  - change (repeat LF (S (S n)) ++ t) with (LF :: LF :: (repeat LF n ++ t)).
    cbn [squeeze]. rewrite N.eqb_refl. cbn [andb]. apply IH.
Qed.

Lemma squeeze_other (c : char) (s : pystr) :
  c <> LF -> squeeze (c :: s) = c :: squeeze s.
Proof.
  intros Hc. apply N.eqb_neq in Hc. destruct s as [|c' s]; [reflexivity|].
  cbn [squeeze]. rewrite Hc. reflexivity.
Qed.

Lemma sub_newlines (s : pystr) : re_sub newlines (fun _ => [LF]) s = squeeze s.
Proof.
  unfold re_sub. remember (length s) as n eqn:Hn.
  assert (Hle : (length s <= n)%nat) by lia. clear Hn. revert s Hle.
  induction n as [|n IH]; intros s Hle.
  - destruct s; [reflexivity|simpl in Hle; lia].
  - destruct (newline_run_split s) as (k & t & -> & Ht).
    destruct k as [|k].
    + destruct t as [|c t]; [reflexivity|]. cbn [repeat app] in *.
      rewrite sub_from_cons, match_at_newlines_none by assumption.
      rewrite squeeze_other by assumption. f_equal. apply IH. simpl in Hle. lia.
    + rewrite squeeze_run by assumption.
      change (repeat LF (S k) ++ t) with (LF :: (repeat LF k ++ t)) at 1.
      rewrite sub_from_cons.
      change (LF :: (repeat LF k ++ t)) with (repeat LF (S k) ++ t).
      rewrite match_at_newlines_run by assumption.
      cbn [m_text repeat app]. f_equal.
      rewrite repeat_length.
      rewrite <- (repeat_length LF k) at 1. rewrite sub_from_skip.
      apply IH. rewrite length_app in Hle. simpl in Hle. lia.
Qed.

Lemma crlf_to_lf_last (s : pystr) : last (crlf_to_lf s) = last s.
Proof.
  remember (length s) as n eqn:Hn.
  assert (Hle : (length s <= n)%nat) by lia. clear Hn. revert s Hle.
  induction n as [|n IH]; intros s Hle.
  - destruct s; [reflexivity|simpl in Hle; lia].
  - destruct s as [|c [|c' s'']]; [reflexivity|reflexivity|].
    simpl in Hle. rewrite crlf_to_lf_cons.
    destruct (c =? CR); cbn [andb].
    + destruct (c' =? LF) eqn:Hc'.
      * apply N.eqb_eq in Hc' as ->. rewrite !last_cons, IH by lia.
        destruct (last s''); reflexivity.
      * rewrite (last_cons c), (last_cons c (c' :: s'')), IH by (simpl; lia).
        reflexivity.
    + rewrite (last_cons c), (last_cons c (c' :: s'')), IH by (simpl; lia).
      reflexivity.
Qed.

Lemma squeeze_cons (c c' : char) (s : pystr) :
  squeeze (c :: c' :: s) =
  if (c =? LF) && (c' =? LF) then squeeze (c' :: s) else c :: squeeze (c' :: s).
Proof. reflexivity. Qed.

Lemma squeeze_last (s : pystr) : last (squeeze s) = last s.
Proof.
  induction s as [|c [|c' s] IH]; [reflexivity|reflexivity|].
  rewrite squeeze_cons. destruct ((c =? LF) && (c' =? LF)).
  - rewrite IH. reflexivity.
  - rewrite (last_cons c), (last_cons c (c' :: s)), IH. reflexivity.
Qed.

Lemma squeeze_head (s : pystr) : head (squeeze s) = head s.
Proof.
  induction s as [|c [|c' s] IH]; [reflexivity|reflexivity|].
  rewrite squeeze_cons. destruct (c =? LF) eqn:Hc; cbn [andb]; [|reflexivity].
  destruct (c' =? LF) eqn:Hc'; [|reflexivity].
  rewrite IH. apply N.eqb_eq in Hc, Hc'. subst. reflexivity.
Qed.

Lemma squeeze_no_run (s : pystr) : newline_run (squeeze s) = false.
Proof.
  unfold newline_run.
  induction s as [|c [|c' s] IH]; [reflexivity| |].
  - simpl. rewrite andb_false_r. reflexivity.
  - rewrite squeeze_cons. destruct ((c =? LF) && (c' =? LF)) eqn:E; [exact IH|].
    cbn [contains]. rewrite IH, orb_false_r.
    pose proof (squeeze_head (c' :: s)) as Hh.
    destruct (squeeze (c' :: s)) as [|x t]; simpl in Hh.
    + simpl. rewrite andb_false_r. reflexivity.
    + injection Hh as ->. cbn [startswith]. rewrite andb_true_r.
      rewrite (N.eqb_sym LF c), (N.eqb_sym LF c'). exact E.
Qed.

Lemma lstrip_head (s : pystr) (c : char) :
  head (lstrip s) = Some c -> is_space c = false.
Proof.
  induction s as [|x s IH]; simpl; [discriminate|].
  destruct (is_space x) eqn:Hx; [exact IH|]. simpl. congruence.
Qed.

Lemma last_rev (s : pystr) : last (rev s) = head s.
Proof.
  destruct s as [|c s]; [reflexivity|]. simpl. apply last_snoc.
Qed.

Lemma strip_last (s : pystr) (c : char) :
  last (strip s) = Some c -> is_space c = false.
Proof. unfold strip, rstrip. rewrite last_rev. apply lstrip_head. Qed.

Lemma shrink_text_eq (s : pystr) :
  shrink_text s = squeeze (crlf_to_lf (strip s)).
Proof. unfold shrink_text. rewrite sub_crlf, sub_newlines. reflexivity. Qed.

Lemma shrink_text_last (s : pystr) (c : char) :
  last (shrink_text s) = Some c -> is_space c = false.
Proof.
  rewrite shrink_text_eq, squeeze_last, crlf_to_lf_last. apply strip_last.
Qed.

Lemma endswith_newline_last (s : pystr) :
  endswith [LF] s = true -> last s = Some LF.
Proof.
  unfold endswith. change (rev [LF]) with [LF].
  rewrite <- (rev_involutive s) at 2. rewrite last_rev.
  destruct (rev s) as [|c t]; cbn [rev startswith head]; [discriminate|].
  rewrite andb_true_r. intros Hc. apply N.eqb_eq in Hc as <-. reflexivity.
Qed.

Lemma shrink_text_shape (s : pystr) :
  endswith [LF] (shrink_text s) = false /\ newline_run (shrink_text s) = false.
Proof.
  split.
  - destruct (endswith [LF] (shrink_text s)) eqn:E; [|reflexivity].
    apply endswith_newline_last, shrink_text_last in E. discriminate.
  - rewrite shrink_text_eq. apply squeeze_no_run.
Qed.

Lemma ensure_newline_truthy (s : pystr) : truthy (VStr (ensure_newline s)) = true.
Proof.
  unfold ensure_newline. destruct (endswith [LF] s) eqn:E.
  - destruct s; [discriminate|reflexivity].
  - destruct s; reflexivity.
Qed.

Lemma shrink_line_str (s : pystr) : exists t, shrink_line (VStr s) = Ok t.
Proof. unfold shrink_line. destruct (truthy (VStr s)); eauto. Qed.

(** ** [get_filename] *)

Lemma Matches_Cat_inv r1 r2 w rest cs cs' :
  Matches (Cat r1 r2) w rest cs cs' ->
  exists w1 w2 cs1, w = w1 ++ w2 /\ Matches r1 w1 (w2 ++ rest) cs cs1 /\
    Matches r2 w2 rest cs1 cs'.
Proof. inversion 1; subst; eauto 10. Qed.

Lemma Matches_Chr_inv p w rest cs cs' :
  Matches (Chr p) w rest cs cs' -> exists c, w = [c] /\ p c = true /\ cs' = cs.
Proof. inversion 1; subst; eauto. Qed.

Lemma Matches_Rep_inv p lo hi w rest cs cs' :
  Matches (Rep p lo hi) w rest cs cs' ->
  Forall (fun c => p c = true) w /\ (lo <= length w)%nat /\
  (forall h, hi = Some h -> (length w <= h)%nat) /\ cs' = cs.
Proof. inversion 1; subst; eauto. Qed.

Lemma Matches_Grp_inv n r w rest cs cs' :
  Matches (Grp n r) w rest cs cs' ->
  exists cs1, Matches r w rest cs cs1 /\ cs' = (n, w) :: cs1.
Proof. inversion 1; subst; eauto. Qed.

Lemma Matches_Alt_inv r1 r2 w rest cs cs' :
  Matches (Alt r1 r2) w rest cs cs' ->
  Matches r1 w rest cs cs' \/ Matches r2 w rest cs cs'.
Proof. inversion 1; subst; eauto. Qed.

Lemma Matches_Eos_inv w rest cs cs' :
  Matches Eos w rest cs cs' -> w = [] /\ cs' = cs /\ (rest = [] \/ rest = [LF]).
Proof. inversion 1; subst; eauto. Qed.

Section Filename.
Context {RT : Runtime}.

Lemma just_eq (a : ascii) (c : char) : just a c = true -> c = ch a.
Proof. unfold just. intros H. apply N.eqb_eq in H. congruence. Qed.

Lemma filename_re_sound url m :
  search filename_re url = Some m -> filename_of url (group_or_empty 1 m).
Proof.
  intros Hs. apply search_sound in Hs as (pre & Hurl & HM).
  unfold filename_re in HM.
  apply Matches_Cat_inv in HM as (w12 & w3 & cs2 & Hw & HM12 & HM3).
  apply Matches_Cat_inv in HM12 as (w1 & w2 & cs1 & Hw12 & HM1 & HM2).
  apply Matches_Chr_inv in HM1 as (c1 & -> & Hc1 & ->).
  apply just_eq in Hc1 as ->.
  apply Matches_Grp_inv in HM2 as (cs1 & HM2 & ->).
  apply Matches_Cat_inv in HM2 as (wsd & ext & cs3 & -> & HMsd & HMext).
  apply Matches_Cat_inv in HMsd as (stem & dot & cs4 & -> & HMstem & HMdot).
  apply Matches_Rep_inv in HMstem as (Hstem & _ & _ & ->).
  apply Matches_Chr_inv in HMdot as (d & -> & Hd & ->).
  apply just_eq in Hd as ->.
  apply Matches_Rep_inv in HMext as (Hext & Hlo & Hhi & ->).
  assert (Hg : group_or_empty 1 m = (stem ++ [ch "."]) ++ ext).
  { assert (Hcs : m_groups m = [(1%nat, (stem ++ [ch "."]) ++ ext)]).
    { apply Matches_Alt_inv in HM3 as [HM3|HM3].
      - apply Matches_Eos_inv in HM3 as (_ & E & _). exact E.
      - apply Matches_Chr_inv in HM3 as (? & _ & _ & E). exact E. }
    unfold group_or_empty. rewrite Hcs. reflexivity. }
  rewrite Hg. exists pre, stem, ext, (w3 ++ m_rest m). repeat split.
  - rewrite Hurl, Hw, Hw12. simpl. rewrite <- !app_assoc. reflexivity.
  - rewrite <- app_assoc. reflexivity.
  - eapply Forall_impl; [exact Hstem|]. simpl. intros c Hc ->.
    unfold just in Hc. rewrite N.eqb_refl in Hc. discriminate.
  - exact Hext.
  - exact Hlo.
  - apply Hhi. reflexivity.
  - apply Matches_Alt_inv in HM3 as [HM3|HM3].
    + apply Matches_Eos_inv in HM3 as (-> & _ & [-> | ->]); auto.
    + apply Matches_Chr_inv in HM3 as (c & -> & Hc & _).
      apply just_eq in Hc as ->. right. right. eauto.
Qed.

Lemma filename_re_complete url name :
  filename_of url name -> is_Some (search filename_re url).
Proof.
  intros (pre & stem & ext & rest & -> & -> & Hstem & Hext & [Hlo Hhi] & Hrest).
  assert (HG : forall rest', Matches
            (Grp 1 (Rep (fun c => negb (just "/" c)) 0 None · Chr (just ".")
                    · Rep word 3 (Some 4%nat)))
            ((stem ++ [ch "."]) ++ ext) rest' []
            [(1%nat, (stem ++ [ch "."]) ++ ext)]).
  { intros rest'. constructor. constructor 4 with (cs1 := []).
    - constructor 4 with (cs1 := []).
      + constructor; [|lia|discriminate].
        eapply Forall_impl; [exact Hstem|]. simpl. intros c Hc.
        unfold just. apply negb_true_iff, N.eqb_neq. intros E. apply Hc. symmetry. exact E.
      + constructor. unfold just. apply N.eqb_refl.
    - constructor; [exact Hext|lia|]. intros h [= <-]. lia. }
  assert (HC : forall rest', Matches (Chr (just "/")) [ch "/"] rest' [] []).
  { intros rest'. constructor. unfold just. apply N.eqb_refl. }
  replace (stem ++ ch "." :: ext) with ((stem ++ [ch "."]) ++ ext)
    by (rewrite <- app_assoc; reflexivity).
  destruct Hrest as [-> | [-> | [t ->]]].
  - replace (ch "/" :: ((stem ++ [ch "."]) ++ ext) ++ [])
      with ((([ch "/"] ++ (stem ++ [ch "."]) ++ ext) ++ []) ++ [])
      by (rewrite !app_nil_r; reflexivity).
    eapply search_complete. unfold filename_re.
    econstructor; [econstructor; [apply HC|apply HG]|].
    apply M_AltL. constructor. auto.
  - replace (ch "/" :: ((stem ++ [ch "."]) ++ ext) ++ [LF])
      with ((([ch "/"] ++ (stem ++ [ch "."]) ++ ext) ++ []) ++ [LF])
      by (rewrite !app_nil_r; reflexivity).
    eapply search_complete. unfold filename_re.
    econstructor; [econstructor; [apply HC|apply HG]|].
    apply M_AltL. constructor. auto.
  - replace (ch "/" :: ((stem ++ [ch "."]) ++ ext) ++ ch "?" :: t)
      with ((([ch "/"] ++ (stem ++ [ch "."]) ++ ext) ++ [ch "?"]) ++ t)
      by (rewrite <- !app_assoc; reflexivity).
    eapply search_complete. unfold filename_re.
    econstructor; [econstructor; [apply HC|apply HG]|].
    apply M_AltR. constructor. unfold just. apply N.eqb_refl.
Qed.

Lemma filename_of_nonempty url name : filename_of url name -> name <> [].
Proof.
  intros (pre & stem & ext & rest & _ & -> & _). destruct stem; discriminate.
Qed.

Lemma filename_text_spec (url : pystr) :
  filename_of url (filename_text url) \/
  (filename_text url = [] /\ ~ exists name, filename_of url name).
Proof.
  unfold filename_text. destruct (search filename_re url) as [m|] eqn:Hs.
  - left. apply filename_re_sound, Hs.
  - right. split; [reflexivity|]. intros [name Hn].
    apply filename_re_complete in Hn as [m Hm]. congruence.
Qed.

Lemma mapM_get_filename (urls : list pystr) :
  mapM get_filename (VStr <$> urls) = Ok (filename_text <$> urls).
Proof.
  induction urls as [|u urls IH]; [reflexivity|].
  cbn [fmap list_fmap mapM]. fold (mapM get_filename).
  change (list_fmap pystr pyval VStr urls) with (VStr <$> urls).
  rewrite IH. reflexivity.
Qed.

End Filename.


(** ** [html.unescape] returns, but for a decimal reference beyond the limit *)

Lemma backslashed_cons (c : char) (s : pystr) :
  backslashed (c :: s) =
  (if reserved c then [ch "\"; c] else [c]) ++ backslashed s.
Proof. reflexivity. Qed.

Lemma backslashed_injective (s t : pystr) :
  backslashed s = backslashed t -> s = t.
Proof.
  revert t. induction s as [|c s IH]; intros [|d t] H.
  - reflexivity.
  - rewrite backslashed_cons in H. destruct (reserved d); discriminate.
  - rewrite backslashed_cons in H. destruct (reserved c); discriminate.
  - rewrite !backslashed_cons in H.
    destruct (reserved c) eqn:Hc, (reserved d) eqn:Hd; simpl in H.
    + injection H as <- H. f_equal. apply IH, H.
    + injection H as E H. subst d. vm_compute in Hd. discriminate.
    + injection H as E H. subst c. vm_compute in Hc. discriminate.
    + injection H as <- H. f_equal. apply IH, H.
Qed.

Lemma rstrip_char_length (c : char) (s : pystr) :
  (length (rstrip_char c s) <= length s)%nat.
Proof.
  induction s as [|x s IH]; [reflexivity|]. cbn [rstrip_char].
  destruct (rstrip_char c s) as [|y t].
  - destruct (x =? c); simpl; lia.
  - simpl in *. lia.
Qed.

Lemma int_of_hex (ds : pystr) : exists n, int_of 16 ds = Ok n.
Proof. unfold int_of. eexists. reflexivity. Qed.

Lemma int_of_decimal (ds : pystr) :
  N.of_nat (length ds) <= int_max_str_digits -> exists n, int_of 10 ds = Ok n.
Proof.
  intros Hle. unfold int_of. apply N.ltb_ge in Hle. rewrite Hle, andb_false_r.
  eexists. reflexivity.
Qed.

Lemma int_of_beyond_limit (ds : pystr) :
  int_max_str_digits < N.of_nat (length ds) -> int_of 10 ds = Raise ValueError.
Proof.
  intros Hlt. unfold int_of. apply N.ltb_lt in Hlt. rewrite Hlt. reflexivity.
Qed.

Section Charref.
Context {RT : Runtime}.

(** What [_charref] captures: the text after the ampersand, which is not
    empty and holds a digit or an [x] after a leading [#]. *)
Lemma charref_group (s : pystr) (m : rmatched) :
  match_at _charref s = Some m ->
  exists c g rest,
    group_or_empty 1 m = c :: g /\ s = (ch "&" :: c :: g) ++ rest /\
    (c = ch "#" -> g <> []).
Proof.
  intros Hm. apply match_at_sound in Hm as [Hs HM]. unfold _charref in HM.
  apply Matches_Cat_inv in HM as (w1 & w2 & cs1 & Hw & HM1 & HM2).
  apply Matches_Chr_inv in HM1 as (a & -> & Ha & ->). apply just_eq in Ha as ->.
  apply Matches_Grp_inv in HM2 as (cs2 & HM2 & Hcs).
  assert (Hg : group_or_empty 1 m = w2).
  { unfold group_or_empty. rewrite Hcs. reflexivity. }
  rewrite Hg, Hs, Hw. clear Hg Hs Hw Hcs.
  apply Matches_Alt_inv in HM2 as [HM2|HM2];
    [apply Matches_Alt_inv in HM2 as [HM2|HM2]|].
  - apply Matches_Cat_inv in HM2 as (wa & wb & ca & -> & HMa & _).
    apply Matches_Cat_inv in HMa as (wc & wd & cb & -> & HMc & HMd).
    apply Matches_Chr_inv in HMc as (c & -> & _ & _).
    apply Matches_Rep_inv in HMd as (_ & Hlo & _).
    exists c, (wd ++ wb), (m_rest m). split; [|split].
    + simpl. rewrite <- ?app_assoc. reflexivity.
    + simpl. rewrite <- ?app_assoc. reflexivity.
    + intros _ E. apply app_eq_nil in E as [-> _]. simpl in Hlo. lia.
  - apply Matches_Cat_inv in HM2 as (wa & wb & ca & -> & HMa & _).
    apply Matches_Cat_inv in HMa as (wc & wd & cb & -> & HMc & _).
    apply Matches_Cat_inv in HMc as (we & wf & cc & -> & HMe & HMf).
    apply Matches_Chr_inv in HMe as (c & -> & _ & _).
    apply Matches_Chr_inv in HMf as (x & -> & _ & _).
    exists c, (x :: wd ++ wb), (m_rest m). split; [|split].
    + simpl. rewrite <- ?app_assoc. reflexivity.
    + simpl. rewrite <- ?app_assoc. reflexivity.
    + discriminate.
  - apply Matches_Cat_inv in HM2 as (wa & wb & ca & -> & HMa & _).
    apply Matches_Rep_inv in HMa as (Hall & Hlo & _).
    destruct wa as [|x wa]; [simpl in Hlo; lia|].
    exists x, (wa ++ wb), (m_rest m). split; [|split].
    + simpl. rewrite <- ?app_assoc. reflexivity.
    + simpl. rewrite <- ?app_assoc. reflexivity.
    + intros ->. inversion Hall as [|? ? Hx _]. discriminate.
Qed.

Lemma replace_charref_returns (s : pystr) (m : rmatched) :
  match_at _charref s = Some m -> N.of_nat (length s) <= int_max_str_digits ->
  exists x, _replace_charref m = Ok x.
Proof.
  intros Hm Hle. apply charref_group in Hm as (c & g & rest & Hg & -> & Hne).
  unfold _replace_charref. rewrite Hg.
  destruct (c =? ch "#") eqn:Hc; [|eexists; reflexivity].
  apply N.eqb_eq in Hc. specialize (Hne Hc).
  destruct g as [|x s2]; [congruence|].
  destruct (one_of "xX" x).
  - destruct (int_of_hex (rstrip_char (ch ";") s2)) as [n ->]. eexists. reflexivity.
  - destruct (int_of_decimal (rstrip_char (ch ";") (x :: s2))) as [n ->];
      [|eexists; reflexivity].
    pose proof (rstrip_char_length (ch ";") (x :: s2)) as Hl.
    rewrite length_app in Hle. cbn [length] in Hle, Hl |- *. lia.
Qed.

Lemma sub_from_call_returns (r : regex) (f : rmatched -> result pystr) (n : N) :
  (forall s m, match_at r s = Some m -> N.of_nat (length s) <= n ->
               exists x, f m = Ok x) ->
  forall s skip, N.of_nat (length s) <= n ->
  exists t, sub_from_call r f skip s = Ok t.
Proof.
  intros Hf. induction s as [|c s IH]; intros skip Hle.
  - cbn [sub_from_call]. destruct skip; [|eauto].
    destruct (match_at r []) as [m|] eqn:Hm; [|eauto]. eapply Hf; eauto.
  - assert (Hle' : N.of_nat (length s) <= n) by (cbn [length] in Hle; lia).
    cbn [sub_from_call]. destruct skip as [|k]; [|apply IH, Hle'].
    destruct (match_at r (c :: s)) as [m|] eqn:Hm.
    + destruct (Hf _ _ Hm Hle) as [x ->]. cbn [mbind result_bind].
      destruct (m_text m) as [|a t].
      * destruct (IH O Hle') as [u ->]. eexists. reflexivity.
      * destruct (IH (length t) Hle') as [u ->]. eexists. reflexivity.
    + destruct (IH O Hle') as [u ->]. eexists. reflexivity.
Qed.

Lemma replace_charref_raises (s : pystr) (m : rmatched) (e : exn) :
  match_at _charref s = Some m -> _replace_charref m = Raise e -> e = ValueError.
Proof.
  intros Hm. apply charref_group in Hm as (c & g & rest & Hg & -> & Hne).
  unfold _replace_charref. rewrite Hg.
  destruct (c =? ch "#") eqn:Hc; [|discriminate].
  apply N.eqb_eq in Hc. specialize (Hne Hc).
  destruct g as [|x s2]; [congruence|].
  destruct (one_of "xX" x).
  - destruct (int_of_hex (rstrip_char (ch ";") s2)) as [n ->]. discriminate.
  - unfold int_of.
    destruct (negb (N.land 10 (10 - 1) =? 0)
              && (int_max_str_digits <? N.of_nat (length (rstrip_char (ch ";") (x :: s2)))));
      [intros [= <-]; reflexivity|discriminate].
Qed.

Lemma sub_from_call_raises (r : regex) (f : rmatched -> result pystr) (e : exn) :
  forall s skip, sub_from_call r f skip s = Raise e ->
  exists s' m, match_at r s' = Some m /\ f m = Raise e.
Proof.
  induction s as [|c s IH]; intros skip H; cbn [sub_from_call] in H.
  - destruct skip; [|discriminate].
    destruct (match_at r []) as [m|] eqn:Hm; [eauto|discriminate].
  - destruct skip as [|k]; [|eapply IH, H].
    destruct (match_at r (c :: s)) as [m|] eqn:Hm.
    + destruct (f m) as [x|e'] eqn:Hf.
      * cbn [mbind result_bind] in H. destruct (m_text m) as [|a t].
        -- destruct (sub_from_call r f 0 s) eqn:Hs; [discriminate|].
           injection H as ->. eapply IH, Hs.
        -- destruct (sub_from_call r f (length t) s) eqn:Hs; [discriminate|].
           injection H as ->. eapply IH, Hs.
      * injection H as ->. eauto.
    + destruct (sub_from_call r f 0 s) eqn:Hs; [discriminate|].
      injection H as ->. eapply IH, Hs.
Qed.

Lemma unescape_raises (s : pystr) (e : exn) :
  unescape s = Raise e -> e = ValueError.
Proof.
  unfold unescape. destruct (negb (existsb (N.eqb (ch "&")) s)); [discriminate|].
  intros H. apply sub_from_call_raises in H as (s' & m & Hm & Hf).
  eapply replace_charref_raises; eauto.
Qed.

Lemma unescape_returns (s : pystr) :
  N.of_nat (length s) <= int_max_str_digits -> exists t, unescape s = Ok t.
Proof.
  intros Hle. unfold unescape.
  destruct (negb (existsb (N.eqb (ch "&")) s)); [eauto|].
  unfold re_sub_call. eapply sub_from_call_returns; [|exact Hle].
  intros s' m. apply replace_charref_returns.
Qed.

End Charref.

(** ** [shrink_line] does not lengthen a text *)

Lemma lstrip_length (s : pystr) : (length (lstrip s) <= length s)%nat.
Proof.
  induction s as [|c s IH]; [reflexivity|]. simpl.
  destruct (is_space c); simpl; lia.
Qed.

Lemma strip_length (s : pystr) : (length (strip s) <= length s)%nat.
Proof.
  unfold strip, rstrip. rewrite length_rev.
  pose proof (lstrip_length (rev (lstrip s))) as H1.
  rewrite length_rev in H1. pose proof (lstrip_length s). lia.
Qed.

Lemma crlf_to_lf_length (s : pystr) :
  (length (crlf_to_lf s) <= length s)%nat.
Proof.
  remember (length s) as n eqn:Hn. revert s Hn.
  induction n as [n IH] using lt_wf_ind. intros s ->.
  destruct s as [|c [|d s]]; [reflexivity|reflexivity|].
  rewrite crlf_to_lf_cons. destruct ((c =? CR) && (d =? LF)).
  - pose proof (IH (length s) ltac:(simpl; lia) s eq_refl). simpl. lia.
  - pose proof (IH (length (d :: s)) ltac:(simpl; lia) (d :: s) eq_refl).
    simpl in *. lia.
Qed.

Lemma squeeze_length (s : pystr) : (length (squeeze s) <= length s)%nat.
Proof.
  induction s as [|c [|d s] IH]; [reflexivity|reflexivity|].
  rewrite squeeze_cons. destruct ((c =? LF) && (d =? LF)); simpl in *; lia.
Qed.

Lemma shrink_text_length (s : pystr) :
  (length (shrink_text s) <= length s)%nat.
Proof.
  rewrite shrink_text_eq.
  pose proof (squeeze_length (crlf_to_lf (strip s))).
  pose proof (crlf_to_lf_length (strip s)). pose proof (strip_length s). lia.
Qed.

Lemma shrink_line_value (s : pystr) : shrink_line (VStr s) = Ok (shrink_text s).
Proof.
  unfold shrink_line. destruct s as [|c s]; [reflexivity|].
  cbn [truthy]. rewrite bool_decide_eq_false_2 by discriminate. reflexivity.
Qed.

Lemma ensure_newline_ends (s : pystr) : endswith [LF] (ensure_newline s) = true.
Proof.
  unfold ensure_newline. destruct (endswith [LF] s) eqn:E; [exact E|].
  unfold endswith. rewrite rev_app_distr. reflexivity.
Qed.

(** ** The claims about the text helpers *)

(** C8, as amended.  [escape_markdown] decodes the HTML character
    references of its input as [html.unescape] does, which returns a text
    for every input of at most [int_max_str_digits] characters and can fail
    only with the [ValueError] of a longer decimal reference, and then
    prefixes every reserved character of the decoded text with exactly one
    backslash.  On an input whose decoded text holds no reserved character
    the decoded text is returned, and escaping it again changes nothing if
    and only if decoding the decoded text again leaves it as it is; this is
    so on every input that holds neither a reserved character nor an
    ampersand, which is returned as it is. *)
Theorem escape_markdown_decodes_then_backslashes `{Runtime} (s : pystr) :
  escape_markdown (VStr s) = backslashed <$> unescape s /\
  (N.of_nat (length s) <= int_max_str_digits ->
   exists t, unescape s = Ok t /\ escape_markdown (VStr s) = Ok (backslashed t)) /\
  (forall e, escape_markdown (VStr s) = Raise e ->
   e = ValueError /\ int_max_str_digits < N.of_nat (length s)) /\
  (forall t, unescape s = Ok t -> Forall (fun c => reserved c = false) t ->
   escape_markdown (VStr s) = Ok t /\
   ((u ← escape_markdown (VStr s); escape_markdown (VStr u))
    = escape_markdown (VStr s)
    <-> unescape t = Ok t)) /\
  (Forall (fun c => reserved c = false) s -> ch "&" ∉ s ->
   escape_markdown (VStr s) = Ok s /\
   (u ← escape_markdown (VStr s); escape_markdown (VStr u))
   = escape_markdown (VStr s)).
Proof.
  pose proof (escape_markdown_unescape s) as E.
  split; [exact E|]. split; [|split; [|split]].
  - intros Hle. destruct (unescape_returns s Hle) as [t Ht]. exists t.
    split; [exact Ht|]. rewrite E, Ht. reflexivity.
  - intros e He. rewrite E in He.
    destruct (unescape s) as [t|e'] eqn:Hu; [discriminate|].
    injection He as ->. split; [eapply unescape_raises, Hu|].
    apply N.lt_nge. intros Hle.
    destruct (unescape_returns s Hle) as [t Ht]. congruence.
  - intros t Ht Hres.
    assert (E' : escape_markdown (VStr s) = Ok t).
    { rewrite E, Ht. cbn [fmap result_fmap]. rewrite backslashed_plain by assumption.
      reflexivity. }
    split; [exact E'|]. rewrite E'. cbn [mbind result_bind].
    rewrite escape_markdown_unescape. split.
    + destruct (unescape t) as [t'|e]; [|discriminate].
      cbn [fmap result_fmap]. intros [= Hb]. f_equal.
      apply backslashed_injective. rewrite Hb. symmetry.
      apply backslashed_plain, Hres.
    + intros ->. cbn [fmap result_fmap]. rewrite backslashed_plain by assumption.
      reflexivity.
  - intros Hres Hamp.
    assert (E' : escape_markdown (VStr s) = Ok s).
    { rewrite E, unescape_plain by assumption. cbn [fmap result_fmap].
      rewrite backslashed_plain by assumption. reflexivity. }
    split; [exact E'|]. rewrite E'. exact E'.
Qed.

Lemma escape_markdown_decodes_then_backslashes_witness :
  (exists t, @unescape basic_latin (lit "a &lt; b") = Ok t /\
             @escape_markdown basic_latin (VStr (lit "a &lt; b"))
             = Ok (backslashed t)) /\
  (u ← @escape_markdown basic_latin (VStr (lit "&amp;"));
   @escape_markdown basic_latin (VStr u))
  = @escape_markdown basic_latin (VStr (lit "&amp;")) /\
  @escape_markdown basic_latin (VStr (lit "bilibili")) = Ok (lit "bilibili").
Proof.
  split; [|split].
  - apply (@escape_markdown_decodes_then_backslashes basic_latin (lit "a &lt; b")).
    vm_compute. discriminate.
  - destruct (@escape_markdown_decodes_then_backslashes basic_latin (lit "&amp;"))
      as (_ & _ & _ & Hid & _).
    destruct (Hid (lit "&")) as [_ Hiff].
    + reflexivity.
    + vm_compute. repeat constructor.
    + apply Hiff. reflexivity.
  - apply (@escape_markdown_decodes_then_backslashes basic_latin (lit "bilibili")).
    + vm_compute. repeat constructor.
    + intros Hin. apply list_elem_of_In in Hin. vm_compute in Hin.
      intuition discriminate.
Defined.

(** C8 as stated fails.  ["&gt;"] holds no reserved character, yet
    escaping it gives ["\>"] and escaping that gives ["\\\>"]; the decoded
    text of ["&amp;gt;"] holds none either, and escaping twice still
    differs from escaping once; and on a decimal reference of 4301 digits
    nothing is returned. *)
Lemma escape_markdown_not_idempotent :
  (Forall (fun c => reserved c = false) (lit "&gt;") /\
   @escape_markdown basic_latin (VStr (lit "&gt;")) = Ok (lit "\>") /\
   (t ← @escape_markdown basic_latin (VStr (lit "&gt;"));
    @escape_markdown basic_latin (VStr t))
   <> @escape_markdown basic_latin (VStr (lit "&gt;"))) /\
  (@unescape basic_latin (lit "&amp;gt;") = Ok (lit "&gt;") /\
   Forall (fun c => reserved c = false) (lit "&gt;") /\
   (t ← @escape_markdown basic_latin (VStr (lit "&amp;gt;"));
    @escape_markdown basic_latin (VStr t))
   <> @escape_markdown basic_latin (VStr (lit "&amp;gt;"))) /\
  @escape_markdown basic_latin (VStr (lit "&#" ++ repeat (ch "1") 4301))
  = Raise ValueError.
Proof.
  split; [|split].
  - split; [vm_compute; repeat constructor|]. split; [reflexivity|].
    vm_compute. discriminate.
  - split; [reflexivity|]. split; [vm_compute; repeat constructor|].
    vm_compute. discriminate.
  - vm_compute. reflexivity.
Qed.

(** C3, on every content.  Lines 106-107 give the escaped content a
    trailing newline, and the [shrink_line] of line 110 strips it again:
    whenever [content_markdown] is computed, it is the shrunk form of a text
    that ends with a newline, does not itself end with a newline, and holds
    no run of two or more newlines.  It is computed for every content of at
    most [int_max_str_digits] characters, and where it is not computed the
    [ValueError] of a longer decimal character reference is raised. *)
Theorem content_markdown_shrunk `{Runtime} (f : feed) (s : pystr) :
  (N.of_nat (length s) <= int_max_str_digits ->
   exists md, content_markdown (set_content (VStr s) f) = Ok md) /\
  (forall e, content_markdown (set_content (VStr s) f) = Raise e ->
   e = ValueError) /\
  (forall md, content_markdown (set_content (VStr s) f) = Ok md ->
   endswith [LF] md = false /\ newline_run md = false /\
   exists e, escape_markdown (VStr (shrink_text s)) = Ok e /\
     endswith [LF] (ensure_newline e) = true /\
     md = shrink_text (ensure_newline e)).
Proof.
  unfold content_markdown, content_markdown_of, content.
  cbn [_content set_content]. rewrite shrink_line_value.
  cbn [mbind result_bind]. rewrite escape_markdown_unescape.
  destruct (unescape (shrink_text s)) as [t|e] eqn:Ht.
  - cbn [fmap result_fmap mbind result_bind]. rewrite shrink_line_value.
    split; [eauto|]. split; [discriminate|]. intros md [= <-].
    split; [apply shrink_text_shape|]. split; [apply shrink_text_shape|].
    exists (backslashed t). split; [reflexivity|].
    split; [apply ensure_newline_ends|reflexivity].
  - split; [|split; [|discriminate]].
    + intros Hle.
      destruct (unescape_returns (shrink_text s)) as [t Ht'];
        [|congruence].
      pose proof (shrink_text_length s). lia.
    + intros e' [= <-]. eapply unescape_raises, Ht.
Qed.

Lemma content_markdown_shrunk_witness :
  exists md,
    @content_markdown basic_latin (set_content (VStr (lit "a")) (new_feed []))
    = Ok md /\ endswith [LF] md = false.
Proof.
  destruct (@content_markdown_shrunk basic_latin (new_feed []) (lit "a"))
    as (Hret & _ & Hshape).
  destruct Hret as [md Hmd]; [vm_compute; discriminate|].
  exists md. split; [exact Hmd|]. apply (Hshape md Hmd).
Defined.

(** On the content ["a"]: the text ["a\n"] is made and shrunk to ["a"],
    which does not end with a newline. *)
Lemma content_markdown_without_trailing_newline :
  @content_markdown basic_latin (set_content (VStr (lit "a")) (new_feed []))
  = Ok (lit "a") /\
  ensure_newline (lit "a") = lit "a" ++ [LF] /\
  ~ exists md,
      @content_markdown basic_latin (set_content (VStr (lit "a")) (new_feed []))
      = Ok md /\ endswith [LF] md = true.
Proof.
  split; [reflexivity|]. split; [reflexivity|].
  intros (md & Hmd & Hend). vm_compute in Hmd. injection Hmd as <-. discriminate.
Qed.

(** ** Memoised getters *)

Section Memo.
Context {RT : Runtime}.

Lemma bind_inv {S A B} (m : SE S A) (f : A -> SE S B) s r s' :
  (m ≫= f) s = (r, s') ->
  (exists a s1, m s = (Ok a, s1) /\ f a s1 = (r, s')) \/
  (exists e, m s = (Raise e, s') /\ r = Raise e).
Proof.
  unfold mbind, se_bind. destruct (m s) as [[a|e] s1]; intros H.
  - left. eauto.
  - right. injection H as <- <-. eauto.
Qed.

Section Keeps.
Variable P : store -> Prop.

Lemma keeps_ret {A} (a : A) : keeps P (mret a).
Proof. intros σ r σ' [= <- <-]. auto. Qed.

Lemma keeps_lift {A} (x : result A) : keeps P (lift x).
Proof. intros σ r σ' [= <- <-]. auto. Qed.

Lemma keeps_state : keeps P state.
Proof. intros σ r σ' [= <- <-]. auto. Qed.

Lemma keeps_instance_of self : keeps P (instance_of self).
Proof.
  intros σ r σ'. unfold instance_of.
  destruct (heap σ !! self); intros [= <- <-]; auto.
Qed.

Lemma keeps_bind {A B} (m : SE store A) (f : A -> SE store B) :
  keeps P m -> (forall a, keeps P (f a)) -> keeps P (m ≫= f).
Proof.
  intros Hm Hf σ r σ' H HP.
  apply bind_inv in H as [(a & σ1 & H1 & H2) | (e & H1 & _)].
  - eapply Hf; [exact H2|]. eapply Hm; [exact H1|exact HP].
  - eapply Hm; [exact H1|exact HP].
Qed.

End Keeps.

Section Holds.
Variables (self : nat) (name : cached) (v : pyval).

Lemma keeps_remember self' name' v' :
  (self', name') <> (self, name) ->
  keeps (holds self name v) (remember self' name' v').
Proof.
  intros Hne σ r σ' H (i & Hi & Hc). unfold remember in H.
  apply bind_inv in H as [(i' & σ1 & H1 & H2) | (e & H1 & _)].
  - unfold instance_of in H1. destruct (heap σ !! self') eqn:Hs; [|discriminate].
    injection H1 as <- <-. injection H2 as _ <-. unfold holds. simpl.
    destruct (decide (self' = self)) as [->|Hself].
    + rewrite lookup_insert_eq. eexists. split; [reflexivity|]. simpl.
      destruct (decide (name = name')) as [->|]; [congruence|].
      congruence.
    + rewrite lookup_insert_ne by assumption. eauto.
  - unfold instance_of in H1. destruct (heap σ !! self'); [discriminate|].
    injection H1 as _ <-. unfold holds. eauto.
Qed.

Lemma keeps_cached_property name' func self' :
  keeps (holds self name v) (func self') ->
  keeps (holds self name v) (cached_property name' func self').
Proof.
  intros Hf. unfold cached_property. intros σ r σ' H HP.
  apply bind_inv in H as [(i' & σ1 & H1 & H2) | (e & H1 & _)].
  2:{ revert H1 HP. apply keeps_instance_of. }
  assert (HP1 : holds self name v σ1) by (revert H1 HP; apply keeps_instance_of).
  destruct (cache i' name') as [v'|] eqn:Hc.
  - injection H2 as _ <-. exact HP1.
  - assert (Hne : (self', name') <> (self, name)).
    { intros [= -> ->]. destruct HP as (i & Hi & Hv). unfold instance_of in H1.
      rewrite Hi in H1. injection H1 as <- _. congruence. }
    revert H2 HP1. apply keeps_bind; [exact Hf|]. intros a.
    apply keeps_bind; [apply keeps_remember, Hne|]. intros _. apply keeps_ret.
Qed.

Lemma keeps_lru_cache name' func self' :
  keeps (holds self name v) (func self') ->
  keeps (holds self name v) (lru_cache name' func self').
Proof.
  intros Hf. unfold lru_cache.
  assert (Hmiss : keeps (holds self name v)
    (v0 ← func self';
     _ ← update (fun σ =>
           {| heap := heap σ;
              lru := fun n => if decide (n = name') then Some (self', v0)
                              else lru σ n |});
     mret v0)).
  { apply keeps_bind; [exact Hf|]. intros a. apply keeps_bind.
    - intros σ r σ' [= _ <-] HP. exact HP.
    - intros _. apply keeps_ret. }
  apply keeps_bind; [apply keeps_state|]. intros σ0.
  destruct (lru σ0 name') as [[key v']|]; [|exact Hmiss].
  destruct (Nat.eqb key self'); [apply keeps_ret|exact Hmiss].
Qed.

Lemma keeps_read g self' : keeps (holds self name v) (read g self').
Proof.
  destruct g as [[]|[]]; cbn [read];
    unfold get_user_markdown, get_content_markdown, get_has_comment,
      get_comment, get_comment_markdown, get_mediafilename, get_url,
      get_content, get_mediaurls;
    repeat first
      [ apply keeps_cached_property | apply keeps_lru_cache
      | apply keeps_bind; [|intros ?] | apply keeps_instance_of
      | apply keeps_lift | apply keeps_ret ].
Qed.

Lemma keeps_assign self' upd : keeps (holds self name v) (assign self' upd).
Proof.
  intros σ r σ' H (i & Hi & Hc). unfold assign in H.
  apply bind_inv in H as [(i' & σ1 & H1 & H2) | (e & H1 & _)].
  - unfold instance_of in H1. destruct (heap σ !! self') eqn:Hs; [|discriminate].
    injection H1 as <- <-. injection H2 as _ <-. unfold holds. simpl.
    destruct (decide (self' = self)) as [->|Hself].
    + rewrite lookup_insert_eq. eexists. split; [reflexivity|]. simpl. congruence.
    + rewrite lookup_insert_ne by assumption. eauto.
  - unfold instance_of in H1. destruct (heap σ !! self'); [discriminate|].
    injection H1 as _ <-. unfold holds. eauto.
Qed.

Lemma keeps_alloc url : keeps (holds self name v) (alloc url).
Proof.
  intros σ r σ' [= _ <-] (i & Hi & Hc). unfold holds. simpl.
  rewrite lookup_insert_ne; [eauto|]. intros E.
  assert (Hin : self ∈ dom (heap σ)) by (apply elem_of_dom; eauto).
  rewrite <- E in Hin. exact (is_fresh _ Hin).
Qed.

Lemma holds_exec o σ : holds self name v σ -> holds self name v (exec o σ).
Proof.
  intros HP. destruct o as [url|self' upd|g self']; cbn [exec].
  - destruct (alloc url σ) as [r σ'] eqn:E. exact (keeps_alloc url _ _ _ E HP).
  - destruct (assign self' upd σ) as [r σ'] eqn:E.
    exact (keeps_assign _ _ _ _ _ E HP).
  - destruct (read g self' σ) as [r σ'] eqn:E. exact (keeps_read _ _ _ _ _ E HP).
Qed.

Lemma holds_run ops σ : holds self name v σ -> holds self name v (run ops σ).
Proof.
  revert σ. induction ops as [|o ops IH]; intros σ HP; [exact HP|].
  apply IH, holds_exec, HP.
Qed.

End Holds.

Lemma read_cached_is_cached_property name :
  exists func, read (Cached name) = cached_property name func.
Proof. destruct name; eexists; reflexivity. Qed.

Lemma read_cached_hit name self v σ :
  holds self name v σ -> read (Cached name) self σ = (Ok v, σ).
Proof.
  intros (i & Hi & Hc). destruct (read_cached_is_cached_property name) as [func ->].
  unfold cached_property, mbind, se_bind, instance_of. rewrite Hi, Hc. reflexivity.
Qed.

Lemma read_cached_holds name self v σ σ' :
  read (Cached name) self σ = (Ok v, σ') -> holds self name v σ'.
Proof.
  destruct (read_cached_is_cached_property name) as [func ->].
  unfold cached_property. intros H.
  apply bind_inv in H as [(i & σ1 & H1 & H2) | (e & _ & ?)]; [|discriminate].
  unfold instance_of in H1. destruct (heap σ !! self) as [i0|] eqn:Hs; [|discriminate].
  injection H1 as E1 E2. subst i0 σ1.
  destruct (cache i name) as [v'|] eqn:Hc.
  - injection H2 as <- <-. exists i. auto.
  - apply bind_inv in H2 as [(a & σ2 & H2 & H3) | (e & _ & ?)]; [|discriminate].
    apply bind_inv in H3 as [([] & σ3 & H3 & H4) | (e & _ & ?)]; [|discriminate].
    injection H4 as <- <-. unfold remember in H3.
    apply bind_inv in H3 as [(i2 & σ4 & H3 & H5) | (e & _ & ?)]; [|discriminate].
    unfold instance_of in H3. destruct (heap σ2 !! self); [|discriminate].
    injection H3 as <- <-. injection H5 as <-. unfold holds. simpl.
    rewrite lookup_insert_eq. eexists. split; [reflexivity|]. simpl.
    destruct (decide (name = name)); congruence.
Qed.

(** X6.  A field behind [cached_property] keeps its first value, whatever
    is assigned, read or created afterwards. *)
Lemma cached_property_stable name self v σ σ1 ops :
  read (Cached name) self σ = (Ok v, σ1) ->
  read (Cached name) self (run ops σ1) = (Ok v, run ops σ1).
Proof.
  intros H. apply read_cached_hit, holds_run. eapply read_cached_holds, H.
Qed.

End Memo.

(** C2, on the failing input.  Two instances are created and the first
    gets the content ["first"], which is read; then the first gets the
    content ["second"], the content of the second instance is read, and the
    content of the first is read again: the second read of the same derived
    field returns ["second"], not the value of the first read. *)
Theorem content_not_memoised_across_instances `{Runtime} :
  let σ1 := run [New (lit "u1"); New (lit "u2");
                 Assign 0 (set_content (VStr (lit "first")))] empty_store in
  exists σ2,
    read (Lru lru_content) 0%nat σ1 = (Ok (VStr (lit "first")), σ2) /\
    fst (read (Lru lru_content) 0%nat
           (run [Assign 0 (set_content (VStr (lit "second")));
                 Read (Lru lru_content) 1] σ2))
    = Ok (VStr (lit "second")).
Proof.
  cbv zeta. eexists. split; [vm_compute; reflexivity|]. vm_compute. reflexivity.
Qed.

(** ** [mediafilename] and [mediaurls] *)

Section MediaFilename.
Context {RT : Runtime}.

Lemma mapM_get_filename_raises (l : list pyval) :
  (exists x, x ∈ l /\ forall s, x <> VStr s) ->
  mapM get_filename l = Raise TypeError.
Proof.
  intros (x & Hx & Hs). induction l as [|y l IH]; [inversion Hx|].
  cbn [mapM]. fold (mapM get_filename).
  destruct y as [| | |s| | |];
    try reflexivity.
  apply elem_of_cons in Hx as [->|Hx]; [destruct (Hs s eq_refl)|].
  rewrite (IH Hx). reflexivity.
Qed.

Lemma mediafilename_of_strings (f : feed) (urls : list pystr) :
  _mediaurls f = VStr <$> urls -> mediafilename f = Ok (filename_text <$> urls).
Proof.
  intros E. unfold mediafilename. rewrite E.
  destruct urls as [|u urls]; [reflexivity|].
  rewrite bool_decide_eq_false_2 by discriminate. apply mapM_get_filename.
Qed.

Lemma mediafilename_of_other (f : feed) :
  (exists x, x ∈ _mediaurls f /\ forall s, x <> VStr s) ->
  mediafilename f = Raise TypeError.
Proof.
  intros Hx. unfold mediafilename.
  destruct (_mediaurls f) as [|y l] eqn:E.
  - destruct Hx as (x & Hx & _). inversion Hx.
  - rewrite bool_decide_eq_false_2 by discriminate.
    apply mapM_get_filename_raises, Hx.
Qed.

(** The store after [self.mediaurls = v]. *)
Lemma exec_assign (σ : store) (self : nat) (i : instance) (upd : feed -> feed) :
  heap σ !! self = Some i ->
  exec (Assign self upd) σ
  = {| heap := <[self := {| attrs := upd (attrs i); cache := cache i |}]> (heap σ);
       lru := lru σ |}.
Proof.
  intros Hi. cbn [exec]. unfold assign, mbind, se_bind, instance_of.
  rewrite Hi. reflexivity.
Qed.

(** The first read of [mediafilename] computes it from the attributes. *)
Lemma get_mediafilename_first (σ : store) (self : nat) (i : instance) :
  heap σ !! self = Some i -> cache i c_mediafilename = None ->
  get_mediafilename self σ
  = match mediafilename (attrs i) with
    | Ok names =>
        (Ok (VList (VStr <$> names)),
         {| heap := <[self := {| attrs := attrs i;
                                 cache := fun n =>
                                   if decide (n = c_mediafilename)
                                   then Some (VList (VStr <$> names))
                                   else cache i n |}]> (heap σ);
            lru := lru σ |})
    | Raise e => (Raise e, σ)
    end.
Proof.
  intros Hi Hc. unfold get_mediafilename, cached_property.
  unfold mbind at 1, se_bind at 1, instance_of at 1. rewrite Hi, Hc.
  unfold mbind at 1, se_bind at 1. unfold mbind at 1, se_bind at 1.
  unfold instance_of at 1. rewrite Hi. unfold lift.
  destruct (mediafilename (attrs i)) as [names|e]; [|reflexivity].
  cbn [fmap result_fmap]. unfold remember, mbind, se_bind, instance_of.
  rewrite Hi. reflexivity.
Qed.

(** A read of [mediaurls] when the slot of the getter holds nothing of
    the instance. *)
Lemma get_mediaurls_miss (σ : store) (self : nat) (i : instance) :
  heap σ !! self = Some i ->
  (forall k x, lru σ lru_mediaurls = Some (k, x) -> k <> self) ->
  fst (get_mediaurls self σ) = Ok (VList (_mediaurls (attrs i))).
Proof.
  intros Hi Hslot. unfold get_mediaurls, lru_cache.
  unfold mbind at 1, se_bind at 1, state.
  assert (Hmiss : fst ((v ← (i ← instance_of self; mret (VList (_mediaurls (attrs i))));
                        _ ← update (fun σ =>
                              {| heap := heap σ;
                                 lru := fun n => if decide (n = lru_mediaurls)
                                                 then Some (self, v)
                                                 else lru σ n |});
                        mret v) σ) = Ok (VList (_mediaurls (attrs i)))).
  { unfold mbind, se_bind, instance_of. rewrite Hi. reflexivity. }
  destruct (lru σ lru_mediaurls) as [[k x]|] eqn:E; [|exact Hmiss].
  destruct (Nat.eqb k self) eqn:Hk; [|exact Hmiss].
  apply Nat.eqb_eq in Hk. destruct (Hslot k x eq_refl Hk).
Qed.

End MediaFilename.

(** C9, as amended.  Let [mediaurls] of an instance be set when its
    [mediafilename] has not been read before.  If the value is a list of
    URL strings, or a single URL string, the first read of [mediafilename]
    returns one entry per URL, in the same order: a file name of its URL, or
    the empty string when the URL has none; [mediaurls], read when the slot
    of its getter holds no older entry of the instance, returns these URLs;
    and every later read of [mediafilename] returns the same list, whatever
    is assigned, read or created in between.  If the value is, or holds, a
    URL that is no string, the read of [mediafilename] raises [TypeError].
    A new instance, with no media set, has the empty [mediafilename]. *)
Theorem mediafilename_follows_mediaurls `{Runtime} (σ : store) (self : nat)
    (i : instance) (v : pyval) :
  heap σ !! self = Some i ->
  cache i c_mediafilename = None ->
  let σ1 := exec (Assign self (set_mediaurls v)) σ in
  (forall urls : list pystr,
     v = VList (VStr <$> urls) \/ (exists u, urls = [u] /\ v = VStr u) ->
     exists names σ2,
       read (Cached c_mediafilename) self σ1
       = (Ok (VList (VStr <$> names)), σ2) /\
       length names = length urls /\
       (forall n u, urls !! n = Some u ->
          exists name, names !! n = Some name /\
            (filename_of u name \/
             (name = [] /\ ~ exists x, filename_of u x))) /\
       ((forall k x, lru σ lru_mediaurls = Some (k, x) -> k <> self) ->
        fst (read (Lru lru_mediaurls) self σ2) = Ok (VList (VStr <$> urls))) /\
       (forall ops,
          fst (read (Cached c_mediafilename) self (run ops σ2))
          = Ok (VList (VStr <$> names)))) /\
  ((exists x, x ∈ match v with VList l => l | _ => [v] end /\
              forall s, x <> VStr s) ->
   read (Cached c_mediafilename) self σ1 = (Raise TypeError, σ1)) /\
  (forall url σ0 new σ',
     alloc url σ0 = (Ok new, σ') ->
     fst (read (Cached c_mediafilename) new σ') = Ok (VList [])).
Proof.
  intros Hi Hc σ1. subst σ1. rewrite (exec_assign σ self i _ Hi).
  set (i1 := {| attrs := set_mediaurls v (attrs i); cache := cache i |}).
  set (σ1 := {| heap := <[self := i1]> (heap σ); lru := lru σ |}).
  assert (Hi1 : heap σ1 !! self = Some i1) by apply lookup_insert_eq.
  assert (Hc1 : cache i1 c_mediafilename = None) by exact Hc.
  split; [|split].
  - intros urls Hv.
    assert (Hraw : _mediaurls (attrs i1) = VStr <$> urls).
    { destruct Hv as [-> | (u & -> & ->)]; reflexivity. }
    exists (filename_text <$> urls). eexists.
    cbn [read]. rewrite (get_mediafilename_first σ1 self i1 Hi1 Hc1).
    rewrite (mediafilename_of_strings _ urls Hraw).
    split; [reflexivity|]. split; [apply length_fmap|]. split; [|split].
    + intros n u Hu. exists (filename_text u). split.
      * rewrite list_lookup_fmap, Hu. reflexivity.
      * apply filename_text_spec.
    + intros Hslot. rewrite <- Hraw.
      match goal with
      | |- fst (get_mediaurls self ?s) = _ =>
          apply (get_mediaurls_miss s self
                   {| attrs := attrs i1;
                      cache := fun n => if decide (n = c_mediafilename)
                                        then Some (VList (VStr <$> (filename_text <$> urls)))
                                        else cache i1 n |})
      end.
      * apply lookup_insert_eq.
      * exact Hslot.
    + intros ops.
      match goal with
      | |- fst (get_mediafilename self (run ops ?s)) = _ =>
          change (get_mediafilename self (run ops s))
            with (read (Cached c_mediafilename) self (run ops s));
          rewrite (read_cached_hit c_mediafilename self
                     (VList (VStr <$> (filename_text <$> urls))) (run ops s));
          [reflexivity|apply holds_run]
      end.
      eexists. split; [apply lookup_insert_eq|]. reflexivity.
  - intros Hx. cbn [read]. rewrite (get_mediafilename_first σ1 self i1 Hi1 Hc1).
    rewrite mediafilename_of_other; [reflexivity|exact Hx].
  - intros url σ0 new σ' [= <- <-]. cbn [read].
    rewrite (get_mediafilename_first _ _
               {| attrs := new_feed url; cache := fun _ => None |});
      [reflexivity|apply lookup_insert_eq|reflexivity].
Qed.

Lemma mediafilename_follows_mediaurls_witness :
  exists names σ2,
    @read basic_latin (Cached c_mediafilename) 0%nat
      (@exec basic_latin
         (Assign 0 (set_mediaurls (VStr (lit "http://x/a.jpg"))))
         (@exec basic_latin (New (lit "u")) empty_store))
    = (Ok (VList (VStr <$> names)), σ2) /\
    length names = 1%nat.
Proof.
  destruct (@mediafilename_follows_mediaurls basic_latin
              (@exec basic_latin (New (lit "u")) empty_store) 0%nat
              {| attrs := new_feed (lit "u"); cache := fun _ => None |}
              (VStr (lit "http://x/a.jpg")))
    as [Hstr _]; [vm_compute; reflexivity|reflexivity|].
  destruct (Hstr [lit "http://x/a.jpg"]) as (names & σ2 & Hread & Hlen & _).
  - right. eexists. split; reflexivity.
  - exists names, σ2. split; [exact Hread|exact Hlen].
Defined.

(** C9 as stated fails.  When [mediafilename] is read before [mediaurls]
    is set to a URL, it stays the empty list while [mediaurls] holds the
    URL; and when [mediaurls] is set to [None], as a payload without a
    picture sets it, the read of [mediafilename] raises [TypeError]. *)
Lemma mediafilename_read_before_mediaurls :
  let σ := @run basic_latin
             [New (lit "u"); Read (Cached c_mediafilename) 0;
              Assign 0 (set_mediaurls (VStr (lit "http://x/a.jpg")))]
             empty_store in
  fst (@read basic_latin (Lru lru_mediaurls) 0%nat σ)
  = Ok (VList [VStr (lit "http://x/a.jpg")]) /\
  fst (@read basic_latin (Cached c_mediafilename) 0%nat σ) = Ok (VList []) /\
  fst (@read basic_latin (Cached c_mediafilename) 0%nat
         (@run basic_latin [New (lit "u"); Assign 0 (set_mediaurls VNone)]
            empty_store))
  = Raise TypeError.
Proof. cbv zeta. repeat split; vm_compute; reflexivity. Qed.

(** ** [safe_parser] *)

Lemma exn_IntegrityError_dec (e : exn) :
  {e = IntegrityError} + {e <> IntegrityError}.
Proof. destruct e; (left; reflexivity) || (right; discriminate). Defined.

Lemma safe_parser_ok {S A} (func : SE S A) s a s1 :
  func s = (Ok a, s1) -> safe_parser func s = (Ok (Value a), s1).
Proof.
  intros H. unfold safe_parser, try_except, mbind, se_bind. rewrite H.
  reflexivity.
Qed.

Lemma safe_parser_other {S A} (func : SE S A) s e s1 :
  func s = (Raise e, s1) -> e <> IntegrityError ->
  safe_parser func s = (Ok (Error e), s1).
Proof.
  intros H He. unfold safe_parser, try_except, mbind, se_bind. rewrite H.
  destruct e; try reflexivity. congruence.
Qed.

Lemma safe_parser_retry {S A} (func : SE S A) s s1 :
  func s = (Raise IntegrityError, s1) ->
  safe_parser func s =
  (let (r, s2) := func s1 in
   (Ok (match r with Ok a => Value a | Raise e => Error e end), s2)).
Proof.
  intros H. unfold safe_parser, try_except, mbind, se_bind. rewrite H.
  cbn [is_IntegrityError]. destruct (func s1) as [[a|e] s2]; reflexivity.
Qed.

Lemma safe_parser_total {S A} (func : SE S A) s :
  exists v s', safe_parser func s = (Ok v, s').
Proof.
  destruct (func s) as [[a|e] s1] eqn:H.
  - erewrite safe_parser_ok by exact H. eauto.
  - destruct (exn_IntegrityError_dec e) as [->|He].
    + erewrite safe_parser_retry by exact H. destruct (func s1) as [r s2]. eauto.
    + erewrite safe_parser_other by eassumption. eauto.
Qed.

Lemma counted_run {S A} (func : SE S A) n s :
  counted func (n, s) = (fst (func s), (Datatypes.S n, snd (func s))).
Proof. unfold counted. simpl. destruct (func s); reflexivity. Qed.

(** C4.  A wrapped resolver never raises: a value of the body is returned
    as it is and an exception of the body as a value.  When the first run
    of the body raises [IntegrityError] the body is run once more, from the
    state the first run left, and whatever the second run gives is
    returned; any other exception is returned after the single run.  The
    body is run twice in the first case and once in all others. *)
Theorem safe_parser_returns_errors_and_retries_once {S A}
    (func : SE S A) (s : S) :
  (exists v s', safe_parser func s = (Ok v, s')) /\
  (forall a s1, func s = (Ok a, s1) ->
     safe_parser func s = (Ok (Value a), s1)) /\
  (forall e s1, func s = (Raise e, s1) -> e <> IntegrityError ->
     safe_parser func s = (Ok (Error e), s1)) /\
  (forall s1, func s = (Raise IntegrityError, s1) ->
     safe_parser func s =
     (let (r, s2) := func s1 in
      (Ok (match r with Ok a => Value a | Raise e => Error e end), s2))) /\
  fst (snd (safe_parser (counted func) (O, s)))
  = if raises_IntegrityError (func s) then 2%nat else 1%nat.
Proof.
  split; [apply safe_parser_total|].
  split; [intros; apply safe_parser_ok; assumption|].
  split; [intros; apply safe_parser_other; assumption|].
  split; [intros; apply safe_parser_retry; assumption|].
  destruct (func s) as [[a|e] s1] eqn:H.
  - rewrite (safe_parser_ok (counted func) (O, s) a (1%nat, s1))
      by (rewrite counted_run, H; reflexivity).
    reflexivity.
  - destruct (exn_IntegrityError_dec e) as [->|He].
    + rewrite (safe_parser_retry (counted func) (O, s) (1%nat, s1))
        by (rewrite counted_run, H; reflexivity).
      rewrite counted_run. reflexivity.
    + rewrite (safe_parser_other (counted func) (O, s) e (1%nat, s1))
        by (rewrite ?counted_run, ?H; (reflexivity || exact He)).
      destruct e; try reflexivity. congruence.
Qed.

(** ** The recorded calls *)

Section Calls.
Context {RT : Runtime} {OUT : Outside}.

Lemma extends_refl w : extends w w.
Proof. exists []. reflexivity. Qed.

Lemma extends_trans w1 w2 w3 : extends w1 w2 -> extends w2 w3 -> extends w1 w3.
Proof.
  intros [l1 H1] [l2 H2]. exists (l2 ++ l1). rewrite H2, H1, app_assoc. reflexivity.
Qed.

Lemma extends_In c w w' : extends w w' -> In c (calls w) -> In c (calls w').
Proof. intros [l ->] H. apply in_or_app. auto. Qed.

Lemma silent_grows {A} (m : SE world A) : silent m -> grows m.
Proof. intros H w r w' E. exists []. simpl. eapply H, E. Qed.

Lemma silent_ret {A} (a : A) : silent (mret a).
Proof. intros w r w' [= <- <-]. reflexivity. Qed.

Lemma silent_lift {A} (x : result A) : silent (lift x).
Proof. intros w r w' [= <- <-]. reflexivity. Qed.

Lemma silent_raise {A} e : silent (@raise world A e).
Proof. intros w r w' [= <- <-]. reflexivity. Qed.

Lemma silent_state : silent (@state world).
Proof. intros w r w' [= <- <-]. reflexivity. Qed.

Lemma silent_bind {A B} (m : SE world A) (f : A -> SE world B) :
  silent m -> (forall a, silent (f a)) -> silent (m ≫= f).
Proof.
  intros Hm Hf w r w' H.
  apply bind_inv in H as [(a & w1 & H1 & H2) | (e & H1 & _)].
  - rewrite (Hf _ _ _ _ H2). eapply Hm, H1.
  - eapply Hm, H1.
Qed.

Lemma grows_bind {A B} (m : SE world A) (f : A -> SE world B) :
  grows m -> (forall a, grows (f a)) -> grows (m ≫= f).
Proof.
  intros Hm Hf w r w' H.
  apply bind_inv in H as [(a & w1 & H1 & H2) | (e & H1 & _)].
  - eapply extends_trans; [eapply Hm, H1|eapply Hf, H2].
  - eapply Hm, H1.
Qed.

Lemma silent_update (g : world -> world) :
  (forall w, calls (g w) = calls w) -> silent (update g).
Proof. intros Hg w r w' [= _ <-]. apply Hg. Qed.

Lemma silent_now : silent now.
Proof. apply silent_bind; [apply silent_state|intros; apply silent_ret]. Qed.

Lemma silent_get url params : silent (get url params).
Proof.
  intros w r w'. unfold get. destruct (client_get _ _ _). intros [= _ <-]. reflexivity.
Qed.

Lemma silent_publish_page page title user uid :
  silent (publish_page page title user uid).
Proof.
  intros w r w'. unfold publish_page. destruct (publish _ _ _ _ _).
  intros [= _ <-]. reflexivity.
Qed.

Lemma silent_get_or_none t qs : silent (get_or_none t qs).
Proof.
  unfold get_or_none. apply silent_bind; [apply silent_state|]. intros w.
  destruct (List.filter _ _) as [|ir [|ir' l]];
    auto using silent_ret, silent_raise.
Qed.

Lemma silent_save_existing t i col v : silent (save_existing t i col v).
Proof. apply silent_update. reflexivity. Qed.

Lemma silent_create t cs : silent (create t cs).
Proof.
  unfold create. apply silent_bind; [apply silent_state|]. intros w.
  destruct (db_conflict _ _ _); [apply silent_raise|].
  apply silent_update. reflexivity.
Qed.

Lemma silent_lookup t q ttl : silent (lookup t q ttl).
Proof.
  unfold lookup, fresh_since.
  repeat first [apply silent_now | apply silent_ret | apply silent_get_or_none
               | apply silent_bind; [|intros ?]].
Qed.

Lemma silent_attr col c : silent (attr col c).
Proof. unfold attr. destruct (column col (cols c)); auto using silent_ret, silent_raise. Qed.

Lemma silent_write_back t cache q col v fresh :
  silent (write_back t cache q col v fresh).
Proof.
  unfold write_back. destruct cache; [apply silent_ret|].
  apply silent_bind; [apply silent_get_or_none|]. intros [[i c]|].
  - apply silent_save_existing.
  - apply silent_create.
Qed.

Lemma silent_required_attr page q key err : silent (required_attr page q key err).
Proof.
  unfold required_attr. destruct (soup_find page q); [|apply silent_raise].
  apply silent_bind; [apply silent_lift|]. intros v.
  destruct (truthy v); auto using silent_ret, silent_raise.
Qed.

Lemma try_except_inv {S A} (body : SE S A) handled handler s r s' :
  try_except body handled handler s = (r, s') ->
  body s = (r, s') \/
  exists e s1, body s = (Raise e, s1) /\ handler e s1 = (r, s').
Proof.
  unfold try_except. destruct (body s) as [[a|e] s1]; [auto|].
  destruct (handled e); eauto.
Qed.

Lemma silent_try_except {A} (body : SE world A) handled handler :
  silent body -> (forall e, silent (handler e)) ->
  silent (try_except body handled handler).
Proof.
  intros Hb Hh w r w' H.
  apply try_except_inv in H as [H | (e & w1 & H1 & H2)].
  - eapply Hb, H.
  - rewrite (Hh _ _ _ _ H2). eapply Hb, H1.
Qed.

Lemma grows_try_except {A} (body : SE world A) handled handler :
  grows body -> (forall e, grows (handler e)) ->
  grows (try_except body handled handler).
Proof.
  intros Hb Hh w r w' H.
  apply try_except_inv in H as [H | (e & w1 & H1 & H2)].
  - eapply Hb, H.
  - eapply extends_trans; [eapply Hb, H1|eapply Hh, H2].
Qed.

Lemma silent_safe_parser {A} (func : SE world A) :
  silent func -> silent (safe_parser func).
Proof.
  intros Hf. unfold safe_parser. apply silent_try_except.
  - apply silent_bind; [|intros; apply silent_ret].
    apply silent_try_except; auto.
  - intros e. apply silent_ret.
Qed.

Lemma grows_safe_parser {A} (func : SE world A) :
  grows func -> grows (safe_parser func).
Proof.
  intros Hf. unfold safe_parser. apply grows_try_except.
  - apply grows_bind; [|intros; apply silent_grows, silent_ret].
    apply grows_try_except; auto.
  - intros e. apply silent_grows, silent_ret.
Qed.

Lemma grows_note c : grows (note c).
Proof. intros w r w' [= _ <-]. exists [c]. reflexivity. Qed.

End Calls.

(** One step of a proof that a computation is [silent], or [grows]. *)
Ltac silent_step :=
  first
    [ apply silent_ret | apply silent_lift | apply silent_raise
    | apply silent_now | apply silent_get | apply silent_lookup
    | apply silent_attr | apply silent_write_back | apply silent_publish_page
    | apply silent_required_attr | apply silent_get_or_none
    | apply silent_state
    | apply silent_bind; [|intros ?]
    | match goal with
      | |- silent (match ?x with _ => _ end) => destruct x
      | |- silent (if ?b then _ else _) => destruct b
      end ].

Ltac grows_step tac :=
  first
    [ tac
    | apply grows_note
    | apply silent_grows; solve [repeat silent_step]
    | apply grows_bind; [|intros ?]
    | match goal with
      | |- grows (match ?x with _ => _ end) => destruct x
      | |- grows (if ?b then _ else _) => destruct b
      end ].

Section CallsOfResolvers.
Context {RT : Runtime} {OUT : Outside}.

Lemma silent_reply_body o rt : silent (reply_body o rt).
Proof. unfold reply_body. repeat silent_step. Qed.

Lemma reply_parser_calls o rt w r w' :
  reply_parser o rt w = (r, w') ->
  calls w' = Invoked reply [o; rt] :: calls w /\ exists v, r = Ok v.
Proof.
  unfold reply_parser. intros H.
  apply bind_inv in H as [([] & w1 & H1 & H2) | (e & H1 & _)]; [|discriminate].
  injection H1 as <-.
  destruct (safe_parser_total (reply_body o rt)
              {| db := db w; clock := clock w; outside := outside w;
                 calls := Invoked reply [o; rt] :: calls w |}) as (v & w2 & Hs).
  pose proof (silent_safe_parser _ (silent_reply_body o rt) _ _ _ Hs) as Hc.
  unfold mbind, se_bind in H2. rewrite Hs in H2. injection H2 as <- <-.
  split; [exact Hc|eauto].
Qed.

Lemma grows_reply_parser o rt : grows (reply_parser o rt).
Proof.
  intros w r w' H. apply reply_parser_calls in H as [H _].
  exists [Invoked reply [o; rt]]. exact H.
Qed.

Lemma grows_audio_parser url : grows (audio_parser url).
Proof.
  unfold audio_parser. apply grows_bind; [apply grows_note|]. intros _.
  apply grows_safe_parser. unfold audio_body.
  repeat grows_step ltac:(apply grows_reply_parser).
Qed.

Lemma grows_live_parser url : grows (live_parser url).
Proof.
  unfold live_parser. apply grows_bind; [apply grows_note|]. intros _.
  apply grows_safe_parser. unfold live_body.
  repeat grows_step ltac:(apply grows_reply_parser).
Qed.

Lemma grows_bangumi_stage url f epid params :
  grows (bangumi_stage url f epid params).
Proof. unfold bangumi_stage. repeat grows_step ltac:(fail). Qed.

Lemma grows_video_body url : grows (video_body url).
Proof.
  unfold video_body.
  repeat grows_step ltac:(first [apply grows_reply_parser|apply grows_bangumi_stage]).
Qed.

Lemma grows_video_parser url : grows (video_parser url).
Proof.
  unfold video_parser. apply grows_bind; [apply grows_note|]. intros _.
  apply grows_safe_parser, grows_video_body.
Qed.

Lemma grows_read_parser url : grows (read_parser url).
Proof.
  unfold read_parser. apply grows_bind; [apply grows_note|]. intros _.
  apply grows_safe_parser. unfold read_body.
  repeat grows_step ltac:(apply grows_reply_parser).
Qed.

End CallsOfResolvers.

(** A value returned by a wrapped resolver is the value of a run of its
    body that ended in the final state. *)
Lemma safe_parser_value {S A} (func : SE S A) s a s' :
  safe_parser func s = (Ok (Value a), s') -> exists s0, func s0 = (Ok a, s').
Proof.
  intros H. destruct (func s) as [[a0|e] s1] eqn:Hf.
  - rewrite (safe_parser_ok _ _ _ _ Hf) in H. injection H as <- <-. eauto.
  - destruct (exn_IntegrityError_dec e) as [->|He].
    + rewrite (safe_parser_retry _ _ _ Hf) in H.
      destruct (func s1) as [[a1|e1] s2] eqn:Hf1; [|discriminate].
      injection H as <- <-. eauto.
    + rewrite (safe_parser_other _ _ _ _ Hf He) in H. discriminate.
Qed.

Section DynamicCalls.
Context {RT : Runtime} {OUT : Outside}.

Lemma grows_dynamic_fetch url : grows (dynamic_fetch url).
Proof. unfold dynamic_fetch. repeat grows_step ltac:(fail). Qed.

Lemma grows_dynamic_extra f : grows (dynamic_extra f).
Proof.
  unfold dynamic_extra.
  repeat grows_step ltac:(first [ apply grows_audio_parser | apply grows_live_parser
                                | apply grows_video_parser | apply grows_read_parser ]).
Qed.

Lemma dynamic_body_reply_call url w fo w' :
  dynamic_body url w = (Ok fo, w') ->
  exists d o ft,
    fo = Dynamic d /\ oid d = Ok o /\ forward_type d = Ok ft /\
    head (calls w') = Some (Invoked reply [o; reply_type_of ft]).
Proof.
  unfold dynamic_body. intros H.
  apply bind_inv in H as [(f0 & w0 & _ & H) | (e & _ & ?)]; [|discriminate].
  apply bind_inv in H as [(f1 & w1 & _ & H) | (e & _ & ?)]; [|discriminate].
  apply bind_inv in H as [(f2 & w2 & _ & H) | (e & _ & ?)]; [|discriminate].
  apply bind_inv in H as [(o & w3 & Ho & H) | (e & _ & ?)]; [|discriminate].
  apply bind_inv in H as [(rt & w4 & Hrt & H) | (e & _ & ?)]; [|discriminate].
  apply bind_inv in H as [(rc & w5 & Hrc & H) | (e & _ & ?)]; [|discriminate].
  injection H as <- <-. injection Ho as Ho <-. injection Hrt as Hrt <-.
  apply reply_parser_calls in Hrc as [Hc _].
  unfold reply_type in Hrt. destruct (forward_type f2) as [ft|] eqn:Hft; [|discriminate].
  injection Hrt as <-.
  exists (on_dfeed (set_replycontent rc) f2), o, ft.
  repeat split; [exact Ho|exact Hft|]. rewrite Hc. reflexivity.
Qed.

Lemma dynamic_parser_reply_call url w fo w' :
  dynamic_parser url w = (Ok (Value fo), w') ->
  exists d o ft,
    fo = Dynamic d /\ oid d = Ok o /\ forward_type d = Ok ft /\
    head (calls w') = Some (Invoked reply [o; reply_type_of ft]).
Proof.
  unfold dynamic_parser. intros H.
  apply bind_inv in H as [([] & w1 & _ & H) | (e & _ & ?)]; [|discriminate].
  apply safe_parser_value in H as [w0 H].
  eapply dynamic_body_reply_call, H.
Qed.

End DynamicCalls.

(** ** The table of [reply_type] *)

Lemma existsb_range (z lo hi : Z) :
  existsb (Z.eqb z) (range lo hi) = ((lo <=? z) && (z <? hi))%Z.
Proof.
  unfold range. apply eq_true_iff_eq. rewrite existsb_exists, andb_true_iff.
  rewrite Z.leb_le, Z.ltb_lt. split.
  - intros (x & Hx & E). apply Z.eqb_eq in E as <-.
    apply in_map_iff in Hx as (i & <- & Hi). apply in_seq in Hi. lia.
  - intros [H1 H2]. exists z. split; [|apply Z.eqb_refl].
    apply in_map_iff. exists (Z.to_nat (z - lo)). split; [lia|].
    apply in_seq. lia.
Qed.

Lemma py_in_int (z : Z) (l : list Z) : py_in (VInt z) l = existsb (Z.eqb z) l.
Proof. reflexivity. Qed.

Lemma existsb_app_Z (z : Z) (l1 l2 : list Z) :
  existsb (Z.eqb z) (l1 ++ l2) = existsb (Z.eqb z) l1 || existsb (Z.eqb z) l2.
Proof. apply existsb_app. Qed.

Lemma reply_type_of_int (z : Z) :
  reply_type_of (VInt z) =
  if (z =? 2)%Z then VInt 11
  else if (z =? 16)%Z then VInt 5
  else if (z =? 64)%Z then VInt 12
  else if (z =? 256)%Z then VInt 14
  else if ((z =? 8) || (z =? 512) || ((4000 <=? z) && (z <? 4200)))%Z then VInt 1
  else if ((z =? 1) || (z =? 4) || ((4200 <=? z) && (z <? 4300))
           || ((2048 <=? z) && (z <? 2100)))%Z then VInt 17
  else VNone.
Proof.
  unfold reply_type_of. rewrite !py_in_int. cbn [existsb py_eq_int].
  rewrite existsb_app_Z, !existsb_range, !orb_assoc. reflexivity.
Qed.

(** ** What a computation returns *)

Lemma lift_inv {S A} (x : result A) (s s' : S) r :
  lift x s = (r, s') -> x = r /\ s' = s.
Proof. intros [= <- <-]. auto. Qed.

Lemma returns_ret {S A} (a : A) (Q : A -> Prop) : Q a -> returns (S:=S) (mret a) Q.
Proof. intros HQ s a' s' [= <- _]. exact HQ. Qed.

Lemma returns_raise {S A} e (Q : A -> Prop) : returns (S:=S) (raise e) Q.
Proof. intros s a s' [=]. Qed.

Lemma returns_lift {S A} (x : result A) (Q : A -> Prop) :
  (forall a, x = Ok a -> Q a) -> returns (S:=S) (lift x) Q.
Proof. intros HQ s a s' H. apply lift_inv in H as [H _]. auto. Qed.

Lemma returns_bind {S A B} (m : SE S A) (k : A -> SE S B) (Q : B -> Prop) :
  (forall a, returns (k a) Q) -> returns (m ≫= k) Q.
Proof.
  intros Hk s b s' H.
  apply bind_inv in H as [(a & s1 & _ & H) | (e & _ & ?)]; [|discriminate].
  eapply Hk, H.
Qed.

Lemma returns_bind_strong {S A B} (m : SE S A) (k : A -> SE S B)
    (P : A -> Prop) (Q : B -> Prop) :
  returns m P -> (forall a, P a -> returns (k a) Q) -> returns (m ≫= k) Q.
Proof.
  intros Hm Hk s b s' H.
  apply bind_inv in H as [(a & s1 & H1 & H) | (e & _ & ?)]; [|discriminate].
  eapply Hk; [eapply Hm, H1|exact H].
Qed.

Ltac returns_step :=
  first
    [ apply returns_raise
    | apply returns_ret
    | apply returns_bind; intros ?
    | match goal with
      | |- returns (match ?x with _ => _ end) _ => destruct x
      | |- returns (if ?b then _ else _) _ => destruct b
      end ].

Section DynamicFields.
Context {RT : Runtime} {OUT : Outside}.

Lemma copy_from_keeps fu f f' :
  copy_from fu f = Ok f' ->
  detailcontent f' = detailcontent f /\ _dcontent f' = _dcontent f.
Proof.
  unfold copy_from. destruct (fu_user fu); [|discriminate]. simpl.
  destruct (fu_base fu); [|discriminate]. simpl. intros [= <-]. auto.
Qed.

Lemma dynamic_forward_keeps f f' :
  dynamic_forward f = Ok f' ->
  detailcontent f' = detailcontent f /\ _dcontent f' = _dcontent f.
Proof.
  unfold dynamic_forward. destruct (has_forward f) as [[]|]; simpl;
    [|intros [= <-]; auto|discriminate].
  destruct (forward_card f); simpl; [|discriminate].
  repeat match goal with
         | |- context [get2 ?a ?b ?c] => destruct (get2 a b c); simpl; [|discriminate]
         end.
  intros [= <-]. auto.
Qed.

Lemma dynamic_extra_detail f :
  returns (dynamic_extra f) (fun f' => detailcontent f' = detailcontent f).
Proof.
  unfold dynamic_extra.
  repeat first
    [ reflexivity
    | assumption
    | progress cbn [detailcontent on_dfeed set_dcontent set_duser]; assumption
    | apply returns_lift; intros ? ?Hc; apply copy_from_keeps in Hc as [Hc _];
      rewrite Hc; cbn [snd] in *; assumption
    | eapply (returns_bind_strong _ _
                (fun f' : dynamic => detailcontent f' = detailcontent f));
      [|intros ? ?]
    | eapply (returns_bind_strong _ _
                (fun p : returned feed_obj * dynamic =>
                   detailcontent (snd p) = detailcontent f));
      [|intros [? ?] ?]
    | returns_step ].
Qed.

Lemma origin_type_ext (a b : dynamic) :
  detailcontent a = detailcontent b -> origin_type a = origin_type b.
Proof.
  intros E. unfold origin_type, has_forward, forward_type, detail_card.
  rewrite E. reflexivity.
Qed.

Lemma card_ext (a b : dynamic) :
  detailcontent a = detailcontent b -> card a = card b.
Proof.
  intros E. unfold card, has_forward, forward_card, detail_card.
  rewrite E. reflexivity.
Qed.

End DynamicFields.

(** ** Membership in the lists of type codes *)

Lemma py_in_app (v : pyval) (l1 l2 : list Z) :
  py_in v (l1 ++ l2) = py_in v l1 || py_in v l2.
Proof. apply existsb_app. Qed.

Lemma py_in_bool (b : bool) (l : list Z) :
  py_in (VBool b) l = py_in (VInt (if b then 1 else 0)) l.
Proof. reflexivity. Qed.

Lemma py_in_other (v : pyval) (l : list Z) :
  (forall z, v <> VInt z) -> (forall b, v <> VBool b) -> py_in v l = false.
Proof.
  intros Hz Hb. induction l as [|n l IH]; [reflexivity|]. simpl. rewrite IH.
  destruct v; try reflexivity; [destruct (Hb b)|destruct (Hz z)]; reflexivity.
Qed.

Lemma py_in_VIDEO (v : pyval) :
  py_in v VIDEO = true ->
  exists z, v = VInt z /\ (z = 8 \/ z = 512 \/ 4000 <= z < 4200)%Z.
Proof.
  assert (Hint : forall z, py_in (VInt z) VIDEO = true ->
                           (z = 8 \/ z = 512 \/ 4000 <= z < 4200)%Z).
  { intros z. unfold VIDEO. rewrite py_in_int. cbn [existsb].
    rewrite existsb_range. lia. }
  destruct v as [|b|z| | | |]; try (rewrite py_in_other; [discriminate| |]; discriminate).
  - rewrite py_in_bool. intros H. apply Hint in H. destruct b; lia.
  - intros H. eauto.
Qed.

Lemma VIDEO_dispatch (z : Z) :
  (z = 8 \/ z = 512 \/ 4000 <= z < 4200)%Z ->
  py_in (VInt z) (MUSIC ++ VIDEO ++ LIVE ++ ARTICLE) = true /\
  py_in (VInt z) MUSIC = false /\ py_in (VInt z) LIVE = false /\
  py_in (VInt z) VIDEO = true.
Proof.
  intros Hz. rewrite !py_in_app. unfold MUSIC, VIDEO, LIVE, ARTICLE.
  rewrite !py_in_int. cbn [existsb]. rewrite !existsb_range.
  repeat split; lia.
Qed.

Tactic Notation "inv_bind" hyp(H) "as" ident(x) ident(w) ident(H1) :=
  apply bind_inv in H as [(x & w & H1 & H) | (? & _ & ?)]; [|discriminate].

Ltac inv_lift H :=
  let E := fresh in apply lift_inv in H as [H E]; try subst.

Section VideoUpdate.
Context {RT : Runtime} {OUT : Outside}.

Lemma video_parser_recorded url w r w' :
  video_parser url w = (r, w') -> In (Invoked video_r [VStr url]) (calls w').
Proof.
  unfold video_parser. intros H.
  apply bind_inv in H as [([] & w1 & H1 & H) | (e & H1 & _)]; [|discriminate].
  injection H1 as <-.
  eapply extends_In; [eapply (grows_safe_parser _ (grows_video_body url)), H|].
  simpl. auto.
Qed.

Lemma dynamic_extra_video f w f1 w1 z :
  dynamic_extra f w = (Ok f1, w1) ->
  origin_type f = Ok (VInt z) -> (z = 8 \/ z = 512 \/ 4000 <= z < 4200)%Z ->
  exists c id nd fu text,
    card f = Ok c /\ py_get c "aid" = Ok id /\ py_get c "new_desc" = Ok nd /\
    video_parser (lit "b23.tv/av" ++ py_str id) w = (Ok fu, w1) /\
    (if truthy nd then text = nd else fu_content fu = Ok text) /\
    copy_from fu (set_dcontent text f) = Ok f1.
Proof.
  intros H Hot Hz. unfold dynamic_extra in H.
  inv_bind H as ot w0 H0. inv_lift H0. rewrite Hot in H0. injection H0 as <-.
  destruct (VIDEO_dispatch z Hz) as (E1 & E2 & E3 & E4).
  rewrite E1, E2, E3, E4 in H.
  inv_bind H as p w2 Hp. destruct p as [fu f'].
  inv_lift H.
  inv_bind Hp as c w3 Hc. inv_lift Hc.
  inv_bind Hp as aid_ w4 Hid. inv_lift Hid.
  inv_bind Hp as fu' w5 Hv.
  inv_bind Hp as nd w6 Hnd. inv_lift Hnd.
  inv_bind Hp as cont w7 Hcontent.
  injection Hp as <- <- <-.
  exists c, aid_, nd, fu', cont.
  split; [assumption|]. split; [assumption|]. split; [assumption|].
  destruct (truthy nd); inv_lift Hcontent;
    (split; [assumption|]; split; [congruence|assumption]).
Qed.

End VideoUpdate.

(** ** The claims about the resolvers *)

Section Claims.

Lemma lookup_within_window `{Runtime} `{Outside} t (q : Q) ttl w i c w' :
  lookup t q ttl w = (Ok (Some (i, c)), w') ->
  w' = w /\ q c = true /\ (clock w - timeout ttl <= created c)%Z.
Proof.
  unfold lookup, fresh_since, now, get_or_none, mbind, se_bind, state, mret, se_ret.
  destruct (List.filter _ _) as [|ir [|ir' l]] eqn:E; try discriminate.
  intros [= -> <-]. split; [reflexivity|].
  assert (Hin : In (i, c) (List.filter
            (fun ir : nat * row =>
               forallb (fun q0 : Q => q0 (snd ir))
                       [q; created_gte (clock w - timeout ttl)])
            (imap pair (db w t)))) by (rewrite E; left; reflexivity).
  apply filter_In in Hin as [_ Hq]. cbn [forallb snd] in Hq.
  apply andb_true_iff in Hq as [Hq Hc]. apply andb_true_iff in Hc as [Hc _].
  split; [exact Hq|]. unfold created_gte in Hc. lia.
Qed.

(** C1, as amended.  The reply-type code of a status update follows from
    its [forward_type], the type of the top-level card, by the table
    2 -> 11, 16 -> 5, 64 -> 12, 256 -> 14, 8, 512 and 4000-4199 -> 1,
    1, 4, 4200-4299 and 2048-2099 -> 17, and is [None] otherwise; when the
    update is resolved, the comment resolver was last invoked with the
    update's [oid] and exactly that code. *)
Theorem reply_type_follows_forward_type `{Runtime} `{Outside}
    (z : Z) (url : pystr) (w w' : world) (fo : feed_obj) :
  reply_type_of (VInt z) =
    (if (z =? 2)%Z then VInt 11
     else if (z =? 16)%Z then VInt 5
     else if (z =? 64)%Z then VInt 12
     else if (z =? 256)%Z then VInt 14
     else if ((z =? 8) || (z =? 512) || ((4000 <=? z) && (z <? 4200)))%Z
     then VInt 1
     else if ((z =? 1) || (z =? 4) || ((4200 <=? z) && (z <? 4300))
              || ((2048 <=? z) && (z <? 2100)))%Z then VInt 17
     else VNone) /\
  (dynamic_parser url w = (Ok (Value fo), w') ->
   exists d o ft,
     fo = Dynamic d /\ oid d = Ok o /\ forward_type d = Ok ft /\
     head (calls w') = Some (Invoked reply [o; reply_type_of ft])).
Proof. split; [apply reply_type_of_int|apply dynamic_parser_reply_call]. Qed.

Lemma run_pair {S A} (m : SE S A) (s : S) (r : result A) :
  fst (m s) = r -> m s = (r, snd (m s)).
Proof. intros <-. destruct (m s). reflexivity. Qed.

Lemma reply_type_follows_forward_type_witness :
  let r := @dynamic_parser example_runtime example_outside
             (lit "https://t.bilibili.com/123")
             (example_world no_rows (example_net 4 0 "WORD" with_comments)) in
  reply_type_of (VInt 4) = VInt 17 /\
  exists d,
    fst r = Ok (Value (Dynamic d)) /\
    head (calls (snd r)) = Some (Invoked reply [VInt 123; VInt 17]).
Proof.
  cbv zeta.
  set (u := lit "https://t.bilibili.com/123").
  set (W := example_world no_rows (example_net 4 0 "WORD" with_comments)).
  assert (E : exists d, fst (@dynamic_parser example_runtime example_outside u W)
                        = Ok (Value (Dynamic d)))
    by (eexists; vm_compute; reflexivity).
  destruct E as [d0 E].
  destruct (@reply_type_follows_forward_type example_runtime example_outside
              4 u W (snd (@dynamic_parser example_runtime example_outside u W))
              (Dynamic d0)) as [Htable Hcall].
  split; [exact Htable|]. exists d0. split; [exact E|].
  destruct (Hcall (run_pair _ _ _ E)) as (d & o & ft & Hd & Ho & Hft & Hc).
  injection Hd as <-. rewrite Hc.
  assert (E' : fst (@dynamic_parser example_runtime example_outside u W)
               = Ok (Value (Dynamic ?[d1]))) by (vm_compute; reflexivity).
  rewrite E in E'. injection E' as ->.
  vm_compute in Ho, Hft. injection Ho as <-. injection Hft as <-. reflexivity.
Defined.

(** C1 as stated fails: a status update of type 256 carries a track, which
    the claimed table sends to 11; the comment resolver is invoked with
    14. *)
Lemma audio_update_replies_with_14 :
  let r := @dynamic_parser example_runtime example_outside
             (lit "https://t.bilibili.com/123")
             (example_world no_rows (example_net 256 0 "MUSIC" with_comments)) in
  exists d,
    fst r = Ok (Value (Dynamic d)) /\
    @origin_type d = Ok (VInt 256) /\
    claimed_reply_type (VInt 256) = VInt 11 /\
    head (calls (snd r)) = Some (Invoked reply [VInt 456; VInt 14]).
Proof.
  cbv zeta. eexists. split; [vm_compute; reflexivity|].
  split; [vm_compute; reflexivity|]. split; vm_compute; reflexivity.
Qed.

(** C10.  When the [forward_type] of a status update is none of the
    values of the reply-type mapping, as 2024 and 4300-4399 are, its
    [reply_type] is [None]; when the update is resolved, the comment
    resolver was last invoked with the update's [oid] and [None]. *)
Theorem reply_parser_invoked_without_type `{Runtime} `{Outside}
    (z : Z) (url : pystr) (w w' : world) (d : dynamic) :
  ~ In z [1; 2; 4; 8; 16; 64; 256; 512]%Z ->
  ~ (2048 <= z < 2100)%Z -> ~ (4000 <= z < 4300)%Z ->
  forward_type d = Ok (VInt z) ->
  reply_type d = Ok VNone /\
  (dynamic_parser url w = (Ok (Value (Dynamic d)), w') ->
   exists o, oid d = Ok o /\
             head (calls w') = Some (Invoked reply [o; VNone])).
Proof.
  intros Hl H1 H2 Hft.
  assert (E : reply_type_of (VInt z) = VNone).
  { rewrite reply_type_of_int. simpl in Hl.
    repeat match goal with
           | |- context [(?a =? ?b)%Z] =>
               destruct (Z.eqb_spec a b); [exfalso; lia|]
           end.
    replace ((4000 <=? z) && (z <? 4200))%Z with false
      by (symmetry; apply andb_false_iff; lia).
    replace ((4200 <=? z) && (z <? 4300))%Z with false
      by (symmetry; apply andb_false_iff; lia).
    replace ((2048 <=? z) && (z <? 2100))%Z with false
      by (symmetry; apply andb_false_iff; lia).
    reflexivity. }
  split.
  - unfold reply_type. rewrite Hft. simpl. rewrite E. reflexivity.
  - intros Hrun. apply dynamic_parser_reply_call in Hrun
      as (d' & o & ft & [= <-] & Ho & Hft' & Hc).
    rewrite Hft in Hft'. injection Hft' as <-. rewrite E in Hc. eauto.
Qed.

Lemma reply_parser_invoked_without_type_witness :
  let r := @dynamic_parser example_runtime example_outside
             (lit "https://t.bilibili.com/123")
             (example_world no_rows (example_net 2024 0 "WORD" with_comments)) in
  exists d,
    fst r = Ok (Value (Dynamic d)) /\ @reply_type d = Ok VNone /\
    head (calls (snd r)) = Some (Invoked reply [VInt 456; VNone]).
Proof.
  cbv zeta.
  set (u := lit "https://t.bilibili.com/123").
  set (W := example_world no_rows (example_net 2024 0 "WORD" with_comments)).
  eexists.
  assert (E : fst (@dynamic_parser example_runtime example_outside u W)
              = Ok (Value (Dynamic ?[d]))) by (vm_compute; reflexivity).
  split; [exact E|].
  match type of E with _ = Ok (Value (Dynamic ?x)) => set (d0 := x) in * end.
  destruct (@reply_parser_invoked_without_type example_runtime example_outside
              2024 u W (snd (@dynamic_parser example_runtime example_outside u W)) d0)
    as [Hrt Hcall].
  - simpl. intuition discriminate.
  - lia.
  - lia.
  - vm_compute. reflexivity.
  - split; [exact Hrt|].
    destruct (Hcall (run_pair _ _ _ E)) as (o & Ho & Hc).
    vm_compute in Ho. injection Ho as <-. exact Hc.
Defined.

Lemma mapM_length {St A B} (f : A -> SE St B) (l : list A) :
  forall s r s', mapM f l s = (Ok r, s') -> length r = length l.
Proof.
  induction l as [|x l IH]; intros s r s' Hm.
  - injection Hm as <- _. reflexivity.
  - cbn [mapM] in Hm.
    apply bind_inv in Hm as [(y & s1 & _ & Hm) | (e & _ & ?)]; [|discriminate].
    apply bind_inv in Hm as [(k & s2 & Hk & Hm) | (e & _ & ?)]; [|discriminate].
    injection Hm as <- _. simpl. f_equal. eapply IH, Hk.
Qed.

(** When [biliparser] returns, it returns one result per URL. *)
Lemma biliparser_one_result_per_url `{Runtime} `{Outside} urls w l w' :
  biliparser urls w = (Ok l, w') -> length l = length (as_list urls).
Proof.
  unfold biliparser, gather. intros Hb.
  apply bind_inv in Hb as [(cb & w1 & Hg & Hb) | (e & _ & ?)]; [|discriminate].
  apply bind_inv in Hb as [(u & w2 & _ & Hb) | (e & _ & ?)]; [|discriminate].
  injection Hb as <- _. apply mapM_length in Hg. rewrite Hg. apply length_fmap.
Qed.

(** C5, on the failing input.  The room 1 alone is resolved to a feed.  In
    a batch with the video av170001, whose comment section is closed, the
    video is resolved to a feed that holds the error of the comment
    resolver as its [replycontent], the debug line of that feed raises, and
    the batch returns no list at all. *)
Theorem batch_fails_when_comments_are_closed :
  let w := example_world no_rows (example_net 4 0 "WORD" comments_closed) in
  (exists l, fst (@biliparser example_runtime example_outside
                    (Many [lit "live.bilibili.com/1"]) w) = Ok [Value (Live l)]) /\
  (exists v, fst (@feed_parser example_runtime example_outside
                    (with_scheme (lit "b23.tv/av170001")) w) = Ok (Value (Video v)) /\
             replycontent (v_feed v) = Some (VExc AttributeError)) /\
  fst (@biliparser example_runtime example_outside
         (Many [lit "b23.tv/av170001"; lit "live.bilibili.com/1"]) w)
  = Raise AttributeError.
Proof.
  cbv zeta. split; [eexists; vm_compute; reflexivity|].
  split; [eexists; split; vm_compute; reflexivity|].
  vm_compute. reflexivity.
Qed.

(** C6, on the failing input.  The article cv55 was mirrored 15 units ago,
    inside the window of 20 units of the article cache.  The lookup of
    [read_parser] filters with the window of the audio cache, 10 units, and
    finds nothing, where a lookup with the article cache's own window finds
    the row; the article is published again. *)
Theorem read_parser_filters_with_audio_ttl :
  let w := example_world mirrored_rows (example_net 4 0 "WORD" with_comments) in
  Forall (fun r => (clock w - @timeout example_outside read_cache <= created r)%Z)
         (db w read_cache) /\
  (exists c, fst (@lookup example_outside read_cache
                    (@Q_eq example_outside "read_id" (VInt 55)) read_cache w)
             = Ok (Some (O, c))) /\
  fst (@lookup example_outside read_cache
         (@Q_eq example_outside "read_id" (VInt 55)) audio_cache w) = Ok None /\
  exists f,
    fst (@read_parser example_runtime example_outside
           (lit "https://www.bilibili.com/read/cv55") w) = Ok (Value (Read_ f)) /\
    extra_markdown (r_feed f) = str "[Title](https://telegra.ph/new)".
Proof.
  cbv zeta. split; [repeat constructor; vm_compute; discriminate|].
  split; [eexists; vm_compute; reflexivity|].
  split; [vm_compute; reflexivity|].
  eexists. split; vm_compute; reflexivity.
Qed.

End Claims.

(** * Further properties of the code *)

(** ** Further properties of the text helpers *)

Lemma lstrip_split (s : pystr) :
  exists pre, s = pre ++ lstrip s /\ Forall (fun c => is_space c = true) pre.
Proof.
  induction s as [|c s (pre & E & Hpre)]; [exists []; auto|].
  simpl. destruct (is_space c) eqn:Hc.
  - exists (c :: pre). simpl. split; [congruence|auto].
  - exists []. auto.
Qed.

Lemma rstrip_split (s : pystr) :
  exists suf, s = rstrip s ++ suf /\ Forall (fun c => is_space c = true) suf.
Proof.
  destruct (lstrip_split (rev s)) as (pre & E & Hpre).
  exists (rev pre). split.
  - unfold rstrip. rewrite <- rev_app_distr, <- E, rev_involutive. reflexivity.
  - apply Forall_rev. exact Hpre.
Qed.

Lemma strip_head (s : pystr) (c : char) :
  head (strip s) = Some c -> is_space c = false.
Proof.
  unfold strip. destruct (rstrip_split (lstrip s)) as (suf & E & _).
  intros H. apply (lstrip_head s). rewrite E.
  destruct (rstrip (lstrip s)); [discriminate|exact H].
Qed.

Lemma crlf_to_lf_head (s : pystr) (c : char) :
  head (crlf_to_lf s) = Some c ->
  head s = Some c \/ (head s = Some CR /\ c = LF).
Proof.
  destruct s as [|a [|b s]]; simpl; auto.
  destruct ((a =? CR) && (b =? LF)) eqn:E; simpl; auto.
  apply andb_true_iff in E as [E _]. apply N.eqb_eq in E as ->.
  intros [= <-]. auto.
Qed.

Lemma shrink_text_head (s : pystr) (c : char) :
  head (shrink_text s) = Some c -> is_space c = false.
Proof.
  rewrite shrink_text_eq, squeeze_head. intros H.
  apply crlf_to_lf_head in H as [H | [H _]]; apply strip_head in H;
    [exact H|discriminate].
Qed.

Lemma shrink_text_shrunk (s : pystr) : shrunk (shrink_text s).
Proof.
  split; [apply shrink_text_head|]. split; [apply shrink_text_last|].
  apply shrink_text_shape.
Qed.

Lemma shrunk_nil : shrunk [].
Proof. repeat split; intros; discriminate. Qed.

Lemma shrink_line_shrunk (v : pyval) (t : pystr) :
  shrink_line v = Ok t -> shrunk t.
Proof.
  unfold shrink_line. destruct (truthy v); [|intros [= <-]; apply shrunk_nil].
  destruct v; try discriminate. intros [= <-]. apply shrink_text_shrunk.
Qed.

(** X1.  [shrink_line] returns the empty string for a value that counts as
    false, raises [AttributeError] for any other value that is not a string,
    and for a string returns a text that neither starts nor ends with a
    whitespace character and holds no two consecutive newlines. *)
Theorem shrink_line_shape (v : pyval) :
  match v with
  | VStr s => exists t, shrink_line v = Ok t /\ shrunk t
  | _ => shrink_line v = if truthy v then Raise AttributeError else Ok []
  end.
Proof.
  destruct v as [|b|z|s|l|d|e];
    try (unfold shrink_line; destruct (truthy _); reflexivity).
  destruct (shrink_line_str s) as [t Ht]. exists t. split; [exact Ht|].
  eapply shrink_line_shrunk, Ht.
Qed.


Lemma lstrip_id (s : pystr) :
  (forall c, head s = Some c -> is_space c = false) -> lstrip s = s.
Proof.
  destruct s as [|c s]; [reflexivity|]. intros H. simpl.
  rewrite (H c eq_refl). reflexivity.
Qed.

Lemma strip_id (s : pystr) :
  (forall c, head s = Some c -> is_space c = false) ->
  (forall c, last s = Some c -> is_space c = false) -> strip s = s.
Proof.
  intros Hh Hl. unfold strip, rstrip. rewrite (lstrip_id s Hh).
  rewrite lstrip_id; [apply rev_involutive|].
  intros c Hc. apply Hl.
  rewrite <- (last_rev (rev s)), rev_involutive in Hc. exact Hc.
Qed.

Lemma contains_cons2 (a b c : char) (s : pystr) :
  contains [a; b] (c :: s) =
  (a =? c) && match s with d :: _ => b =? d | [] => false end
  || contains [a; b] s.
Proof.
  destruct s as [|d s]; simpl; [reflexivity|]. rewrite andb_true_r. reflexivity.
Qed.

Lemma crlf_to_lf_id (s : pystr) :
  contains [CR; LF] s = false -> crlf_to_lf s = s.
Proof.
  induction s as [|c s IH]; [reflexivity|]. rewrite contains_cons2.
  intros H. apply orb_false_iff in H as [H1 H2].
  destruct s as [|d s]; [reflexivity|]. rewrite crlf_to_lf_cons.
  rewrite (N.eqb_sym c CR), (N.eqb_sym d LF), H1, (IH H2). reflexivity.
Qed.

Lemma squeeze_id (s : pystr) : newline_run s = false -> squeeze s = s.
Proof.
  unfold newline_run. induction s as [|c s IH]; [reflexivity|].
  rewrite contains_cons2.
  intros H. apply orb_false_iff in H as [H1 H2].
  destruct s as [|d s]; [reflexivity|]. rewrite squeeze_cons.
  rewrite (N.eqb_sym c LF), (N.eqb_sym d LF), H1, (IH H2). reflexivity.
Qed.

(** A text in the shape that [shrink_line] produces, with no line break
    written as CR LF, is left as it is. *)
Lemma shrink_text_fixed (t : pystr) :
  shrunk t -> contains [CR; LF] t = false -> shrink_text t = t.
Proof.
  intros (Hh & Hl & Hn) Hcr.
  rewrite shrink_text_eq, (strip_id t Hh Hl), (crlf_to_lf_id t Hcr).
  apply squeeze_id, Hn.
Qed.

Lemma Forall_lstrip (P : char -> Prop) (s : pystr) :
  Forall P s -> Forall P (lstrip s).
Proof.
  destruct (lstrip_split s) as (pre & E & _). intros H. rewrite E in H.
  apply Forall_app in H as [_ H]. exact H.
Qed.

Lemma Forall_strip (P : char -> Prop) (s : pystr) :
  Forall P s -> Forall P (strip s).
Proof.
  intros H. unfold strip, rstrip.
  apply Forall_rev, Forall_lstrip, Forall_rev, Forall_lstrip, H.
Qed.

Lemma Forall_crlf_to_lf (P : char -> Prop) (s : pystr) :
  P LF -> Forall P s -> Forall P (crlf_to_lf s).
Proof.
  intros HLF. remember (length s) as n eqn:Hn. revert s Hn.
  induction n as [n IH] using lt_wf_ind. intros s -> H.
  destruct s as [|c [|d s]]; [constructor|exact H|].
  rewrite crlf_to_lf_cons. inversion H as [|? ? Hc H']; subst.
  inversion H' as [|? ? Hd H'']; subst.
  destruct ((c =? CR) && (d =? LF)).
  - constructor; [exact HLF|]. eapply IH; [|reflexivity|exact H'']. simpl. lia.
  - constructor; [exact Hc|]. eapply IH; [|reflexivity|exact H']. simpl. lia.
Qed.

Lemma Forall_squeeze (P : char -> Prop) (s : pystr) :
  Forall P s -> Forall P (squeeze s).
Proof.
  induction s as [|c s IH]; [constructor|]. intros H.
  inversion H as [|? ? Hc H']; subst.
  destruct s as [|d s]; [exact H|]. rewrite squeeze_cons.
  destruct ((c =? LF) && (d =? LF)); [apply IH, H'|].
  constructor; [exact Hc|apply IH, H'].
Qed.

Lemma contains_head_absent (a b : char) (s : pystr) :
  Forall (fun c => c <> a) s -> contains [a; b] s = false.
Proof.
  induction 1 as [|c s Hc _ IH]; [reflexivity|]. rewrite contains_cons2, IH.
  destruct (N.eqb_spec a c); [congruence|reflexivity].
Qed.

(** X2.  On a text without carriage returns [shrink_line] is idempotent:
    shrinking the shrunk text again changes nothing. *)
Theorem shrink_line_idempotent_without_cr (s : pystr) :
  Forall (fun c => c <> CR) s ->
  (t ← shrink_line (VStr s); shrink_line (VStr t)) = shrink_line (VStr s).
Proof.
  intros Hs. rewrite shrink_line_value. cbn [mbind result_bind].
  rewrite shrink_line_value. f_equal.
  apply shrink_text_fixed; [apply shrink_text_shrunk|].
  apply contains_head_absent. rewrite shrink_text_eq.
  apply Forall_squeeze, Forall_crlf_to_lf; [discriminate|].
  apply Forall_strip, Hs.
Qed.

Lemma shrink_line_idempotent_without_cr_witness :
  (t ← shrink_line (VStr (lit " a b ")); shrink_line (VStr t))
  = Ok (lit "a b").
Proof.
  rewrite (shrink_line_idempotent_without_cr (lit " a b ")).
  - reflexivity.
  - vm_compute. repeat constructor; discriminate.
Defined.

(** With a carriage return the second pass can still find a CR LF that
    the first pass has put together. *)
Lemma shrink_line_twice_with_cr :
  shrink_line (VStr [97; CR; CR; LF; 98]) = Ok [97; CR; LF; 98] /\
  shrink_line (VStr [97; CR; LF; 98]) = Ok [97; LF; 98].
Proof. split; reflexivity. Qed.


Lemma filter_length_le {A} (p : A -> bool) (l : list A) :
  (length (List.filter p l) <= length l)%nat.
Proof.
  induction l as [|x l IH]; simpl; [lia|]. destruct (p x); simpl; lia.
Qed.

(** X3.  On texts without an ampersand, [escape_markdown] adds exactly one
    character for every reserved character, so that the result is at most
    twice as long as the text, and it loses nothing: two such texts with the
    same escaped form are the same text. *)
Theorem escape_markdown_injective `{Runtime} (s t e : pystr) :
  ch "&" ∉ s -> ch "&" ∉ t ->
  escape_markdown (VStr s) = Ok e ->
  length e = (length s + length (List.filter reserved s))%nat /\
  (length e <= 2 * length s)%nat /\
  (escape_markdown (VStr t) = Ok e -> s = t).
Proof.
  intros Hs Ht. rewrite !escape_markdown_unescape, !unescape_plain by assumption.
  cbn [fmap result_fmap]. intros [= <-]. rewrite backslashed_length.
  pose proof (filter_length_le reserved s).
  repeat split; [lia|]. intros [= E]. symmetry. apply backslashed_injective, E.
Qed.

Lemma escape_markdown_injective_witness :
  @escape_markdown basic_latin (VStr (lit "a_b")) = Ok (lit "a\_b") /\
  length (lit "a\_b") = (3 + 1)%nat.
Proof.
  assert (E : @escape_markdown basic_latin (VStr (lit "a_b")) = Ok (lit "a\_b"))
    by reflexivity.
  split; [exact E|].
  apply (@escape_markdown_injective basic_latin (lit "a_b") (lit "a_b")
           (lit "a\_b")); [| |exact E].
  - intros Hin. apply list_elem_of_In in Hin. vm_compute in Hin.
    intuition discriminate.
  - intros Hin. apply list_elem_of_In in Hin. vm_compute in Hin.
    intuition discriminate.
Defined.


Lemma result_bind_inv {A B} (m : result A) (k : A -> result B) (b : B) :
  m ≫= k = Ok b -> exists a, m = Ok a /\ k a = Ok b.
Proof. destruct m as [a|e]; [eauto|discriminate]. Qed.

Section DerivedTexts.
Context {RT : Runtime}.

Lemma bind_shrunk {A} (m : result A) (k : A -> result pystr) (t : pystr) :
  (forall a, k a = Ok t -> shrunk t) -> m ≫= k = Ok t -> shrunk t.
Proof. intros Hk H. apply result_bind_inv in H as (a & _ & H). eauto. Qed.

Lemma content_shrunk (f : feed) t : content f = Ok t -> shrunk t.
Proof. apply shrink_line_shrunk. Qed.

Lemma content_markdown_is_shrunk (f : feed) t :
  content_markdown f = Ok t -> shrunk t.
Proof.
  unfold content_markdown, content_markdown_of.
  apply bind_shrunk. intros c. apply bind_shrunk. intros md.
  apply shrink_line_shrunk.
Qed.

Lemma comment_shrunk (f : feed) t : comment f = Ok t -> shrunk t.
Proof.
  unfold comment, comment_of. apply bind_shrunk. intros has.
  apply bind_shrunk. intros c. apply shrink_line_shrunk.
Qed.

Lemma comment_markdown_shrunk (f : feed) t :
  comment_markdown f = Ok t -> shrunk t.
Proof.
  unfold comment_markdown, comment_markdown_of. apply bind_shrunk. intros has.
  apply bind_shrunk. intros c. apply shrink_line_shrunk.
Qed.

Lemma dynamic_content_shrunk (d : dynamic) t :
  dynamic_content d = Ok t -> shrunk t.
Proof.
  unfold dynamic_content. apply bind_shrunk. intros hf.
  apply bind_shrunk. intros c. apply bind_shrunk. intros c'.
  apply shrink_line_shrunk.
Qed.

Lemma dynamic_content_markdown_shrunk (d : dynamic) t :
  dynamic_content_markdown d = Ok t -> shrunk t.
Proof.
  unfold dynamic_content_markdown. apply bind_shrunk. intros hf.
  apply bind_shrunk. intros md. apply bind_shrunk. intros c.
  apply bind_shrunk. intros md'. apply shrink_line_shrunk.
Qed.

End DerivedTexts.

(** X4.  Whenever one of the derived texts of a feed is computed
    ([content], [content_markdown], [comment], [comment_markdown], and
    [content] and [content_markdown] of a status update), it neither starts
    nor ends with a whitespace character and holds no two consecutive
    newlines. *)
Theorem derived_texts_are_shrunk `{Runtime} (f : feed) (d : dynamic)
    (t : pystr) :
  content f = Ok t \/ content_markdown f = Ok t \/ comment f = Ok t \/
  comment_markdown f = Ok t \/ dynamic_content d = Ok t \/
  dynamic_content_markdown d = Ok t ->
  shrunk t.
Proof.
  intros [Ht|[Ht|[Ht|[Ht|[Ht|Ht]]]]];
    eauto using content_shrunk, content_markdown_is_shrunk, comment_shrunk,
                comment_markdown_shrunk, dynamic_content_shrunk,
                dynamic_content_markdown_shrunk.
Qed.

Lemma derived_texts_are_shrunk_witness :
  @content_markdown basic_latin
    (set_content (VStr (lit " a_b" ++ [LF; LF] ++ lit "c ")) (new_feed []))
  = Ok (lit "a\_b" ++ [LF] ++ lit "c") /\
  shrunk (lit "a\_b" ++ [LF] ++ lit "c").
Proof.
  assert (E : @content_markdown basic_latin
                (set_content (VStr (lit " a_b" ++ [LF; LF] ++ lit "c "))
                             (new_feed []))
              = Ok (lit "a\_b" ++ [LF] ++ lit "c")) by (vm_compute; reflexivity).
  split; [exact E|].
  apply (@derived_texts_are_shrunk basic_latin _ (new_dynamic []) _
           (or_intror (or_introl E))).
Defined.

(** X5.  Without a [replycontent], and with one that is a dictionary
    whose ["data"] is missing or counts as false, [has_comment] is false and
    [comment] and [comment_markdown] are empty.  With a [replycontent] that
    is no dictionary, as the exception instance that a failed comment
    resolver returns is, the three raise [AttributeError]. *)
Theorem comment_fields_need_a_dict `{Runtime} (f : feed) :
  match replycontent f with
  | None =>
      has_comment f = Ok false /\ comment f = Ok [] /\ comment_markdown f = Ok []
  | Some (VDict fields) =>
      match assoc (lit "data") fields with
      | Some data =>
          has_comment f = Ok (truthy data) /\
          (truthy data = false -> comment f = Ok [] /\ comment_markdown f = Ok [])
      | None =>
          has_comment f = Ok false /\ comment f = Ok [] /\
          comment_markdown f = Ok []
      end
  | Some _ =>
      has_comment f = Raise AttributeError /\ comment f = Raise AttributeError /\
      comment_markdown f = Raise AttributeError
  end.
Proof.
  unfold comment, comment_markdown, has_comment.
  destruct (replycontent f) as [[| | | | |fields|]|] eqn:E;
    try (repeat split; reflexivity).
  cbn [py_get]. destruct (assoc (lit "data") fields) as [data|];
    cbn [default mbind result_bind mret result_ret].
  - split; [reflexivity|]. intros Hd. unfold id. rewrite Hd. split; reflexivity.
  - repeat split; reflexivity.
Qed.


(** ** Further properties of the memoised getters *)

Section Slot.
Context {RT : Runtime}.
Variables (g : lru_getter) (self : nat) (v : pyval).

Lemma keeps_slot_remember i name x : keeps (slot g self v) (remember i name x).
Proof.
  intros σ r σ' H HP. unfold remember in H.
  apply bind_inv in H as [(i' & σ1 & H1 & H2) | (e & H1 & _)].
  - unfold instance_of in H1. destruct (heap σ !! i); [|discriminate].
    injection H1 as <- <-. injection H2 as _ <-. exact HP.
  - unfold instance_of in H1. destruct (heap σ !! i); [discriminate|].
    injection H1 as _ <-. exact HP.
Qed.

Lemma keeps_slot_cached_property name func i :
  keeps (slot g self v) (func i) ->
  keeps (slot g self v) (cached_property name func i).
Proof.
  intros Hf. unfold cached_property.
  apply keeps_bind; [apply keeps_instance_of|]. intros inst.
  destruct (cache inst name); [apply keeps_ret|].
  apply keeps_bind; [exact Hf|]. intros a.
  apply keeps_bind; [apply keeps_slot_remember|]. intros _. apply keeps_ret.
Qed.

Lemma keeps_slot_lru_cache name func i :
  keeps (slot g self v) (func i) -> name <> g \/ i = self ->
  keeps (slot g self v) (lru_cache name func i).
Proof.
  intros Hf Hor σ r σ' H HP. unfold lru_cache in H.
  unfold mbind at 1, se_bind at 1, state in H.
  assert (Hmiss : name <> g ->
    (v0 ← func i;
     _ ← update (fun σ =>
           {| heap := heap σ;
              lru := fun n => if decide (n = name) then Some (i, v0)
                              else lru σ n |});
     mret v0) σ = (r, σ') -> slot g self v σ').
  { intros Hne Hm.
    apply bind_inv in Hm as [(a & σ1 & H1 & H2) | (e & H1 & _)];
      [|eapply Hf; eauto].
    injection H2 as _ <-. unfold slot. simpl.
    destruct (decide (g = name)) as [->|]; [congruence|].
    eapply Hf; eauto. }
  destruct (decide (name = g)) as [->|Hne].
  - destruct Hor as [ ? | -> ]; [congruence|]. unfold slot in HP. rewrite HP in H.
    rewrite Nat.eqb_refl in H. injection H as _ <-. exact HP.
  - destruct (lru σ name) as [[key v']|]; [|auto].
    destruct (Nat.eqb key i); [|auto]. injection H as _ <-. exact HP.
Qed.

Lemma keeps_slot_read g' i :
  displaces g self (Read g' i) = false -> keeps (slot g self v) (read g' i).
Proof.
  intros Hd.
  assert (Hcontent : g <> lru_content \/ i = self ->
                     keeps (slot g self v) (get_content i)).
  { intros Hor. apply keeps_slot_lru_cache.
    - apply keeps_bind; [apply keeps_instance_of|]. intros ?. apply keeps_lift.
    - destruct Hor; auto. }
  destruct g' as [[]|[]]; cbn [read];
    unfold get_user_markdown, get_content_markdown, get_has_comment,
      get_comment, get_comment_markdown, get_mediafilename, get_url,
      get_mediaurls;
    try (repeat first
      [ apply keeps_slot_cached_property
      | apply keeps_bind; [|intros ?] | apply keeps_instance_of
      | apply keeps_lift | apply keeps_ret ]; fail).
  - (* content_markdown *)
    apply keeps_slot_cached_property.
    apply keeps_bind; [|intros ?; apply keeps_lift].
    apply Hcontent. cbn [displaces] in Hd.
    apply andb_false_iff in Hd as [Hd|Hd].
    + left. apply bool_decide_eq_false in Hd. exact Hd.
    + right. apply negb_false_iff, Nat.eqb_eq in Hd. exact Hd.
  - (* content *)
    apply Hcontent. cbn [displaces] in Hd.
    apply andb_false_iff in Hd as [Hd|Hd].
    + left. apply bool_decide_eq_false in Hd. congruence.
    + right. apply negb_false_iff, Nat.eqb_eq in Hd. exact Hd.
  - (* mediaurls *)
    apply keeps_slot_lru_cache.
    + apply keeps_bind; [apply keeps_instance_of|]. intros ?. apply keeps_ret.
    + cbn [displaces] in Hd. apply andb_false_iff in Hd as [Hd|Hd].
      * left. apply bool_decide_eq_false in Hd. exact Hd.
      * right. apply negb_false_iff, Nat.eqb_eq in Hd. exact Hd.
Qed.

Lemma slot_exec o σ :
  displaces g self o = false -> slot g self v σ -> slot g self v (exec o σ).
Proof.
  intros Hd HP. destruct o as [url|i upd|g' i]; cbn [exec].
  - exact HP.
  - unfold assign, mbind, se_bind, instance_of.
    destruct (heap σ !! i); exact HP.
  - destruct (read g' i σ) as [r σ'] eqn:E.
    exact (keeps_slot_read g' i Hd _ _ _ E HP).
Qed.

Lemma slot_run ops σ :
  Forall (fun o => displaces g self o = false) ops ->
  slot g self v σ -> slot g self v (run ops σ).
Proof.
  intros Hops. revert σ. induction Hops as [|o ops Ho _ IH]; intros σ HP;
    [exact HP|].
  apply IH, slot_exec; assumption.
Qed.

End Slot.

Section SlotReads.
Context {RT : Runtime}.

Lemma read_lru_is_lru_cache g :
  exists func, read (Lru g) = lru_cache g func.
Proof. destruct g; eexists; reflexivity. Qed.

Lemma read_lru_hit g self v σ :
  slot g self v σ -> read (Lru g) self σ = (Ok v, σ).
Proof.
  intros HP. destruct (read_lru_is_lru_cache g) as [func ->].
  unfold lru_cache, mbind at 1, se_bind at 1, state. unfold slot in HP.
  rewrite HP, Nat.eqb_refl. reflexivity.
Qed.

Lemma read_lru_slot g self v σ σ' :
  read (Lru g) self σ = (Ok v, σ') -> slot g self v σ'.
Proof.
  destruct (read_lru_is_lru_cache g) as [func ->]. intros H.
  unfold lru_cache in H. unfold mbind at 1, se_bind at 1, state in H.
  assert (Hmiss :
    (v0 ← func self;
     _ ← update (fun σ =>
           {| heap := heap σ;
              lru := fun n => if decide (n = g) then Some (self, v0)
                              else lru σ n |});
     mret v0) σ = (Ok v, σ') -> slot g self v σ').
  { intros Hm.
    apply bind_inv in Hm as [(a & σ1 & H1 & H2) | (e & _ & ?)]; [|discriminate].
    injection H2 as <- <-. unfold slot. simpl.
    destruct (decide (g = g)); congruence. }
  destruct (lru σ g) as [[key v']|] eqn:E; [|auto].
  destruct (Nat.eqb_spec key self) as [->|]; [|auto].
  injection H as <- <-. exact E.
Qed.

End SlotReads.

(** X7.  A field behind [lru_cache(maxsize=1)], [content] or
    [mediaurls], keeps the value of its last read, whatever is assigned or
    created in between, as long as the getter is not run for another
    instance. *)
Theorem lru_field_stable_until_displaced `{Runtime} (g : lru_getter)
    (self : nat) (v : pyval) (σ σ1 : store) (ops : list op) :
  read (Lru g) self σ = (Ok v, σ1) ->
  Forall (fun o => displaces g self o = false) ops ->
  read (Lru g) self (run ops σ1) = (Ok v, run ops σ1).
Proof.
  intros Hr Hops. apply read_lru_hit, slot_run; [exact Hops|].
  eapply read_lru_slot, Hr.
Qed.


Lemma lru_field_stable_until_displaced_witness :
  let σ := @run basic_latin [New (lit "u1"); New (lit "u2");
                Assign 0 (set_content (VStr (lit "first")))] empty_store in
  let ops := [Assign 0 (set_content (VStr (lit "second")));
              Read (Cached c_user_markdown) 1; Read (Lru lru_mediaurls) 1;
              Read (Cached c_content_markdown) 0] in
  fst (@read basic_latin (Lru lru_content) 0%nat
         (@run basic_latin ops
            (snd (@read basic_latin (Lru lru_content) 0%nat σ))))
  = Ok (VStr (lit "first")).
Proof.
  cbv zeta.
  set (σ := @run basic_latin _ empty_store). set (ops := [Assign 0 _; _; _; _]).
  assert (E : fst (@read basic_latin (Lru lru_content) 0%nat σ)
              = Ok (VStr (lit "first"))) by (vm_compute; reflexivity).
  rewrite (@lru_field_stable_until_displaced basic_latin lru_content 0%nat
             (VStr (lit "first")) σ _ ops (run_pair _ _ _ E)).
  - reflexivity.
  - repeat constructor.
Defined.

(** X8.  When the slot of the getter does not hold a value of the instance,
    a read after an assignment returns the assigned value: the shrunk text
    for [content], and for [mediaurls] the assigned list, or the one-element
    list of the assigned value. *)
Theorem lru_field_read_after_assignment `{Runtime} (self : nat)
    (i : instance) (σ : store) (s : pystr) (v : pyval) :
  heap σ !! self = Some i ->
  (forall x, ~ slot lru_content self x σ) ->
  (forall x, ~ slot lru_mediaurls self x σ) ->
  fst (read (Lru lru_content) self
         (exec (Assign self (set_content (VStr s))) σ))
  = Ok (VStr (shrink_text s)) /\
  fst (read (Lru lru_mediaurls) self
         (exec (Assign self (set_mediaurls v)) σ))
  = Ok (VList (match v with VList l => l | _ => [v] end)).
Proof.
  intros Hi Hc Hm.
  assert (Hmiss : forall g func upd r,
    (forall x, ~ slot g self x σ) ->
    (forall σ', func self
       {| heap := <[self := {| attrs := upd (attrs i); cache := cache i |}]>
                    (heap σ);
          lru := lru σ' |} = (Ok r, {| heap := <[self := {| attrs := upd (attrs i); cache := cache i |}]> (heap σ); lru := lru σ' |})) ->
    fst (lru_cache g func self (exec (Assign self upd) σ)) = Ok r).
  { intros g func upd r Hs Hf. cbn [exec]. unfold assign.
    unfold mbind at 1, se_bind at 1, instance_of. rewrite Hi. cbn [update snd].
    unfold lru_cache, mbind at 1, se_bind at 1, state. cbn [lru].
    assert (E : forall k, (v0 ← func self;
       _ ← update (fun σ0 =>
             {| heap := heap σ0;
                lru := fun n => if decide (n = g) then Some (self, v0)
                                else lru σ0 n |});
       mret v0)
       {| heap := <[self := {| attrs := upd (attrs i); cache := cache i |}]>
                    (heap σ);
          lru := lru σ |} = k -> fst k = Ok r).
    { intros k <-. unfold mbind, se_bind. rewrite (Hf σ). reflexivity. }
    destruct (lru σ g) as [[key x]|] eqn:El; [|eapply E; reflexivity].
    destruct (Nat.eqb_spec key self) as [->|]; [|eapply E; reflexivity].
    destruct (Hs x El). }
  split.
  - apply (Hmiss lru_content _ (set_content (VStr s))); [exact Hc|].
    intros σ'. unfold mbind, se_bind, instance_of. cbn [heap].
    rewrite lookup_insert_eq. cbn [attrs lift]. unfold content.
    cbn [_content set_content]. rewrite shrink_line_value. reflexivity.
  - apply (Hmiss lru_mediaurls _ (set_mediaurls v)); [exact Hm|].
    intros σ'. unfold mbind, se_bind, instance_of. cbn [heap].
    rewrite lookup_insert_eq. reflexivity.
Qed.

Lemma lru_field_read_after_assignment_witness :
  fst (@read basic_latin (Lru lru_content) 0%nat
         (@exec basic_latin (Assign 0 (set_content (VStr (lit " a "))))
            (@run basic_latin [New (lit "u")] empty_store)))
  = Ok (VStr (shrink_text (lit " a "))).
Proof.
  apply (@lru_field_read_after_assignment basic_latin 0%nat
           {| attrs := new_feed (lit "u"); cache := fun _ => None |}
           (@run basic_latin [New (lit "u")] empty_store) (lit " a ") VNone).
  - vm_compute. reflexivity.
  - intros x Hx. discriminate Hx.
  - intros x Hx. discriminate Hx.
Defined.

Lemma cached_property_stable_witness :
  let σ := @run basic_latin [New (lit "u");
                Assign 0 (set_user (VStr (lit "bob")));
                Assign 0 (set_uid (VInt 7))] empty_store in
  let ops := [Assign 0 (set_user (VStr (lit "eve"))); New (lit "v");
              Read (Cached c_user_markdown) 1] in
  fst (@read basic_latin (Cached c_user_markdown) 0%nat
         (@run basic_latin ops
            (snd (@read basic_latin (Cached c_user_markdown) 0%nat σ))))
  = Ok (VStr (lit "[@bob](https://space.bilibili.com/7)")).
Proof.
  cbv zeta.
  set (σ := @run basic_latin _ empty_store). set (ops := [Assign 0 _; _; _]).
  assert (E : fst (@read basic_latin (Cached c_user_markdown) 0%nat σ)
              = Ok (VStr (lit "[@bob](https://space.bilibili.com/7)")))
    by (vm_compute; reflexivity).
  rewrite (@cached_property_stable basic_latin c_user_markdown 0%nat _ σ _ ops
             (run_pair _ _ _ E)).
  reflexivity.
Defined.


(** ** Further properties of the resolvers *)

Lemma bind_ok {S A B} (m : SE S A) (k : A -> SE S B) s a s1 :
  m s = (Ok a, s1) -> (m ≫= k) s = k a s1.
Proof. unfold mbind, se_bind. intros ->. reflexivity. Qed.

Lemma reply_type_17 (ft : pyval) :
  reply_type_of ft = VInt 17 <->
  py_in ft (1 :: 4 :: range 4200 4300 ++ range 2048 2100)%Z = true.
Proof.
  assert (Hint : forall z,
    reply_type_of (VInt z) = VInt 17 <->
    py_in (VInt z) (1 :: 4 :: range 4200 4300 ++ range 2048 2100)%Z = true).
  { intros z. rewrite reply_type_of_int, py_in_int. cbn [existsb].
    rewrite existsb_app_Z, !existsb_range, !orb_assoc.
    destruct (Z.eqb_spec z 2); [subst; split; discriminate|].
    destruct (Z.eqb_spec z 16); [subst; split; discriminate|].
    destruct (Z.eqb_spec z 64); [subst; split; discriminate|].
    destruct (Z.eqb_spec z 256); [subst; split; discriminate|].
    destruct ((z =? 8) || (z =? 512) || (4000 <=? z) && (z <? 4200))%Z eqn:E.
    - split; [discriminate|]. intros Hin. exfalso. lia.
    - destruct ((z =? 1) || (z =? 4) || (4200 <=? z) && (z <? 4300)
                || (2048 <=? z) && (z <? 2100))%Z; split;
        (reflexivity || discriminate). }
  destruct ft as [|b|z| | | |];
    try (rewrite py_in_other by discriminate; split; discriminate).
  - destruct b; [apply (Hint 1%Z)|apply (Hint 0%Z)].
  - apply Hint.
Qed.

(** X9.  The [oid] of a status update is its [dynamic_id] exactly when its
    [reply_type] is 17, and its [rid] for every other [reply_type],
    [None] included. *)
Theorem oid_follows_reply_type (d : dynamic) (ft : pyval) :
  forward_type d = Ok ft ->
  exists rt, reply_type d = Ok rt /\
    ((rt = VInt 17 /\ oid d = Ok (dynamic_id d)) \/
     (rt <> VInt 17 /\ oid d = Ok (rid d))).
Proof.
  intros Hft. unfold reply_type, oid. rewrite Hft. cbn [mbind result_bind].
  eexists. split; [reflexivity|]. cbn [mret result_ret].
  destruct (py_in ft _) eqn:E.
  - left. split; [apply reply_type_17, E|reflexivity].
  - right. split; [|reflexivity]. intros E'.
    apply reply_type_17 in E'. congruence.
Qed.

Lemma oid_follows_reply_type_witness :
  let d := set_rid (VInt 456) (set_dynamic_id (VInt 123)
             (set_detailcontent (detail 4 0 "WORD") (new_dynamic []))) in
  reply_type d = Ok (VInt 17) /\ oid d = Ok (VInt 123).
Proof.
  cbv zeta.
  set (d := set_rid _ _).
  destruct (oid_follows_reply_type d (VInt 4) eq_refl)
    as (rt & Hrt & Hoid).
  assert (E : reply_type d = Ok (VInt 17)) by reflexivity.
  split; [exact E|].
  destruct Hoid as [[_ Ho]|[Hne _]]; [exact Ho|].
  rewrite E in Hrt. injection Hrt as <-. destruct (Hne eq_refl).
Defined.


(** X10.  For a status update that is no forward, [content] is the shrunk
    text that was assigned when that is a string, and raises [TypeError] for
    any other assigned value, [None] included; [content] of a plain feed
    returns the empty string for [None]. *)
Theorem dynamic_content_requires_text `{Runtime} (d : dynamic) (f : feed) :
  has_forward d = Ok false ->
  dynamic_content d = match _dcontent d with
                      | VStr s => Ok (shrink_text s)
                      | _ => Raise TypeError
                      end /\
  content (set_content VNone f) = Ok [].
Proof.
  intros Hf. split; [|reflexivity].
  unfold dynamic_content. rewrite Hf. cbn [mbind result_bind mret result_ret].
  destruct (_dcontent d) as [|b|z|s|l|fields|e];
    try reflexivity; try (destruct b; reflexivity).
  cbn [py_add app]. cbn [mbind result_bind]. apply shrink_line_value.
Qed.

Lemma dynamic_content_requires_text_witness :
  @dynamic_content example_runtime
    (set_dcontent VNone (set_detailcontent (detail 4 0 "WORD") (new_dynamic [])))
  = Raise TypeError.
Proof.
  apply (@dynamic_content_requires_text example_runtime
           (set_dcontent VNone
              (set_detailcontent (detail 4 0 "WORD") (new_dynamic [])))
           (new_feed [])).
  reflexivity.
Defined.

Section Lookups.
Context {OUT : Outside}.

Lemma filter_imap_snd {A} (P : A -> bool) (l : list A) :
  forall g : nat -> nat,
  snd <$> List.filter (fun ir => P (snd ir)) (imap (fun i x => (g i, x)) l)
  = List.filter P l.
Proof.
  induction l as [|x l IH]; intros g; [reflexivity|]. cbn [imap List.filter snd].
  specialize (IH (g ∘ S)). unfold compose in *.
  destruct (P x); cbn [fmap list_fmap snd]; [f_equal|]; exact IH.
Qed.

Lemma get_or_none_rows t qs w :
  get_or_none t qs w =
  (match List.filter (fun ir => forallb (fun q : Q => q (snd ir)) qs)
                     (imap pair (db w t)) with
   | [] => Ok None
   | [ir] => Ok (Some ir)
   | _ => Raise MultipleObjectsReturned
   end, w).
Proof.
  unfold get_or_none, mbind, se_bind, state.
  destruct (List.filter _ _) as [|ir [|ir' l]]; reflexivity.
Qed.

Lemma lookup_fresh_rows t q ttl w :
  match fresh_rows t q ttl w with
  | [] => lookup t q ttl w = (Ok None, w)
  | [c] => exists i, lookup t q ttl w = (Ok (Some (i, c)), w)
  | _ => lookup t q ttl w = (Raise MultipleObjectsReturned, w)
  end.
Proof.
  unfold lookup, fresh_since, now.
  assert (E : (f ← (n ← (w0 ← state; mret (clock w0));
                    mret (created_gte (n - timeout ttl)));
               get_or_none t [q; f]) w
              = get_or_none t [q; created_gte (clock w - timeout ttl)] w)
    by reflexivity.
  rewrite E, get_or_none_rows. unfold fresh_rows.
  rewrite <- (filter_imap_snd _ (db w t) (fun i => i)).
  change (imap (fun i x => (i, x)) (db w t)) with (imap pair (db w t)).
  assert (Ef : forall l : list (nat * row),
    List.filter (fun ir => forallb (fun q0 : Q => q0 (snd ir))
                             [q; created_gte (clock w - timeout ttl)]) l
    = List.filter (fun ir => q (snd ir)
                             && (clock w - timeout ttl <=? created (snd ir))%Z) l).
  { intros l. apply List.filter_ext. intros ir. cbn [forallb].
    rewrite andb_true_r. reflexivity. }
  rewrite Ef.
  destruct (List.filter _ (imap pair (db w t))) as [|[i c] [|ir' l]];
    cbn [fmap list_fmap snd]; eauto.
Qed.

End Lookups.


Lemma safe_parser_inv {S A} (func : SE S A) s r s' :
  safe_parser func s = (Ok r, s') ->
  (exists a, r = Value a /\
     (func s = (Ok a, s') \/
      exists s1, func s = (Raise IntegrityError, s1) /\ func s1 = (Ok a, s'))) \/
  (exists e, r = Error e /\
     (func s = (Raise e, s') \/
      exists s1, func s = (Raise IntegrityError, s1) /\ func s1 = (Raise e, s'))).
Proof.
  intros H. destruct (func s) as [[a|e] s1] eqn:Hf.
  - rewrite (safe_parser_ok _ _ _ _ Hf) in H. injection H as <- <-.
    left. eauto.
  - destruct (exn_IntegrityError_dec e) as [->|He].
    + rewrite (safe_parser_retry _ _ _ Hf) in H.
      destruct (func s1) as [[a1|e1] s2] eqn:Hf1; injection H as <- <-;
        [left|right]; eauto 6.
    + rewrite (safe_parser_other _ _ _ _ Hf He) in H. injection H as <- <-.
      right. eauto.
Qed.

Section LinkErrors.
Context {RT : Runtime} {OUT : Outside}.

Lemma note_noted c w : note c w = (Ok tt, noted c w).
Proof. reflexivity. Qed.

Lemma rejected {A} (name : resolver) (body : SE world A) (msg : parser_msg)
    (url : pystr) (w : world) :
  body (noted (Invoked name [VStr url]) w)
  = (Raise (ParserException msg url), noted (Invoked name [VStr url]) w) ->
  (_ ← note (Invoked name [VStr url]); safe_parser body) w
  = (Ok (Error (ParserException msg url)), noted (Invoked name [VStr url]) w).
Proof.
  intros Hb. unfold mbind, se_bind. rewrite note_noted.
  apply safe_parser_other; [exact Hb|discriminate].
Qed.

End LinkErrors.

(** X11.  A resolver that is given a URL which its pattern does not match
    returns its link error with that URL as a value; it looks nothing up,
    requests nothing and writes nothing: the world is left as it was, the
    recorded call apart. *)
Theorem resolvers_reject_unmatched_urls `{Runtime} `{Outside} (url : pystr)
    (w : world) :
  (search dynamic_re url = None ->
   dynamic_parser url w
   = (Ok (Error (ParserException DynamicLinkError url)),
      noted (Invoked dynamic_r [VStr url]) w)) /\
  (search audio_re url = None ->
   audio_parser url w
   = (Ok (Error (ParserException AudioLinkError url)),
      noted (Invoked audio_r [VStr url]) w)) /\
  (search live_re url = None ->
   live_parser url w
   = (Ok (Error (ParserException LiveLinkError url)),
      noted (Invoked live_r [VStr url]) w)) /\
  (search video_re url = None ->
   video_parser url w
   = (Ok (Error (ParserException VideoLinkError url)),
      noted (Invoked video_r [VStr url]) w)) /\
  (search read_re url = None ->
   read_parser url w
   = (Ok (Error (ParserException ReadLinkError url)),
      noted (Invoked read_r [VStr url]) w)).
Proof.
  repeat split; intros Hs.
  - apply rejected. unfold dynamic_body, dynamic_fetch. rewrite Hs. reflexivity.
  - apply rejected. unfold audio_body. rewrite Hs. reflexivity.
  - apply rejected. unfold live_body. rewrite Hs. reflexivity.
  - apply rejected. unfold video_body. rewrite Hs. reflexivity.
  - apply rejected. unfold read_body. rewrite Hs. reflexivity.
Qed.

Lemma resolvers_reject_unmatched_urls_witness :
  let w := example_world no_rows (example_net 4 0 "WORD" with_comments) in
  @audio_parser example_runtime example_outside (lit "https://example.com/") w
  = (Ok (Error (ParserException AudioLinkError (lit "https://example.com/"))),
     noted (Invoked audio_r [VStr (lit "https://example.com/")]) w).
Proof.
  cbv zeta.
  apply (@resolvers_reject_unmatched_urls example_runtime example_outside
           (lit "https://example.com/")).
  vm_compute. reflexivity.
Defined.

Section ReplyCache.
Context {OUT : Outside}.

Lemma lookup_state t q ttl w r w' : lookup t q ttl w = (r, w') -> w' = w.
Proof.
  pose proof (lookup_fresh_rows t q ttl w) as H.
  destruct (fresh_rows t q ttl w) as [|c [|c' l]];
    [|destruct H as [i H]|]; rewrite H; intros [= _ <-]; reflexivity.
Qed.

Lemma get_or_none_state t qs w r w' : get_or_none t qs w = (r, w') -> w' = w.
Proof. rewrite get_or_none_rows. intros [= _ <-]. reflexivity. Qed.

Lemma attr_state col c (w : world) r w' : attr col c w = (r, w') -> w' = w.
Proof.
  unfold attr. destruct (column col (cols c)); intros [= _ <-]; reflexivity.
Qed.

Lemma get_db url params w r w' :
  get url params w = (r, w') -> db w' = db w /\ clock w' = clock w.
Proof.
  unfold get. destruct (client_get _ _ _). intros [= _ <-]. auto.
Qed.

Lemma write_back_raise t cache q col v fresh w e w' :
  write_back t cache q col v fresh w = (Raise e, w') -> w' = w.
Proof.
  unfold write_back. destruct cache; [discriminate|]. intros H.
  apply bind_inv in H as [(found & w1 & H1 & H2) | (e' & H1 & _)].
  - apply get_or_none_state in H1 as ->. destruct found as [[i c]|].
    + discriminate.
    + unfold create in H2. unfold mbind, se_bind, state in H2.
      destruct (db_conflict _ _ _); [|discriminate].
      injection H2 as _ <-. reflexivity.
  - apply get_or_none_state in H1. exact H1.
Qed.

(** The part of [reply_body] before the write-back: the cached payload, or
    the fetched one. *)
Lemma reply_body_inv o rt w res w' :
  reply_body o rt w = (res, w') ->
  (db w' = db w /\ clock w' = clock w) \/
  exists r fields, res = Ok r /\ r = VDict fields.
Proof.
  unfold reply_body. intros H.
  apply bind_inv in H as [(cache & w1 & H1 & H) | (e & H1 & _)].
  2:{ apply lookup_state in H1 as ->. auto. }
  apply lookup_state in H1 as ->.
  apply bind_inv in H as [(r & w2 & H2 & H) | (e & H2 & _)].
  2:{ left. destruct cache as [[i c]|].
      - apply attr_state in H2 as ->. auto.
      - apply bind_inv in H2 as [(resp & w3 & H3 & H2) | (e' & H3 & _)];
          [|eapply get_db, H3].
        apply get_db in H3.
        apply bind_inv in H2 as [(r & w4 & H4 & H2) | (e' & H4 & _)];
          [|apply lift_inv in H4 as [_ ->]; exact H3].
        apply lift_inv in H4 as [_ ->].
        apply bind_inv in H2 as [(data & w5 & H5 & H2) | (e' & H5 & _)];
          [|apply lift_inv in H5 as [_ ->]; exact H3].
        apply lift_inv in H5 as [_ ->].
        destruct (truthy data); injection H2 as _ <-; exact H3. }
  destruct cache as [[i c]|].
  - apply attr_state in H2 as ->. left.
    cbn [write_back] in H. injection H as _ <-. auto.
  - apply bind_inv in H2 as [(resp & w3 & H3 & H2) | (e' & _ & ?)]; [|discriminate].
    apply get_db in H3.
    apply bind_inv in H2 as [(r' & w4 & H4 & H2) | (e' & _ & ?)]; [|discriminate].
    apply lift_inv in H4 as [_ ->].
    apply bind_inv in H2 as [(data & w5 & H5 & H2) | (e' & _ & ?)]; [|discriminate].
    apply lift_inv in H5 as [H5 ->].
    destruct (truthy data); [|discriminate]. injection H2 as -> <-.
    apply bind_inv in H as [([] & w6 & H6 & H) | (e' & H6 & ->)].
    + right. injection H as <- _. destruct r; try discriminate. eauto.
    + left. apply write_back_raise in H6 as ->. exact H3.
Qed.

End ReplyCache.

(** X12.  When exactly one row of the comment cache has the key and lies
    inside the window of the cache, [reply_parser] returns the payload of
    that row, requests nothing and writes nothing. *)
Theorem reply_parser_served_from_cache `{Outside} (o rt : pyval) (w : world)
    (c : row) (r : pyval) :
  fresh_rows reply_cache (Q_and (Q_eq "oid" o) (Q_eq "reply_type" rt))
             reply_cache w = [c] ->
  column "content" (cols c) = Some r ->
  reply_parser o rt w = (Ok r, noted (Invoked reply [o; rt]) w).
Proof.
  intros Hrows Hcol. unfold reply_parser, mbind at 1, se_bind at 1.
  rewrite note_noted.
  set (w1 := noted _ w).
  assert (Hb : reply_body o rt w1 = (Ok r, w1)).
  { unfold reply_body.
    pose proof (lookup_fresh_rows reply_cache
                  (Q_and (Q_eq "oid" o) (Q_eq "reply_type" rt)) reply_cache w1)
      as Hl.
    change (fresh_rows reply_cache (Q_and (Q_eq "oid" o) (Q_eq "reply_type" rt))
              reply_cache w1)
      with (fresh_rows reply_cache (Q_and (Q_eq "oid" o) (Q_eq "reply_type" rt))
              reply_cache w) in Hl.
    rewrite Hrows in Hl. destruct Hl as [i Hl].
    unfold mbind at 1, se_bind at 1. rewrite Hl.
    unfold mbind at 1, se_bind at 1. unfold attr. rewrite Hcol. reflexivity. }
  unfold mbind, se_bind. rewrite (safe_parser_ok _ _ _ _ Hb). reflexivity.
Qed.

(** X13.  Whenever [reply_parser] returns an exception instance, no cache
    table has changed. *)
Theorem reply_parser_error_writes_nothing `{Outside} (o rt : pyval)
    (w w' : world) (e : exn) :
  reply_parser o rt w = (Ok (VExc e), w') ->
  db w' = db w /\ clock w' = clock w.
Proof.
  unfold reply_parser. intros Hr.
  apply bind_inv in Hr as [([] & w1 & H1 & Hr) | (e' & _ & ?)]; [|discriminate].
  rewrite note_noted in H1. injection H1 as <-.
  apply bind_inv in Hr as [(r & w2 & H2 & Hr) | (e' & _ & ?)]; [|discriminate].
  injection Hr as Hv <-.
  assert (Hstep : forall s res s', reply_body o rt s = (res, s') ->
            (forall fields, res <> Ok (VDict fields)) ->
            db s' = db s /\ clock s' = clock s).
  { intros s res s' Hb Hex.
    apply reply_body_inv in Hb as [Hb|(r' & fields & -> & ->)]; [exact Hb|].
    destruct (Hex fields eq_refl). }
  apply safe_parser_inv in H2
    as [(a & -> & [Hb|(s1 & Hb1 & Hb)]) | (e' & -> & [Hb|(s1 & Hb1 & Hb)])];
    cbn [as_value] in Hv; subst.
  - eapply (Hstep _ _ _ Hb). discriminate.
  - destruct (Hstep _ _ _ Hb1) as [E1 E2]; [discriminate|].
    destruct (Hstep _ _ _ Hb) as [E3 E4]; [discriminate|].
    split; [rewrite E3, E1|rewrite E4, E2]; reflexivity.
  - eapply (Hstep _ _ _ Hb). discriminate.
  - destruct (Hstep _ _ _ Hb1) as [E1 E2]; [discriminate|].
    destruct (Hstep _ _ _ Hb) as [E3 E4]; [discriminate|].
    split; [rewrite E3, E1|rewrite E4, E2]; reflexivity.
Qed.


Lemma reply_parser_served_from_cache_witness :
  let w := example_world cached_replies [] in
  @reply_parser example_outside (VInt 170001) (VInt 1) w
  = (Ok with_comments, noted (Invoked reply [VInt 170001; VInt 1]) w).
Proof.
  cbv zeta.
  eapply (@reply_parser_served_from_cache example_outside).
  - vm_compute. reflexivity.
  - reflexivity.
Defined.

Lemma reply_parser_error_writes_nothing_witness :
  let w := example_world no_rows (example_net 4 0 "WORD" comments_closed) in
  let r := @reply_parser example_outside (VInt 170001) (VInt 1) w in
  fst r = Ok (VExc AttributeError) /\ db (snd r) = db w.
Proof.
  cbv zeta.
  set (w := example_world no_rows (example_net 4 0 "WORD" comments_closed)).
  assert (E : fst (@reply_parser example_outside (VInt 170001) (VInt 1) w)
              = Ok (VExc AttributeError)) by (vm_compute; reflexivity).
  split; [exact E|].
  apply (@reply_parser_error_writes_nothing example_outside _ _ _ _ _
           (run_pair _ _ _ E)).
Defined.

(** X15.  When the address that a link leads to matches the pattern of the
    API links, or none of the five patterns of the resolvers, [feed_parser]
    returns the URL error with that address and invokes no resolver.  The
    API pattern is tried first, so that an API link is refused even if it
    holds the host name of a resolver. *)
Theorem feed_parser_rejects_api_and_foreign_links `{Runtime} `{Outside}
    (url : pystr) (w w1 : world) (r : response) :
  get url [] (noted (Invoked feed_r [VStr url]) w) = (Ok r, w1) ->
  matches api_link (r_url r) = true \/
  Forall (fun p => matches p (r_url r) = false) known_links ->
  feed_parser url w = (Ok (Error (ParserException UrlError (r_url r))), w1) /\
  calls w1 = Invoked feed_r [VStr url] :: calls w.
Proof.
  intros Hget Hlink. split.
  - unfold feed_parser, mbind at 1, se_bind at 1. rewrite note_noted.
    assert (Hb : feed_body url (noted (Invoked feed_r [VStr url]) w)
                 = (Raise (ParserException UrlError (r_url r)), w1)).
    { unfold feed_body, mbind, se_bind. rewrite Hget.
      destruct Hlink as [Hapi|Hknown].
      - change (matches (Str "api." · Rep any_char 0 None · Str ".bilibili")%re
                        (r_url r)) with (matches api_link (r_url r)).
        rewrite Hapi. reflexivity.
      - destruct (matches _ (r_url r)); [reflexivity|].
        unfold known_links in Hknown.
        repeat match goal with
               | Hf : Forall _ (_ :: _) |- _ =>
                   let E := fresh "E" in
                   apply Forall_cons in Hf as [E Hf]; rewrite E
               end.
        reflexivity. }
    unfold mbind, se_bind.
    rewrite (safe_parser_other _ _ _ _ Hb) by discriminate. reflexivity.
  - apply (silent_get url []) in Hget. exact Hget.
Qed.

Lemma feed_parser_rejects_api_and_foreign_links_witness :
  let w := example_world no_rows
             [(lit "http://api.live.bilibili.com/room/1",
               json_response (lit "https://api.live.bilibili.com/room/1") VNone)] in
  fst (@feed_parser example_runtime example_outside
         (lit "http://api.live.bilibili.com/room/1") w)
  = Ok (Error (ParserException UrlError
                 (lit "https://api.live.bilibili.com/room/1"))).
Proof.
  cbv zeta.
  set (u := lit "http://api.live.bilibili.com/room/1").
  set (w := example_world no_rows _).
  assert (E : fst (@get example_outside u [] (noted (Invoked feed_r [VStr u]) w))
              = Ok (json_response (lit "https://api.live.bilibili.com/room/1") VNone))
    by (vm_compute; reflexivity).
  destruct (@feed_parser_rejects_api_and_foreign_links example_runtime
              example_outside u w _ _ (run_pair _ _ _ E)) as [Hf _].
  - left. vm_compute. reflexivity.
  - rewrite Hf. reflexivity.
Defined.


Section ReplyRoundTrip.
Context {OUT : Outside}.

Lemma reply_body_hit o rt (w : world) c r :
  fresh_rows reply_cache (Q_and (Q_eq "oid" o) (Q_eq "reply_type" rt))
             reply_cache w = [c] ->
  column "content" (cols c) = Some r ->
  reply_body o rt w = (Ok r, w).
Proof.
  intros Hrows Hcol. unfold reply_body.
  pose proof (lookup_fresh_rows reply_cache
                (Q_and (Q_eq "oid" o) (Q_eq "reply_type" rt)) reply_cache w)
    as Hl.
  rewrite Hrows in Hl. destruct Hl as [i Hl].
  rewrite (bind_ok _ _ _ _ _ Hl).
  unfold mbind at 1, se_bind at 1. unfold attr. rewrite Hcol. reflexivity.
Qed.

Lemma filter_nil_weaken {A} (p q : A -> bool) (l : list A) :
  List.filter p l = [] -> List.filter (fun x => p x && q x) l = [].
Proof.
  induction l as [|x l IH]; [reflexivity|]. simpl.
  destruct (p x); [discriminate|]. exact IH.
Qed.

Lemma get_or_none_miss t (q : Q) (w : world) :
  List.filter q (db w t) = [] -> get_or_none t [q] w = (Ok None, w).
Proof.
  intros Hq. rewrite get_or_none_rows.
  assert (E : List.filter (fun ir : nat * row =>
                             forallb (fun q0 : Q => q0 (snd ir)) [q])
                          (imap pair (db w t)) = []).
  { pose proof (filter_imap_snd q (db w t) (fun i => i)) as E0.
    rewrite Hq in E0.
    change (imap (fun i x => (i, x)) (db w t)) with (imap pair (db w t)) in E0.
    destruct (List.filter (fun ir => q (snd ir)) (imap pair (db w t)))
      as [|ir l] eqn:E; [|discriminate E0].
    rewrite <- E. apply List.filter_ext. intros ir. cbn [forallb].
    apply andb_true_r. }
  rewrite E. reflexivity.
Qed.

End ReplyRoundTrip.

(** X14.  When the comment cache has no row for the key and the endpoint
    answers with a payload whose ["data"] counts as true, [reply_parser]
    returns the payload and appends one row with the key, the payload and
    the current time; asked again at the same time, it returns the payload
    from that row without a request. *)
Theorem reply_parser_caches_what_it_fetched `{Outside} (o rt : pyval)
    (w : world) (resp : response) (n : net) (r data : pyval) :
  let q := Q_and (Q_eq "oid" o) (Q_eq "reply_type" rt) in
  let stored := {| cols := [("oid", o); ("reply_type", rt); ("content", r)]%string;
                   created := clock w |} in
  List.filter q (db w reply_cache) = [] ->
  client_get (BILI_API ++ lit "/x/v2/reply/main")
             [("oid", o); ("type", rt)]%string (outside w) = (Ok resp, n) ->
  r_json resp = Ok r -> py_get r "data" = Ok data -> truthy data = true ->
  db_conflict reply_cache stored (db w reply_cache) = false ->
  db_eq o o = true -> db_eq rt rt = true -> (0 <= timeout reply_cache)%Z ->
  exists w1,
    reply_parser o rt w = (Ok r, w1) /\
    db w1 reply_cache = db w reply_cache ++ [stored] /\
    reply_parser o rt w1 = (Ok r, noted (Invoked reply [o; rt]) w1).
Proof.
  cbv zeta. intros Hnone Hget Hjson Hdata Htruthy Hconf Ho Hrt Httl.
  set (q := Q_and (Q_eq "oid" o) (Q_eq "reply_type" rt)).
  set (stored := {| cols := _; created := clock w |}).
  set (w0 := noted (Invoked reply [o; rt]) w).
  set (w1 := set_db reply_cache (db w reply_cache ++ [stored])
               {| db := db w; clock := clock w; outside := n;
                  calls := calls w0 |}).
  assert (Hb : reply_body o rt w0 = (Ok r, w1)).
  { unfold reply_body. fold q.
    pose proof (lookup_fresh_rows reply_cache q reply_cache w0) as Hl.
    unfold fresh_rows in Hl. cbn [db clock w0 noted] in Hl.
    rewrite (filter_nil_weaken q _ _ Hnone) in Hl.
    rewrite (bind_ok _ _ _ _ _ Hl).
    unfold mbind at 1, se_bind at 1.
    unfold mbind at 1, se_bind at 1. unfold get at 1. cbn [outside w0 noted].
    rewrite Hget. unfold mbind at 1, se_bind at 1, lift at 1. rewrite Hjson.
    unfold mbind at 1, se_bind at 1, lift at 1. rewrite Hdata, Htruthy.
    cbn [mret se_ret]. unfold write_back.
    unfold mbind at 1, se_bind at 1. unfold mbind at 1, se_bind at 1.
    rewrite get_or_none_miss by exact Hnone.
    unfold create, mbind, se_bind, state. unfold w0, noted. cbn [db clock].
    rewrite Hconf. reflexivity. }
  exists w1. split; [|split].
  - unfold reply_parser. rewrite (bind_ok _ _ _ _ _ (note_noted _ w)).
    fold w0. unfold mbind, se_bind.
    rewrite (safe_parser_ok _ _ _ _ Hb). reflexivity.
  - unfold w1, set_db. cbn [db]. destruct (decide (reply_cache = reply_cache));
      [reflexivity|congruence].
  - assert (Hrows : fresh_rows reply_cache q reply_cache
                      (noted (Invoked reply [o; rt]) w1) = [stored]).
    { unfold fresh_rows, noted, w1, set_db. cbn [db clock].
      destruct (decide (reply_cache = reply_cache)); [|congruence].
      rewrite List.filter_app, (filter_nil_weaken q _ _ Hnone).
      cbn [List.filter app].
      assert (E1 : column "oid" (cols stored) = Some o) by reflexivity.
      assert (E2 : column "reply_type" (cols stored) = Some rt) by reflexivity.
      unfold q at 1, Q_and, Q_eq. rewrite E1, E2, Ho, Hrt.
      cbn [andb created stored].
      destruct (Z.leb_spec (clock w - timeout reply_cache) (clock w));
        [reflexivity|lia]. }
    unfold reply_parser. rewrite (bind_ok _ _ _ _ _ (note_noted _ w1)).
    unfold mbind, se_bind.
    rewrite (safe_parser_ok _ _ _ _
               (reply_body_hit o rt _ stored r Hrows eq_refl)).
    reflexivity.
Qed.


Lemma reply_parser_caches_what_it_fetched_witness :
  let w := example_world no_rows (example_net 4 0 "WORD" with_comments) in
  exists w1,
    @reply_parser example_outside (VInt 170001) (VInt 1) w
    = (Ok with_comments, w1) /\
    length (db w1 reply_cache) = 1%nat /\
    @reply_parser example_outside (VInt 170001) (VInt 1) w1
    = (Ok with_comments, noted (Invoked reply [VInt 170001; VInt 1]) w1).
Proof.
  cbv zeta.
  set (w := example_world no_rows (example_net 4 0 "WORD" with_comments)).
  destruct (@reply_parser_caches_what_it_fetched example_outside
              (VInt 170001) (VInt 1) w
              (json_response (lit "https://api.bilibili.com/x/v2/reply/main")
                             with_comments)
              (example_net 4 0 "WORD" with_comments)
              with_comments (obj [("top"%string, VNone)]))
    as (w1 & H1 & H2 & H3); try reflexivity.
  - vm_compute. discriminate.
  - exists w1. split; [exact H1|]. split; [rewrite H2; reflexivity|exact H3].
Defined.

(** ** What the resolvers return *)

Section Shapes.
Context {RT : Runtime} {OUT : Outside}.

Lemma wrapped_returns name url (body : SE world feed_obj) (Q : feed_obj -> Prop) :
  returns body Q ->
  returns (_ ← note (Invoked name [VStr url]); safe_parser body)
          (fun r => match r with Value fo => Q fo | Error _ => True end).
Proof.
  intros Hb w r w' H.
  apply bind_inv in H as [([] & w1 & _ & H) | (e & _ & ?)]; [|discriminate].
  destruct r as [fo|e]; [|exact I].
  apply safe_parser_value in H as [w0 H]. eapply Hb, H.
Qed.

Lemma mediaurls_of_truthy (v : pyval) :
  truthy v = true -> match v with VList l => l | _ => [v] end <> [].
Proof.
  intros Hv. destruct v as [| | | |l| |]; try discriminate.
  destruct l; [discriminate Hv|discriminate].
Qed.

Ltac shape_step :=
  first
    [ apply returns_raise
    | apply returns_bind; intros ?
    | match goal with
      | |- returns (match ?x with _ => _ end) _ => destruct x eqn:?
      | |- returns (if ?b then _ else _) _ => destruct b eqn:?
      | |- returns (let '(_, _) := ?x in _) _ => destruct x eqn:?
      end ].

Lemma audio_body_shape url : returns (audio_body url) (resolved_shape audio_r).
Proof.
  unfold audio_body. repeat shape_step.
  all: apply returns_ret; cbn -[lit]; auto.
Qed.

Lemma live_body_shape url : returns (live_body url) (resolved_shape live_r).
Proof.
  unfold live_body.
  destruct (search live_re url) as [m|]; [|apply returns_raise].
  apply returns_bind. intros n. apply returns_bind. intros cache.
  eapply (returns_bind_strong _ _
            (fun p : live * pyval => l_feed (fst p) = new_feed url)).
  - destruct cache as [[i c]|]; repeat shape_step; apply returns_ret; reflexivity.
  - intros [f detail] Hf. cbn [fst] in Hf. repeat shape_step.
    all: apply returns_ret; cbn -[lit]; rewrite Hf; repeat split.
Qed.

Lemma video_body_shape url : returns (video_body url) (resolved_shape video_r).
Proof.
  unfold video_body. repeat shape_step.
  all: apply returns_ret; cbn -[lit]; auto.
Qed.

Lemma dynamic_body_shape url : returns (dynamic_body url) (resolved_shape dynamic_r).
Proof.
  unfold dynamic_body. repeat shape_step.
  all: apply returns_ret; cbn -[lit]; auto.
Qed.

Lemma read_body_shape url : returns (read_body url) (resolved_shape read_r).
Proof.
  unfold read_body.
  destruct (search read_re url) as [m|]; [|apply returns_raise].
  do 9 (apply returns_bind; intros ?).
  eapply (returns_bind_strong _ _
            (fun f : read_ =>
               mediaraws (r_feed f) = false /\ replycontent (r_feed f) = None /\
               ((mediatype (r_feed f) = lit "image" /\ _mediaurls (r_feed f) <> []) \/
                (mediatype (r_feed f) = [] /\ _mediaurls (r_feed f) = [])))).
  - destruct (soup_find _ og_image); [|apply returns_raise].
    apply returns_bind; intros v. destruct (truthy v) eqn:Hv; apply returns_ret.
    + cbn -[lit]. repeat split. left. split; [reflexivity|].
      apply mediaurls_of_truthy, Hv.
    + cbn -[lit]. auto.
  - intros f (Hr & Hc & Hm). repeat shape_step.
    all: apply returns_ret; cbn -[lit]; repeat split; eauto.
Qed.

End Shapes.

(** X16.  A feed that a resolver returns is of the class of that resolver.
    Tracks have the media type "audio" and raw media, videos and rooms the
    media type "image", an article the media type "image" and a media URL,
    or neither.  A room never has a [replycontent]; every other feed has
    one. *)
Theorem resolved_feed_shape `{Runtime} `{Outside} (url : pystr)
    (w w' : world) (fo : feed_obj) :
  (dynamic_parser url w = (Ok (Value fo), w') -> resolved_shape dynamic_r fo) /\
  (audio_parser url w = (Ok (Value fo), w') -> resolved_shape audio_r fo) /\
  (live_parser url w = (Ok (Value fo), w') -> resolved_shape live_r fo) /\
  (video_parser url w = (Ok (Value fo), w') -> resolved_shape video_r fo) /\
  (read_parser url w = (Ok (Value fo), w') -> resolved_shape read_r fo).
Proof.
  repeat split; intros Hr.
  - exact (wrapped_returns dynamic_r url _ _ (dynamic_body_shape url) _ _ _ Hr).
  - exact (wrapped_returns audio_r url _ _ (audio_body_shape url) _ _ _ Hr).
  - exact (wrapped_returns live_r url _ _ (live_body_shape url) _ _ _ Hr).
  - exact (wrapped_returns video_r url _ _ (video_body_shape url) _ _ _ Hr).
  - exact (wrapped_returns read_r url _ _ (read_body_shape url) _ _ _ Hr).
Qed.


Lemma resolved_feed_shape_witness :
  let r := @live_parser example_runtime example_outside
             (lit "https://live.bilibili.com/1")
             (example_world no_rows (example_net 4 0 "WORD" with_comments)) in
  exists l, fst r = Ok (Value (Live l)) /\ replycontent (l_feed l) = None.
Proof.
  cbv zeta.
  set (u := lit "https://live.bilibili.com/1").
  set (W := example_world no_rows (example_net 4 0 "WORD" with_comments)).
  eexists.
  assert (E : fst (@live_parser example_runtime example_outside u W)
              = Ok (Value (Live ?[l]))) by (vm_compute; reflexivity).
  split; [exact E|].
  match type of E with _ = Ok (Value (Live ?x)) => set (l0 := x) in * end.
  destruct (@resolved_feed_shape example_runtime example_outside u W
              (snd (@live_parser example_runtime example_outside u W))
              (Live l0)) as (_ & _ & Hl & _).
  apply (Hl (run_pair _ _ _ E)).
Defined.

Section Nested.
Context {RT : Runtime} {OUT : Outside}.

Lemma copy_from_inv fu f f' :
  copy_from fu f = Ok f' ->
  exists sub, fu = Value sub /\
    fu_user fu = Ok (_user f') /\
    uid (d_feed f') = uid (base sub) /\
    extra_markdown (d_feed f') = extra_markdown (base sub) /\
    mediathumb (d_feed f') = mediathumb (base sub) /\
    mediatitle (d_feed f') = mediatitle (base sub) /\
    mediaduration (d_feed f') = mediaduration (base sub) /\
    _mediaurls (d_feed f') = _mediaurls (base sub) /\
    mediatype (d_feed f') = mediatype (base sub) /\
    mediaraws (d_feed f') = mediaraws (base sub) /\
    _dcontent f' = _dcontent f /\ detailcontent f' = detailcontent f.
Proof.
  unfold copy_from. destruct (fu_user fu) as [u|] eqn:Hu; [|discriminate].
  cbn [mbind result_bind]. destruct fu as [sub|e]; [|discriminate].
  cbn [fu_base mbind result_bind]. intros [= <-].
  exists sub. repeat split.
Qed.

End Nested.


Section NestedUpdates.
Context {RT : Runtime} {OUT : Outside}.

Lemma kind_of_dispatch (z : Z) (k : nested_kind) :
  kind_of z = Some k ->
  py_in (VInt z) (MUSIC ++ VIDEO ++ LIVE ++ ARTICLE) = true /\
  py_in (VInt z) MUSIC = (if k is is_music then true else false) /\
  (k <> is_music ->
   py_in (VInt z) LIVE = (if k is is_live then true else false)) /\
  (k <> is_music -> k <> is_live ->
   py_in (VInt z) VIDEO = (if k is is_video then true else false)).
Proof.
  unfold kind_of. rewrite !py_in_app. unfold MUSIC, VIDEO, LIVE, ARTICLE.
  rewrite !py_in_int. cbn [existsb]. rewrite !existsb_range.
  destruct (Z.eqb_spec z 256); [intros [= <-]; subst; repeat split; congruence|].
  destruct ((4200 <=? z) && (z <? 4300))%Z eqn:El;
    [intros [= <-]; repeat split; try congruence; lia|].
  destruct ((z =? 8) || (z =? 512) || (4000 <=? z) && (z <? 4200))%Z eqn:Ev;
    [intros [= <-]; repeat split; try congruence; lia|].
  destruct (Z.eqb_spec z 64); [|discriminate].
  intros [= <-]. repeat split; try congruence; lia.
Qed.

Lemma nested_parser_total k id w :
  exists fu w2, nested_parser k id w = (Ok fu, w2).
Proof.
  destruct k; cbn [nested_parser];
    unfold audio_parser, live_parser, video_parser, read_parser;
    unfold mbind, se_bind; rewrite note_noted;
    match goal with
    | |- context [safe_parser ?b ?s] =>
        destruct (safe_parser_total b s) as (v & s' & ->)
    end; eauto.
Qed.

Lemma dynamic_extra_failed f w z k c id e w1 :
  origin_type f = Ok (VInt z) -> kind_of z = Some k ->
  card f = Ok c -> py_get c (nested_key k) = Ok id ->
  nested_parser k id w = (Ok (Error e), w1) ->
  dynamic_extra f w = (Raise AttributeError, w1).
Proof.
  intros Hot Hk Hc Hid Hfu.
  destruct (kind_of_dispatch z k Hk) as (E & Em & El & Ev).
  unfold dynamic_extra. unfold mbind, se_bind, lift. rewrite Hot, E.
  destruct k; rewrite Em; try rewrite (El ltac:(discriminate));
    try rewrite (Ev ltac:(discriminate) ltac:(discriminate));
    cbn [nested_key nested_parser] in *; rewrite Hc, Hid, Hfu;
    try reflexivity.
  destruct c; try discriminate Hid. cbn [py_get].
  destruct (truthy _); reflexivity.
Qed.

Lemma dynamic_forward_feed f f' :
  dynamic_forward f = Ok f' -> d_feed f' = d_feed f /\ _user f' = _user f.
Proof.
  unfold dynamic_forward. destruct (has_forward f) as [[]|]; simpl;
    [|intros [= <-]; auto|discriminate].
  destruct (forward_card f); simpl; [|discriminate].
  repeat match goal with
         | |- context [get2 ?a ?b ?c] => destruct (get2 a b c); simpl; [|discriminate]
         end.
  intros [= <-]. auto.
Qed.

Lemma dynamic_extra_nested f w z k f1 w1 :
  origin_type f = Ok (VInt z) -> kind_of z = Some k ->
  dynamic_extra f w = (Ok f1, w1) ->
  exists c id fu content,
    card f = Ok c /\ py_get c (nested_key k) = Ok id /\
    nested_parser k id w = (Ok fu, w1) /\
    copy_from fu (set_dcontent content f) = Ok f1.
Proof.
  intros Hot Hk H.
  destruct (kind_of_dispatch z k Hk) as (E & Em & El & Ev).
  unfold dynamic_extra in H.
  inv_bind H as ot w0 H0. inv_lift H0. rewrite Hot in H0. injection H0 as <-.
  rewrite E in H.
  inv_bind H as p w2 Hp. destruct p as [fu f']. inv_lift H.
  destruct k; rewrite Em in Hp; try rewrite (El ltac:(discriminate)) in Hp;
    try rewrite (Ev ltac:(discriminate) ltac:(discriminate)) in Hp;
    cbn [nested_key nested_parser].
  - inv_bind Hp as c w3 Hc. inv_lift Hc.
    inv_bind Hp as id w4 Hid. inv_lift Hid.
    inv_bind Hp as fu' w5 Hfu.
    inv_bind Hp as cont w6 Hcont. inv_lift Hcont.
    injection Hp as <- <- <-. eauto 10.
  - inv_bind Hp as c w3 Hc. inv_lift Hc.
    inv_bind Hp as id w4 Hid. inv_lift Hid.
    inv_bind Hp as fu' w5 Hfu.
    inv_bind Hp as cont w6 Hcont. inv_lift Hcont.
    injection Hp as <- <- <-. eauto 10.
  - inv_bind Hp as c w3 Hc. inv_lift Hc.
    inv_bind Hp as id w4 Hid. inv_lift Hid.
    inv_bind Hp as fu' w5 Hfu.
    inv_bind Hp as nd w6 Hnd. inv_lift Hnd.
    inv_bind Hp as cont w7 Hcont.
    injection Hp as <- <- <-.
    destruct (truthy nd); inv_lift Hcont; eauto 10.
  - inv_bind Hp as c w3 Hc. inv_lift Hc.
    inv_bind Hp as id w4 Hid. inv_lift Hid.
    inv_bind Hp as fu' w5 Hfu.
    inv_bind Hp as cont w6 Hcont. inv_lift Hcont.
    injection Hp as <- <- <-. eauto 10.
Qed.

End NestedUpdates.

(** ** Status updates that are resolved through another resolver *)

Section Runs.
Context {RT : Runtime} {OUT : Outside}.

(** A resolved status update, step by step: the attempt that gave it, the
    fetch of the detail, the dispatch on [origin_type], the forward text and
    the comments. *)
Lemma dynamic_parser_run url w d w' :
  dynamic_parser url w = (Ok (Value (Dynamic d)), w') ->
  exists w0 f0 wa f1 wb f2 o rt rc,
    attempt (dynamic_body url) (Invoked dynamic_r [VStr url]) w w0 /\
    dynamic_fetch url w0 = (Ok f0, wa) /\
    dynamic_extra f0 wa = (Ok f1, wb) /\
    dynamic_forward f1 = Ok f2 /\
    oid f2 = Ok o /\ reply_type f2 = Ok rt /\
    reply_parser o rt wb = (Ok rc, w') /\
    d = on_dfeed (set_replycontent rc) f2.
Proof.
  intros H. unfold dynamic_parser in H.
  unfold mbind at 1, se_bind at 1 in H. rewrite note_noted in H.
  apply safe_parser_inv in H as [(a & Ha & Hb) | (e & He & _)];
    [|discriminate He].
  injection Ha as <-.
  assert (Hbody : forall s, dynamic_body url s = (Ok (Dynamic d), w') ->
            exists f0 wa f1 wb f2 o rt rc,
              dynamic_fetch url s = (Ok f0, wa) /\
              dynamic_extra f0 wa = (Ok f1, wb) /\
              dynamic_forward f1 = Ok f2 /\
              oid f2 = Ok o /\ reply_type f2 = Ok rt /\
              reply_parser o rt wb = (Ok rc, w') /\
              d = on_dfeed (set_replycontent rc) f2).
  { intros s Hrun. unfold dynamic_body in Hrun.
    inv_bind Hrun as f0 wa Hfetch.
    inv_bind Hrun as f1 wb Hextra.
    inv_bind Hrun as f2 wc Hfwd. inv_lift Hfwd.
    inv_bind Hrun as o wd Ho. inv_lift Ho.
    inv_bind Hrun as rt we Hrt. inv_lift Hrt.
    inv_bind Hrun as rc wf Hrc.
    injection Hrun as <- <-. eauto 15. }
  destruct Hb as [Hb | (s1 & Hr & Hb)].
  - destruct (Hbody _ Hb) as (f0 & wa & f1 & wb & f2 & o & rt & rc & Hrest).
    exists (noted (Invoked dynamic_r [VStr url]) w), f0, wa, f1, wb, f2, o, rt, rc.
    split; [left; reflexivity|exact Hrest].
  - destruct (Hbody _ Hb) as (f0 & wa & f1 & wb & f2 & o & rt & rc & Hrest).
    exists s1, f0, wa, f1, wb, f2, o, rt, rc.
    split; [right; exact Hr|exact Hrest].
Qed.

Lemma has_forward_ext (a b : dynamic) :
  detailcontent a = detailcontent b -> has_forward a = has_forward b.
Proof. intros E. unfold has_forward, detail_card. rewrite E. reflexivity. Qed.

Lemma noted_then_grows {A} (c : call) (m : SE world A) w r w' :
  grows m -> (_ ← note c; m) w = (r, w') -> In c (calls w').
Proof.
  intros Hm H. unfold mbind, se_bind in H. rewrite note_noted in H.
  eapply extends_In; [eapply Hm, H|]. left. reflexivity.
Qed.

Lemma nested_parser_recorded k id w r w' :
  nested_parser k id w = (r, w') ->
  In (Invoked (nested_resolver k) [VStr (nested_url k id)]) (calls w').
Proof.
  destruct k; cbn [nested_parser nested_resolver nested_url];
    unfold audio_parser, live_parser, video_parser, read_parser;
    apply noted_then_grows; apply grows_safe_parser.
  - unfold audio_body. repeat grows_step ltac:(apply grows_reply_parser).
  - unfold live_body. repeat grows_step ltac:(apply grows_reply_parser).
  - apply grows_video_body.
  - unfold read_body. repeat grows_step ltac:(apply grows_reply_parser).
Qed.

(** The getters of a status update that is no repost, and of a repost. *)
Lemma dynamic_content_plain (d : dynamic) (t : pystr) :
  has_forward d = Ok false -> _dcontent d = VStr t ->
  dynamic_content d = Ok (shrink_text t).
Proof.
  intros Hf Hc. unfold dynamic_content. rewrite Hf, Hc.
  cbn [mbind result_bind mret result_ret py_add app]. apply shrink_line_value.
Qed.

Lemma dynamic_content_repost (d : dynamic) :
  has_forward d = Ok true ->
  dynamic_content d
  = (p ← repost_prefix d; c ← py_add p (_dcontent d); shrink_line c).
Proof. intros Hf. unfold dynamic_content, repost_prefix. rewrite Hf. reflexivity. Qed.

Lemma dynamic_user_of (d : dynamic) (hf : bool) :
  has_forward d = Ok hf ->
  dynamic_user d = Ok (if hf then forward_user d else _user d).
Proof. intros Hf. unfold dynamic_user. rewrite Hf. reflexivity. Qed.

(** The sub-feed of a video is a [video], and its content is shrunk. *)
Lemma video_subfeed url w sub w' text :
  video_parser url w = (Ok (Value sub), w') ->
  fu_content (Value sub) = Ok text ->
  exists v t, sub = Video v /\ content (v_feed v) = Ok t /\ text = VStr t /\
    (contains [CR; LF] t = false -> shrink_text t = t).
Proof.
  intros Hv Hc.
  pose proof (wrapped_returns video_r _ _ _ (video_body_shape _) _ _ _ Hv) as Hs.
  destruct sub as [d|a|l|v|r]; try destruct Hs.
  cbn [fu_content base] in Hc.
  destruct (content (v_feed v)) as [t|e] eqn:Ht; [|discriminate].
  injection Hc as <-. exists v, t.
  split; [reflexivity|]. split; [exact Ht|]. split; [reflexivity|].
  apply shrink_text_fixed. eapply content_shrunk, Ht.
Qed.

End Runs.

(** C7, as amended.  A status update whose [origin_type] is 8, 512 or in
    4000-4199 is resolved through the video resolver: in the run that gave
    the update, right after the detail was fetched, the video resolver was
    invoked with the [aid] of the card and returned a video, and its call is
    recorded.  The content assigned to the update is the card's own
    description when the card supplies one, else the content of that video
    sub-feed, which [shrink_line] leaves as it is unless it holds a CR LF.
    The content that the update shows is the shrunk form of the assigned
    content when the update is no repost; for a repost the text of the
    repost and the name of the author of the video come before it. *)
Theorem video_update_resolves_video `{Runtime} `{Outside}
    (url : pystr) (w w' : world) (d : dynamic) (z : Z) :
  dynamic_parser url w = (Ok (Value (Dynamic d)), w') ->
  origin_type d = Ok (VInt z) ->
  (z = 8 \/ z = 512 \/ 4000 <= z <= 4199)%Z ->
  exists w0 f wa c id nd sub wb text,
    attempt (dynamic_body url) (Invoked dynamic_r [VStr url]) w w0 /\
    dynamic_fetch url w0 = (Ok f, wa) /\
    card d = Ok c /\ py_get c "aid" = Ok id /\ py_get c "new_desc" = Ok nd /\
    video_parser (lit "b23.tv/av" ++ py_str id) wa
    = (Ok (Value (Video sub)), wb) /\
    (exists o rt rc, reply_parser o rt wb = (Ok rc, w')) /\
    In (Invoked video_r [VStr (lit "b23.tv/av" ++ py_str id)]) (calls w') /\
    _dcontent d = text /\
    (if truthy nd then text = nd
     else exists t, content (v_feed sub) = Ok t /\ text = VStr t /\
            (contains [CR; LF] t = false -> shrink_text t = t)) /\
    (has_forward d = Ok false ->
     forall t, text = VStr t -> dynamic_content d = Ok (shrink_text t)) /\
    (has_forward d = Ok true ->
     dynamic_content d
     = (p ← repost_prefix d; c ← py_add p text; shrink_line c)).
Proof.
  intros Hrun Hot Hz.
  destruct (dynamic_parser_run _ _ _ _ Hrun)
    as (w0 & f0 & wa & f1 & wb & f2 & o & rt & rc & Hatt & Hfetch & Hextra
        & Hfwd & Ho & Hrt & Hrc & ->).
  pose proof (dynamic_forward_keeps _ _ Hfwd) as [Hd2 Hc2].
  pose proof (dynamic_extra_detail f0 _ _ _ Hextra) as Hd1. simpl in Hd1.
  assert (Hd : detailcontent (on_dfeed (set_replycontent rc) f2)
               = detailcontent f0) by (cbn; congruence).
  rewrite (origin_type_ext _ _ Hd) in Hot. rewrite (card_ext _ _ Hd).
  destruct (dynamic_extra_video f0 wa f1 wb z Hextra Hot)
    as (c & aid_ & nd & fu & text & Hc & Hid & Hnd & Hv & Htext & Hcopy); [lia|].
  apply copy_from_inv in Hcopy
    as (sub & -> & _ & _ & _ & _ & _ & _ & _ & _ & _ & Hdc & _).
  cbn [_dcontent set_dcontent] in Hdc.
  assert (Hsub : exists v, sub = Video v).
  { pose proof (wrapped_returns video_r _ _ _ (video_body_shape _) _ _ _ Hv) as Hs.
    destruct sub as [?|?|?|v|?]; try destruct Hs. eauto. }
  destruct Hsub as [v ->].
  assert (Hdd : _dcontent (on_dfeed (set_replycontent rc) f2) = text)
    by (cbn [_dcontent on_dfeed]; congruence).
  exists w0, f0, wa, c, aid_, nd, v, wb, text.
  split; [exact Hatt|]. split; [exact Hfetch|]. split; [exact Hc|].
  split; [exact Hid|]. split; [exact Hnd|]. split; [exact Hv|].
  split; [eauto|]. split.
  { eapply extends_In; [eapply grows_reply_parser, Hrc|].
    eapply video_parser_recorded, Hv. }
  split; [exact Hdd|]. split; [|split].
  - destruct (truthy nd); [exact Htext|].
    destruct (video_subfeed _ _ _ _ _ Hv Htext) as (v' & t & [= <-] & Ht & -> & Hfix).
    eauto.
  - intros Hf t Ht. apply dynamic_content_plain; [exact Hf|]. congruence.
  - intros Hf. rewrite (dynamic_content_repost _ Hf), Hdd. reflexivity.
Qed.

Lemma video_update_resolves_video_witness :
  let r := @dynamic_parser example_runtime example_outside
             (lit "https://t.bilibili.com/123")
             (example_world no_rows (example_net 8 0 "VIDEO" with_comments)) in
  exists d,
    fst r = Ok (Value (Dynamic d)) /\
    In (Invoked video_r [str "b23.tv/av170001"]) (calls (snd r)) /\
    @dynamic_content example_runtime d = Ok (lit "about the video").
Proof.
  cbv zeta.
  set (u := lit "https://t.bilibili.com/123").
  set (W := example_world no_rows (example_net 8 0 "VIDEO" with_comments)).
  eexists.
  assert (E : fst (@dynamic_parser example_runtime example_outside u W)
              = Ok (Value (Dynamic ?[d]))) by (vm_compute; reflexivity).
  split; [exact E|].
  match type of E with _ = Ok (Value (Dynamic ?x)) => set (d0 := x) in * end.
  destruct (@video_update_resolves_video example_runtime example_outside
              u W _ d0 8 (run_pair _ _ _ E))
    as (w0 & f & wa & c & aid_ & nd & sub & wb & text & _ & _ & Hc & Hid & Hnd
        & _ & _ & Hin & Hdc & _ & Hplain & _).
  - vm_compute. reflexivity.
  - lia.
  - vm_compute in Hc. injection Hc as <-.
    vm_compute in Hid. injection Hid as <-.
    split; [exact Hin|].
    rewrite (Hplain ltac:(vm_compute; reflexivity) (lit "about the video"));
      [vm_compute; reflexivity|].
    rewrite <- Hdc. vm_compute. reflexivity.
Defined.

(** C7 as stated fails.  A status update of [origin_type] 2 is a picture
    post, which is resolved without any call of the video resolver.  A
    repost of a video update shows the text of the repost and the name of
    the author before the content of the video sub-feed.  And the
    description [" my video "] of a card is shown as ["my video"]. *)
Lemma updates_against_the_video_claim :
  (let r := @dynamic_parser example_runtime example_outside
              (lit "https://t.bilibili.com/123")
              (example_world no_rows (example_net 2 0 "PIC" with_comments)) in
   exists d,
     fst r = Ok (Value (Dynamic d)) /\ @origin_type d = Ok (VInt 2) /\
     forall args, ~ In (Invoked video_r args) (calls (snd r))) /\
  (let r := @dynamic_parser update_runtime example_outside
              (lit "https://t.bilibili.com/123")
              (example_world no_rows (example_net 1 8 "REPOST" with_comments)) in
   exists d,
     fst r = Ok (Value (Dynamic d)) /\
     @origin_type d = Ok (VInt 8) /\
     (c ← @card update_runtime d; py_get c "new_desc") = Ok (str "") /\
     _dcontent d = str "about the video" /\
     @dynamic_content update_runtime d
     = Ok (lit "look//@up:" ++ [LF] ++ lit "about the video")) /\
  (let r := @dynamic_parser update_runtime example_outside
              (lit "https://t.bilibili.com/123")
              (example_world no_rows (example_net 8 0 "DESCRIBED" with_comments)) in
   exists d,
     fst r = Ok (Value (Dynamic d)) /\
     @origin_type d = Ok (VInt 8) /\
     (c ← @card update_runtime d; py_get c "new_desc") = Ok (str " my video ") /\
     @dynamic_content update_runtime d = Ok (lit "my video")).
Proof.
  cbv zeta.
  set (u := lit "https://t.bilibili.com/123").
  split; [|split].
  - set (W := example_world no_rows (example_net 2 0 "PIC" with_comments)).
    eexists. split; [vm_compute; reflexivity|].
    split; [vm_compute; reflexivity|].
    assert (E : calls (snd (@dynamic_parser example_runtime example_outside u W))
                = [Invoked reply [VInt 456; VInt 11]; Invoked dynamic_r [VStr u]])
      by (vm_compute; reflexivity).
    rewrite E. intros args [Hin|[Hin|[]]]; discriminate.
  - eexists. split; [vm_compute; reflexivity|].
    repeat split; vm_compute; reflexivity.
  - eexists. split; [vm_compute; reflexivity|].
    repeat split; vm_compute; reflexivity.
Qed.

(** X17.  A resolved status update of one of the nested kinds (track, room,
    video, article) went through the resolver of that kind: in the run that
    gave the update, right after the detail was fetched, that resolver was
    invoked with the identifier of the card and returned a feed, and its
    call is recorded.  The update has the uid, extra text and media fields
    of that feed, and the user of that feed is assigned as its user; its
    [user] getter returns that user when the update is no repost, and the
    name of the reposting user when it is one. *)
Theorem nested_update_copies_subfeed `{Runtime} `{Outside} (url : pystr)
    (w w' : world) (d : dynamic) (z : Z) (k : nested_kind) :
  dynamic_parser url w = (Ok (Value (Dynamic d)), w') ->
  origin_type d = Ok (VInt z) -> kind_of z = Some k ->
  exists w0 f wa c id sub wb,
    attempt (dynamic_body url) (Invoked dynamic_r [VStr url]) w w0 /\
    dynamic_fetch url w0 = (Ok f, wa) /\
    card d = Ok c /\ py_get c (nested_key k) = Ok id /\
    nested_parser k id wa = (Ok (Value sub), wb) /\
    (exists o rt rc, reply_parser o rt wb = (Ok rc, w')) /\
    In (Invoked (nested_resolver k) [VStr (nested_url k id)]) (calls w') /\
    _user d = user (base sub) /\
    (forall hf : bool, has_forward d = Ok hf ->
       dynamic_user d = Ok (if hf then forward_user d else user (base sub))) /\
    uid (d_feed d) = uid (base sub) /\
    extra_markdown (d_feed d) = extra_markdown (base sub) /\
    mediathumb (d_feed d) = mediathumb (base sub) /\
    mediatitle (d_feed d) = mediatitle (base sub) /\
    mediaduration (d_feed d) = mediaduration (base sub) /\
    _mediaurls (d_feed d) = _mediaurls (base sub) /\
    mediatype (d_feed d) = mediatype (base sub) /\
    mediaraws (d_feed d) = mediaraws (base sub).
Proof.
  intros Hrun Hot Hk.
  destruct (dynamic_parser_run _ _ _ _ Hrun)
    as (w0 & f0 & wa & f1 & wb & f2 & o & rt & rc & Hatt & Hfetch & Hextra
        & Hfwd & Ho & Hrt & Hrc & ->).
  pose proof (dynamic_forward_keeps _ _ Hfwd) as [Hd2 _].
  apply dynamic_forward_feed in Hfwd as [Hf2 Hu2].
  pose proof (dynamic_extra_detail f0 _ _ _ Hextra) as Hd1. simpl in Hd1.
  assert (Hd : detailcontent (on_dfeed (set_replycontent rc) f2)
               = detailcontent f0) by (cbn; congruence).
  rewrite (origin_type_ext _ _ Hd) in Hot. rewrite (card_ext _ _ Hd).
  destruct (dynamic_extra_nested f0 wa z k f1 wb Hot Hk Hextra)
    as (c & id & fu & cont & Hc & Hid & Hfu & Hcopy).
  apply copy_from_inv in Hcopy
    as (sub & -> & Hu & H1 & H2 & H3 & H4 & H5 & H6 & H7 & H8 & _).
  assert (Huser : _user f1 = user (base sub)).
  { assert (Hsub : fu_user (Value sub) = Ok (user (base sub)) \/
                   exists d', sub = Dynamic d').
    { destruct sub; cbn; eauto. }
    destruct Hsub as [Hsub|[d' ->]]; [congruence|].
    exfalso.
    assert (Hshape : match k with
                     | is_music => resolved_shape audio_r (Dynamic d')
                     | is_live => resolved_shape live_r (Dynamic d')
                     | is_video => resolved_shape video_r (Dynamic d')
                     | is_article => resolved_shape read_r (Dynamic d')
                     end).
    { destruct k; cbn [nested_parser] in Hfu.
      - exact (wrapped_returns audio_r _ _ _ (audio_body_shape _) _ _ _ Hfu).
      - exact (wrapped_returns live_r _ _ _ (live_body_shape _) _ _ _ Hfu).
      - exact (wrapped_returns video_r _ _ _ (video_body_shape _) _ _ _ Hfu).
      - exact (wrapped_returns read_r _ _ _ (read_body_shape _) _ _ _ Hfu). }
    destruct k; exact Hshape. }
  assert (Hud : _user (on_dfeed (set_replycontent rc) f2) = user (base sub))
    by (cbn [_user on_dfeed]; congruence).
  exists w0, f0, wa, c, id, sub, wb.
  split; [exact Hatt|]. split; [exact Hfetch|]. split; [exact Hc|].
  split; [exact Hid|]. split; [exact Hfu|]. split; [eauto|]. split.
  { eapply extends_In; [eapply grows_reply_parser, Hrc|].
    eapply nested_parser_recorded, Hfu. }
  split; [exact Hud|]. split.
  { intros hf Hhf. rewrite (dynamic_user_of _ hf Hhf), Hud. reflexivity. }
  cbn [d_feed on_dfeed uid extra_markdown mediathumb mediatitle
       mediaduration _mediaurls mediatype mediaraws set_replycontent].
  rewrite Hf2. repeat split; assumption.
Qed.

(** X18.  When the resolver of the nested content of a status update returns
    an error, the status update is resolved to [AttributeError], not to that
    error. *)
Theorem failed_nested_resolver_is_masked `{Runtime} `{Outside} (url : pystr)
    (w w0 w1 : world) (f : dynamic) (z : Z) (k : nested_kind) (c id : pyval)
    (e : exn) :
  dynamic_fetch url (noted (Invoked dynamic_r [VStr url]) w) = (Ok f, w0) ->
  origin_type f = Ok (VInt z) -> kind_of z = Some k ->
  card f = Ok c -> py_get c (nested_key k) = Ok id ->
  nested_parser k id w0 = (Ok (Error e), w1) ->
  dynamic_parser url w = (Ok (Error AttributeError), w1).
Proof.
  intros Hfetch Hot Hk Hc Hid Hfu.
  unfold dynamic_parser, mbind at 1, se_bind at 1. rewrite note_noted.
  apply safe_parser_other; [|discriminate].
  unfold dynamic_body, mbind at 1, se_bind at 1. rewrite Hfetch.
  unfold mbind at 1, se_bind at 1.
  rewrite (dynamic_extra_failed f w0 z k c id e w1 Hot Hk Hc Hid Hfu).
  reflexivity.
Qed.


Lemma nested_update_copies_subfeed_witness :
  let r := @dynamic_parser example_runtime example_outside
             (lit "https://t.bilibili.com/123")
             (example_world no_rows (example_net 256 0 "MUSIC" with_comments)) in
  exists d sub,
    fst r = Ok (Value (Dynamic d)) /\
    In (Invoked audio_r [str "bilibili.com/audio/au12345"]) (calls (snd r)) /\
    @dynamic_user d = Ok (user (base sub)) /\
    _mediaurls (d_feed d) = _mediaurls (base sub) /\
    mediatype (d_feed d) = mediatype (base sub).
Proof.
  cbv zeta.
  set (u := lit "https://t.bilibili.com/123").
  set (W := example_world no_rows (example_net 256 0 "MUSIC" with_comments)).
  eexists.
  assert (E : fst (@dynamic_parser example_runtime example_outside u W)
              = Ok (Value (Dynamic ?[d]))) by (vm_compute; reflexivity).
  match type of E with _ = Ok (Value (Dynamic ?x)) => set (d0 := x) in * end.
  destruct (@nested_update_copies_subfeed example_runtime example_outside
              u W _ d0 256 is_music (run_pair _ _ _ E))
    as (w0 & f & wa & c & id & sub & wb & _ & _ & Hc & Hid & _ & _ & Hin & _
        & Hget & _ & _ & _ & _ & _ & Hm & Ht & _).
  - vm_compute. reflexivity.
  - reflexivity.
  - vm_compute in Hc. injection Hc as <-.
    vm_compute in Hid. injection Hid as <-.
    exists sub. split; [exact E|]. split; [exact Hin|].
    split; [exact (Hget false ltac:(vm_compute; reflexivity))|].
    split; [exact Hm|exact Ht].
Defined.

Lemma failed_nested_resolver_is_masked_witness :
  let w := example_world no_rows (detail_only 256 "MUSIC") in
  fst (@audio_parser example_runtime example_outside
         (lit "bilibili.com/audio/au12345") w) = Ok (Error (Upstream 404)) /\
  fst (@dynamic_parser example_runtime example_outside
         (lit "https://t.bilibili.com/123") w) = Ok (Error AttributeError).
Proof.
  cbv zeta.
  set (u := lit "https://t.bilibili.com/123").
  set (W := example_world no_rows (detail_only 256 "MUSIC")).
  split; [vm_compute; reflexivity|].
  assert (E : fst (@dynamic_fetch example_runtime example_outside u
                     (noted (Invoked dynamic_r [VStr u]) W))
              = Ok ?[f]) by (vm_compute; reflexivity).
  match type of E with _ = Ok ?x => set (f0 := x) in * end.
  set (W0 := snd (@dynamic_fetch example_runtime example_outside u
                    (noted (Invoked dynamic_r [VStr u]) W))) in *.
  assert (E2 : fst (@nested_parser example_runtime example_outside is_music
                      (VInt 12345) W0) = Ok (Error (Upstream 404)))
    by (vm_compute; reflexivity).
  rewrite (@failed_nested_resolver_is_masked example_runtime example_outside
             u W W0
             (snd (@nested_parser example_runtime example_outside is_music
                     (VInt 12345) W0))
             f0 256 is_music (obj [("id"%string, VInt 12345)]) (VInt 12345)
             (Upstream 404) (run_pair _ _ _ E)).
  - reflexivity.
  - vm_compute. reflexivity.
  - reflexivity.
  - vm_compute. reflexivity.
  - reflexivity.
  - exact (run_pair _ _ _ E2).
Defined.


Section PlainUpdates.
Context {RT : Runtime} {OUT : Outside}.

Lemma plain_dispatch (z : Z) (k : plain_kind) :
  plain_kind_of z = Some k ->
  py_in (VInt z) (MUSIC ++ VIDEO ++ LIVE ++ ARTICLE) = false /\
  py_in (VInt z) (PIC ++ CLIP)
  = (if k is is_pic then true else if k is is_clip then true else false) /\
  py_in (VInt z) PIC = (if k is is_pic then true else false) /\
  py_in (VInt z) CLIP = (if k is is_clip then true else false) /\
  (k <> is_pic -> k <> is_clip ->
   py_in (VInt z) WORD = (if k is is_word then true else false)) /\
  (k <> is_pic -> k <> is_clip -> k <> is_word ->
   py_in (VInt z) SHARE = (if k is is_share then true else false)).
Proof.
  unfold plain_kind_of, kind_of. rewrite !py_in_app.
  unfold MUSIC, VIDEO, LIVE, ARTICLE, PIC, CLIP, WORD, SHARE.
  rewrite !py_in_int. cbn [existsb]. rewrite !existsb_range.
  destruct (Z.eqb_spec z 256); [discriminate|].
  destruct ((4200 <=? z) && (z <? 4300))%Z eqn:El; [discriminate|].
  destruct ((z =? 8) || (z =? 512) || (4000 <=? z) && (z <? 4200))%Z eqn:Ev;
    [discriminate|].
  destruct (Z.eqb_spec z 64); [discriminate|].
  destruct (Z.eqb_spec z 2);
    [intros [= <-]; subst; repeat split; try congruence; lia|].
  destruct (Z.eqb_spec z 16);
    [intros [= <-]; subst; repeat split; try congruence; lia|].
  destruct ((z =? 1) || (z =? 4))%Z eqn:Ew;
    [intros [= <-]; repeat split; try congruence; lia|].
  destruct ((2048 <=? z) && (z <? 2100))%Z eqn:Es;
    intros [= <-]; repeat split; try congruence; lia.
Qed.

Lemma dynamic_fetch_feed url :
  returns (dynamic_fetch url)
          (fun f => d_feed f = new_feed url /\ _user f = VStr [] /\
                    _dcontent f = VStr []).
Proof.
  unfold dynamic_fetch.
  destruct (search dynamic_re url) as [m|]; [|apply returns_raise].
  cbv zeta. apply returns_bind. intros cache.
  eapply (returns_bind_strong _ _
            (fun f : dynamic => d_feed f = new_feed url /\ _user f = VStr [] /\
                                _dcontent f = VStr [])).
  - destruct cache as [[i c]|]; repeat returns_step; cbn; auto.
  - intros f (H1 & H2 & H3). repeat returns_step. cbn. auto.
Qed.

Lemma dynamic_extra_plain f z k :
  origin_type f = Ok (VInt z) -> plain_kind_of z = Some k ->
  returns (dynamic_extra f) (plain_shape k f).
Proof.
  intros Hot Hk.
  destruct (plain_dispatch z k Hk) as (E0 & Epc & Ep & Ec & Ew & Es).
  unfold dynamic_extra.
  eapply (returns_bind_strong _ _ (fun ot => ot = VInt z)).
  { apply returns_lift. intros a Ha. congruence. }
  intros ot ->. rewrite E0, Epc.
  destruct k; cbv beta iota.
  - (* text *)
    rewrite (Ew ltac:(discriminate) ltac:(discriminate)).
    repeat returns_step. cbn. auto.
  - (* pictures *)
    rewrite Ep. intros w f' w' Hrun.
    inv_bind Hrun as c w1 Hc. inv_lift Hc.
    inv_bind Hrun as name w2 Hname. inv_lift Hname.
    inv_bind Hrun as u w3 Hu. inv_lift Hu.
    inv_bind Hrun as item w4 Hitem. inv_lift Hitem.
    inv_bind Hrun as title w5 Htitle. inv_lift Htitle.
    inv_bind Hrun as item' w6 Hitem'. inv_lift Hitem'.
    inv_bind Hrun as description w7 Hdesc. inv_lift Hdesc.
    inv_bind Hrun as aoc w8 Haoc. inv_lift Haoc.
    inv_bind Hrun as n w9 Hn. inv_lift Hn.
    inv_bind Hrun as f1 w10 Hf1.
    inv_bind Hrun as pictures w11 Hpics. inv_lift Hpics.
    inv_bind Hrun as l w12 Hl. inv_lift Hl.
    inv_bind Hrun as srcs w13 Hsrcs. inv_lift Hsrcs.
    injection Hrun as <- _. cbn -[lit].
    split; [reflexivity|]. exists c, pictures, l. auto.
  - (* clip *)
    rewrite Ep, Ec. repeat returns_step. cbn -[lit]. reflexivity.
  - (* share *)
    rewrite (Ew ltac:(discriminate) ltac:(discriminate)).
    rewrite (Es ltac:(discriminate) ltac:(discriminate) ltac:(discriminate)).
    repeat returns_step. cbn -[lit]. reflexivity.
  - (* unknown *)
    rewrite (Ew ltac:(discriminate) ltac:(discriminate)).
    rewrite (Es ltac:(discriminate) ltac:(discriminate) ltac:(discriminate)).
    repeat returns_step. reflexivity.
Qed.

End PlainUpdates.


(** X19.  A resolved status update of a plain kind has the media of that
    kind: a text update none, a picture post the type "image" and one
    media URL for each picture of the card, in their order, a clip the type
    "video", a share the type "image".  An update of an unknown kind is
    resolved to a feed without uid and media, to which neither a user nor a
    content is assigned: when it is no repost its [user] and [content]
    getters return the empty string, and when it is a repost they return
    the name and the shrunk text of the repost. *)
Theorem plain_update_media `{Runtime} `{Outside} (url : pystr)
    (w w' : world) (d : dynamic) (z : Z) (k : plain_kind) :
  dynamic_parser url w = (Ok (Value (Dynamic d)), w') ->
  origin_type d = Ok (VInt z) -> plain_kind_of z = Some k ->
  match k with
  | is_word =>
      mediatype (d_feed d) = [] /\ _mediaurls (d_feed d) = [] /\
      extra_markdown (d_feed d) = VStr []
  | is_pic =>
      mediatype (d_feed d) = lit "image" /\
      exists c pictures l,
        card d = Ok c /\ get2 c "item" "pictures" = Ok pictures /\
        py_iter pictures = Ok l /\
        mapM (fun t => py_get t "img_src") l = Ok (_mediaurls (d_feed d))
  | is_clip => mediatype (d_feed d) = lit "video"
  | is_share => mediatype (d_feed d) = lit "image"
  | is_unknown =>
      mediatype (d_feed d) = [] /\ _mediaurls (d_feed d) = [] /\
      extra_markdown (d_feed d) = VStr [] /\ uid (d_feed d) = VStr [] /\
      _user d = VStr [] /\ _dcontent d = VStr [] /\
      (has_forward d = Ok false ->
       dynamic_user d = Ok (VStr []) /\ dynamic_content d = Ok []) /\
      (has_forward d = Ok true ->
       dynamic_user d = Ok (forward_user d) /\
       dynamic_content d
       = (c ← py_add (forward_content d) (VStr []); shrink_line c))
  end.
Proof.
  intros Hrun Hot Hk. unfold dynamic_parser in Hrun.
  apply bind_inv in Hrun as [([] & wn & _ & Hrun) | (e & _ & ?)]; [|discriminate].
  apply safe_parser_value in Hrun as [w0 Hrun]. unfold dynamic_body in Hrun.
  inv_bind Hrun as f0 wa Hfetch.
  inv_bind Hrun as f1 wb Hextra.
  inv_bind Hrun as f2 wc Hfwd. inv_lift Hfwd.
  inv_bind Hrun as o wd Ho. inv_lift Ho.
  inv_bind Hrun as rt we Hrt. inv_lift Hrt.
  inv_bind Hrun as rc wf Hrc.
  injection Hrun as <- <-.
  pose proof (dynamic_forward_keeps _ _ Hfwd) as [Hd2 Hc2].
  apply dynamic_forward_feed in Hfwd as [Hf2 Hu2].
  pose proof (dynamic_extra_detail f0 _ _ _ Hextra) as Hd1. simpl in Hd1.
  assert (Hd : detailcontent (on_dfeed (set_replycontent rc) f2)
               = detailcontent f0) by (cbn; congruence).
  rewrite (origin_type_ext _ _ Hd) in Hot. rewrite (card_ext _ _ Hd).
  apply dynamic_fetch_feed in Hfetch as (Hn & Hu0 & Hc0).
  pose proof (dynamic_extra_plain f0 z k Hot Hk _ _ _ Hextra) as Hshape.
  destruct k; cbn [plain_shape] in Hshape;
    cbn [d_feed on_dfeed uid extra_markdown _mediaurls mediatype
         set_replycontent].
  - rewrite Hf2. destruct Hshape as (H1 & H2 & H3).
    rewrite H1, H2, H3, Hn. repeat split.
  - rewrite Hf2. exact Hshape.
  - rewrite Hf2. exact Hshape.
  - rewrite Hf2. exact Hshape.
  - subst f1.
    assert (Hud : _user (on_dfeed (set_replycontent rc) f2) = VStr [])
      by (cbn [_user on_dfeed]; congruence).
    assert (Hdd : _dcontent (on_dfeed (set_replycontent rc) f2) = VStr [])
      by (cbn [_dcontent on_dfeed]; congruence).
    rewrite Hf2, Hn.
    split; [reflexivity|]. split; [reflexivity|]. split; [reflexivity|].
    split; [reflexivity|]. split; [exact Hud|]. split; [exact Hdd|]. split.
    + intros Hf. split.
      * rewrite (dynamic_user_of _ false Hf). f_equal. exact Hud.
      * rewrite (dynamic_content_plain _ [] Hf Hdd). reflexivity.
    + intros Hf. split.
      * rewrite (dynamic_user_of _ true Hf). reflexivity.
      * rewrite (dynamic_content_repost _ Hf). unfold repost_prefix.
        rewrite Hud, Hdd. reflexivity.
Qed.

Lemma plain_update_media_witness :
  (let r := @dynamic_parser example_runtime example_outside
              (lit "https://t.bilibili.com/123")
              (example_world no_rows (example_net 2 0 "PIC" with_comments)) in
   exists d,
     fst r = Ok (Value (Dynamic d)) /\
     mediatype (d_feed d) = lit "image" /\
     _mediaurls (d_feed d) = [str "http://i0.hdslb.com/p.png"]) /\
  (let r := @dynamic_parser update_runtime example_outside
              (lit "https://t.bilibili.com/123")
              (example_world no_rows (example_net 1 9999 "REPOST" with_comments)) in
   exists d,
     fst r = Ok (Value (Dynamic d)) /\
     @dynamic_user d = Ok (str "carol") /\
     @dynamic_content update_runtime d = Ok (lit "look")).
Proof.
  cbv zeta.
  set (u := lit "https://t.bilibili.com/123").
  split.
  - set (W := example_world no_rows (example_net 2 0 "PIC" with_comments)).
    eexists.
    assert (E : fst (@dynamic_parser example_runtime example_outside u W)
                = Ok (Value (Dynamic ?[d]))) by (vm_compute; reflexivity).
    split; [exact E|].
    match type of E with _ = Ok (Value (Dynamic ?x)) => set (d0 := x) in * end.
    destruct (@plain_update_media example_runtime example_outside u W _ d0 2
                is_pic (run_pair _ _ _ E)) as [Ht _].
    + vm_compute. reflexivity.
    + reflexivity.
    + split; [exact Ht|reflexivity].
  - set (W := example_world no_rows (example_net 1 9999 "REPOST" with_comments)).
    eexists.
    assert (E : fst (@dynamic_parser update_runtime example_outside u W)
                = Ok (Value (Dynamic ?[d]))) by (vm_compute; reflexivity).
    split; [exact E|].
    match type of E with _ = Ok (Value (Dynamic ?x)) => set (d0 := x) in * end.
    destruct (@plain_update_media update_runtime example_outside u W _ d0 9999
                is_unknown (run_pair _ _ _ E))
      as (_ & _ & _ & _ & _ & _ & _ & Hrepost).
    + vm_compute. reflexivity.
    + reflexivity.
    + destruct (Hrepost ltac:(vm_compute; reflexivity)) as [Hu Hc].
      split; [rewrite Hu; vm_compute; reflexivity|].
      rewrite Hc. vm_compute. reflexivity.
Defined.

(** ** The batch and the maintenance of the caches *)

Section Batch.
Context {RT : Runtime} {OUT : Outside}.

Lemma feed_parser_total url w : exists r w', feed_parser url w = (Ok r, w').
Proof.
  unfold feed_parser, mbind, se_bind. rewrite note_noted.
  destruct (safe_parser_total (feed_body url) (noted (Invoked feed_r [VStr url]) w))
    as (v & w' & ->). eauto.
Qed.

Lemma mapM_total {S A B} (f : A -> SE S B) (l : list A) :
  (forall x s, exists r s', f x s = (Ok r, s')) ->
  forall s, exists rs s', mapM f l s = (Ok rs, s').
Proof.
  intros Hf. induction l as [|x l IH]; intros s; [eexists _, _; reflexivity|].
  cbn [mapM].
  destruct (Hf x s) as (r & s1 & Hr). destruct (IH s1) as (rs & s2 & Hrs).
  rewrite (bind_ok _ _ _ _ _ Hr), (bind_ok _ _ _ _ _ Hrs).
  eexists _, _. reflexivity.
Qed.

Lemma gather_fmap {A B} (f : A -> SE world B) (l : list A) w :
  gather (f <$> l) w = mapM f l w.
Proof.
  unfold gather. revert w. induction l as [|x l IH]; intros w; [reflexivity|].
  cbn [fmap list_fmap mapM]. unfold mbind, se_bind.
  destruct (f x w) as [[b|e] w1]; [|reflexivity]. rewrite IH. reflexivity.
Qed.

Lemma mapM_slots {S A B} (f : A -> SE S B) (l : list A) :
  forall s rs s', mapM f l s = (Ok rs, s') ->
  Forall2 (fun x r => exists s1 s2, f x s1 = (Ok r, s2)) l rs.
Proof.
  induction l as [|x l IH]; intros s rs s' Hm.
  - injection Hm as <- _. constructor.
  - cbn [mapM] in Hm.
    apply bind_inv in Hm as [(y & s1 & Hy & Hm) | (e & _ & ?)]; [|discriminate].
    apply bind_inv in Hm as [(k & s2 & Hk & Hm) | (e & _ & ?)]; [|discriminate].
    injection Hm as <- _. constructor; [eauto|]. eapply IH, Hk.
Qed.

Lemma debug_lines (l : list (returned feed_obj)) :
  let line r := match r with
                | Error _ => mret tt
                | Value f => debug_line f
                end in
  (Forall loggable l /\ exists us, mapM line l = Ok us) \/
  (exists f e, In (Value f) l /\ debug_line f = Raise e /\
               mapM line l = Raise e).
Proof.
  cbv zeta. induction l as [|r l IH].
  - left. split; [constructor|eexists; reflexivity].
  - cbn [mapM]. destruct r as [f|e0].
    + destruct (debug_line f) as [[]|e] eqn:Hf.
      * destruct IH as [[Hall [us ->]]|(f' & e & Hin & He & ->)].
        -- left. split; [constructor; assumption|eexists; reflexivity].
        -- right. exists f', e. repeat split; [right; exact Hin|exact He].
      * right. exists f, e. repeat split; [left; reflexivity|exact Hf].
    + destruct IH as [[Hall [us ->]]|(f' & e & Hin & He & ->)].
      * left. split; [constructor; [exact I|assumption]|eexists; reflexivity].
      * right. exists f', e. repeat split; [right; exact Hin|exact He].
Qed.

End Batch.

(** X20.  The resolvers of a batch always return, one result for each URL
    in the order of the URLs, each the result of [feed_parser] on the URL
    with its scheme.  [biliparser] returns that list when the debug line of
    every feed in it can be formatted, and otherwise raises what the debug
    line of one of the feeds raises. *)
Theorem biliparser_raises_only_in_debug_line `{Runtime} `{Outside}
    (urls : urls_arg) (w : world) :
  exists l w',
    gather ((fun url => feed_parser (with_scheme url)) <$> as_list urls) w
    = (Ok l, w') /\
    Forall2 (fun url r => exists w1 w2,
               feed_parser (with_scheme url) w1 = (Ok r, w2))
            (as_list urls) l /\
    ((Forall loggable l /\ biliparser urls w = (Ok l, w')) \/
     (exists f e, In (Value f) l /\ debug_line f = Raise e /\
                  biliparser urls w = (Raise e, w'))).
Proof.
  destruct (mapM_total (fun url => feed_parser (with_scheme url)) (as_list urls)
              (fun x s => feed_parser_total (with_scheme x) s) w)
    as (l & w' & Hg).
  exists l, w'. split; [rewrite gather_fmap; exact Hg|].
  split; [eapply mapM_slots, Hg|].
  rewrite <- gather_fmap in Hg.
  unfold biliparser. rewrite (bind_ok _ _ _ _ _ Hg).
  unfold mbind, se_bind, lift.
  destruct (debug_lines l) as [[Hall [us E]]|(f & e & Hin & He & E)];
    cbv zeta in E; rewrite E.
  - left. split; [exact Hall|reflexivity].
  - right. exists f, e. repeat split; assumption.
Qed.


Lemma startswith_app (p s : pystr) : startswith p (p ++ s) = true.
Proof.
  induction p as [|c p IH]; [destruct s; reflexivity|]. simpl.
  rewrite N.eqb_refl. exact IH.
Qed.

Lemma startswith_weaken (p q s : pystr) :
  startswith (p ++ q) s = true -> startswith p s = true.
Proof.
  revert s. induction p as [|c p IH]; intros s; [destruct s; reflexivity|].
  destruct s as [|d s]; [discriminate|]. simpl.
  intros Hs. apply andb_true_iff in Hs as [-> Hs]. apply IH, Hs.
Qed.

(** X21.  The URL that [biliparser] hands to [feed_parser] starts with
    ["http:"] or ["https:"]; it is the given URL, or the given URL behind
    ["http://"]; normalising it again changes nothing. *)
Theorem with_scheme_normalises (url : pystr) :
  startswith (lit "http:") (with_scheme url)
  || startswith (lit "https:") (with_scheme url) = true /\
  with_scheme (with_scheme url) = with_scheme url /\
  (with_scheme url = url \/ with_scheme url = lit "http://" ++ url).
Proof.
  assert (Hs : startswith (lit "http:") (with_scheme url)
               || startswith (lit "https:") (with_scheme url) = true).
  { unfold with_scheme.
    destruct (startswith (lit "http:") url || startswith (lit "https:") url)
      eqn:E; [exact E|].
    assert (Hp : startswith (lit "http:") (lit "http://" ++ url) = true).
    { apply (startswith_weaken (lit "http:") (lit "//")).
      exact (startswith_app (lit "http://") url). }
    rewrite Hp. reflexivity. }
  split; [exact Hs|]. split.
  - unfold with_scheme at 1. rewrite Hs. reflexivity.
  - unfold with_scheme.
    destruct (startswith (lit "http:") url || startswith (lit "https:") url);
      [left|right]; reflexivity.
Qed.


Section MaintenanceProofs.
Context {OUT : Outside}.

Lemma counts_run (l : list (string * table)) (w : world) :
  gather ((fun e : string * table => count (snd e)) <$> l) w
  = (Ok ((fun e => Z.of_nat (length (db w (snd e)))) <$> l), w).
Proof.
  rewrite gather_fmap. induction l as [|e l IH]; [reflexivity|].
  cbn [mapM]. rewrite (bind_ok _ _ w (Z.of_nat (length (db w (snd e)))) w)
    by reflexivity.
  rewrite (bind_ok _ _ _ _ _ IH). reflexivity.
Qed.

Lemma db_status_run (w : world) : __db_status w = (Ok (status_text w), w).
Proof.
  assert (E1 : foldl (fun ans (ki : string * Z) =>
                        ans ++ lit (fst ki) ++ lit ": " ++ str_of_Z (snd ki) ++ [LF])
                     []
                     (zip (fst <$> CACHES)
                          ((fun e : string * table =>
                              Z.of_nat (length (db w (snd e)))) <$> CACHES))
               = status_lines w).
  { unfold status_lines, CACHES.
    cbn [fmap list_fmap zip zip_with foldl concat fst snd].
    rewrite <- !app_assoc, !app_nil_r. reflexivity. }
  assert (E2 : foldl Z.add 0%Z
                 ((fun e : string * table =>
                     Z.of_nat (length (db w (snd e)))) <$> CACHES)
               = Z.of_nat (rows_in_all w)).
  { unfold rows_in_all, CACHES.
    cbn [fmap list_fmap foldl concat snd]. rewrite !length_app. cbn [length].
    lia. }
  unfold __db_status. cbv zeta.
  rewrite (bind_ok _ _ _ _ _ (counts_run CACHES w)).
  rewrite (bind_ok _ _ _ _ _ (counts_run CACHES w)).
  rewrite E1, E2. reflexivity.
Qed.

Lemma status_text_pointwise (w1 w2 : world) :
  (forall t, db w1 t = db w2 t) -> status_text w1 = status_text w2.
Proof.
  intros E. unfold status_text, status_lines, rows_in_all, CACHES.
  cbn [fmap list_fmap snd fst]. rewrite !E. reflexivity.
Qed.

Lemma filter_filter_same {A} (p : A -> bool) (l : list A) :
  List.filter p (List.filter p l) = List.filter p l.
Proof.
  induction l as [|x l IH]; [reflexivity|]. simpl.
  destruct (p x) eqn:E; simpl; rewrite ?E, IH; reflexivity.
Qed.

End MaintenanceProofs.

(** X22.  [db_clear] with the name of a cache deletes from that cache the
    rows created before today and leaves every other cache as it is; with a
    target that names no cache it deletes nothing, and a target that cannot
    be hashed is refused with [TypeError].  It returns the status of the
    caches after the deletion, and clearing again changes nothing. *)
Theorem db_clear_deletes_old_rows_of_one_cache `{Outside} (today : Z)
    (target : pyval) (w : world) :
  match caches_get target with
  | Raise e => db_clear today target w = (Raise e, w)
  | Ok found =>
      exists w',
        db_clear today target w = (Ok (status_text w'), w') /\
        clock w' = clock w /\ outside w' = outside w /\ calls w' = calls w /\
        (forall t,
           db w' t = if bool_decide (found = Some t)
                     then List.filter (fun r => (today <=? created r)%Z) (db w t)
                     else db w t) /\
        fst (db_clear today target w') = Ok (status_text w') /\
        (forall t, db (snd (db_clear today target w')) t = db w' t)
  end.
Proof.
  unfold db_clear. destruct (caches_get target) as [found|e]; [|reflexivity].
  assert (Hneg : forall l : list row,
            List.filter (fun r => negb (created r <? today)%Z) l
            = List.filter (fun r => (today <=? created r)%Z) l).
  { intros l. apply List.filter_ext. intros r.
    rewrite Z.leb_antisym. reflexivity. }
  destruct found as [t0|].
  - set (w' := set_db t0 (List.filter (fun r => negb (created r <? today)%Z)
                                      (db w t0)) w).
    exists w'.
    assert (Hrun : forall s,
              (found ← lift (Ok (Some t0));
               _ ← match found with
                   | Some t => delete_older t today
                   | None => mret tt
                   end;
               __db_status) s
              = __db_status (set_db t0
                   (List.filter (fun r => negb (created r <? today)%Z)
                                (db s t0)) s)) by reflexivity.
    assert (Hsame : forall t, db (set_db t0
               (List.filter (fun r => negb (created r <? today)%Z)
                            (db w' t0)) w') t = db w' t).
    { intros t. unfold w', set_db. cbn [db].
      destruct (decide (t = t0)) as [->|Hne]; [|reflexivity].
      destruct (decide (t0 = t0)); [|congruence]. apply filter_filter_same. }
    rewrite !Hrun. fold w'. rewrite !db_status_run. cbn [fst snd].
    split; [reflexivity|]. repeat split.
    + intros t. unfold w', set_db. cbn [db].
      destruct (decide (t = t0)) as [->|Hne].
      * rewrite bool_decide_eq_true_2 by reflexivity. apply Hneg.
      * rewrite bool_decide_eq_false_2 by congruence. reflexivity.
    + f_equal. apply status_text_pointwise, Hsame.
    + exact Hsame.
  - exists w.
    assert (Hrun : forall s,
              (found ← lift (Ok None);
               _ ← match found with
                   | Some t => delete_older t today
                   | None => mret tt
                   end;
               __db_status) s = __db_status s) by reflexivity.
    rewrite !Hrun, !db_status_run. cbn [fst snd]. repeat split.
Qed.
